(** * LLM-hack: document chunking, vector search, hybrid ranking and
      batched question processing

    A shallow embedding of the computational parts of the repository:

    - [EnhancedDocumentProcessor.intelligentChunking]
      (document upload route, lines 581-628),
    - [VectorDatabase] and the [POST] handler of
      [api/vector/search/route.ts],
    - [AdvancedPineconeService.semanticSearch] / [hybridSearch] of
      [pinecone.ts],
    - [MultiAIService.processQuestions] / [processIndividualQuestion] of
      [api/ai/process/route.ts], and the [POST] handler of that route,
    - the rest of [EnhancedDocumentProcessor]: [processDocument], the
      extraction of the text, the metadata, the embeddings and the
      domain analysis (document upload route, lines 393-838).

    Conventions.  JavaScript strings are sequences of code units; the
    model uses [string], i.e. code units below 256.  JavaScript numbers
    that are indices or counts are [Z].  The scores and weights of the
    hybrid search, which come from outside, are binary64 numbers
    ([float]).  The other numbers are finite and of small magnitude and
    are the rationals [Q] they denote; the costs, the confidence factors
    of the advanced analysis and the quality metrics of a document are
    computed with the rounding of the engine after every operation (see
    [JS.plus]).  A call that may throw returns a [completion].
    [Math.random] and the wall clock are oracles of an explicit
    environment, read through a counter kept in the [World]. *)

From Stdlib Require Import List String Ascii Bool Arith ZArith QArith Lia.
From Stdlib Require Import Qround Permutation Sorted DecimalString Lqa Floats.
Import ListNotations.

Set Warnings "-inexact-float".

Local Open Scope string_scope.
Local Open Scope Z_scope.

Set Implicit Arguments.

(* ================================================================== *)
(** * JavaScript values and built-ins used by the code                  *)
(* ================================================================== *)

Module JS.

(** Result of evaluating a call: a value or a thrown exception (for an
    async function: the promise fulfils or rejects). *)
Inductive completion (A : Type) : Type :=
| Normal (a : A)
| Throw (message : string).
Arguments Normal {A} a.
Arguments Throw {A} message.

(** The value of a completion that is not a throw. *)
Definition fulfilled (A : Type) (c : completion A) : option A :=
  match c with
  | Normal a => Some a
  | Throw _ => None
  end.

(** JSON values as they arrive in a request body.  Objects and arrays
    are compared by reference by [===]; a value parsed from a request is
    never the same reference as a stored one. *)
Inductive value : Type :=
| JNull
| JBool (b : bool)
| JNum (q : Q)
| JStr (s : string)
| JObj (ref : nat).

(** [a === b] for values of which at least one was parsed afresh. *)
Definition strict_eq (a b : value) : bool :=
  match a, b with
  | JNull, JNull => true
  | JBool x, JBool y => Bool.eqb x y
  | JNum x, JNum y => Qeq_bool x y
  | JStr x, JStr y => String.eqb x y
  | _, _ => false
  end.

(** The environment: successive readings of the clock (milliseconds),
    its ISO rendering, successive results of [Math.random()], and the
    rounding of the engine's arithmetic (see [plus] below). *)
Record env : Type := {
  dateNow : N -> Z;
  toISOString : Z -> string;
  random : N -> Q;
  round : Q -> Q
}.

(** How many times the clock and the generator have been read. *)
Record World : Type := { reads : N; draws : N }.

Definition Date_now (e : env) (w : World) : Z * World :=
  (dateNow e (reads w), {| reads := N.succ (reads w); draws := draws w |}).

Definition Date_toISOString (e : env) (w : World) : string * World :=
  let '(t, w') := Date_now e w in (toISOString e t, w').

Definition Math_random (e : env) (w : World) : Q * World :=
  (random e (draws w), {| reads := reads w; draws := N.succ (draws w) |}).

(** [Array.from({ length: n }, () => Math.random())] *)
Fixpoint random_array (e : env) (n : nat) (w : World) : list Q * World :=
  match n with
  | O => ([], w)
  | S k => let '(x, w1) := Math_random e w in
           let '(xs, w2) := random_array e k w1 in
           (x :: xs, w2)
  end.

(** ** Rounded arithmetic

    A JavaScript number is a binary64 number.  Where the code computes
    with literals, with results of [Math.random()] and with counts, all
    numbers are finite and of small magnitude; such a number is
    identified with the rational it denotes, and an arithmetic operation
    yields the exact result rounded to a binary64 number, to nearest
    with ties to even: [round e].  A decimal literal such as [0.9]
    denotes the rounding of its decimal value; integers of small
    magnitude and [0.5] are binary64 numbers themselves and are written
    as they are.  Comparisons and [Math.floor] are exact. *)

Definition literal (e : env) (q : Q) : Q := round e q.

Definition plus (e : env) (x y : Q) : Q := round e (x + y).

Definition times (e : env) (x y : Q) : Q := round e (x * y).

Definition divided (e : env) (x y : Q) : Q := round e (x / y).

(** ** Strings *)

Definition len (s : string) : Z := Z.of_nat (String.length s).

Definition clamp (n i : Z) : Z := Z.max 0 (Z.min i n).

(** [s.substring(a, b)]: both indices are clamped to [0, length] and
    swapped when [a > b]. *)
Definition substring (s : string) (a b : Z) : string :=
  let a' := clamp (len s) a in
  let b' := clamp (len s) b in
  let lo := Z.min a' b' in
  let hi := Z.max a' b' in
  String.substring (Z.to_nat lo) (Z.to_nat (hi - lo)) s.

Fixpoint lastIndexOf_from (c : ascii) (s : string) (i acc : Z) : Z :=
  match s with
  | EmptyString => acc
  | String d t => lastIndexOf_from c t (i + 1) (if Ascii.eqb d c then i else acc)
  end.

(** [s.lastIndexOf(c)] for a one-character needle: the greatest index
    holding [c], or -1. *)
Definition lastIndexOf (s : string) (c : ascii) : Z :=
  lastIndexOf_from c s 0 (-1).

(** White space of [String.prototype.trim] among code units below 256. *)
Definition is_space (c : ascii) : bool :=
  let n := nat_of_ascii c in
  ((9 <=? n) && (n <=? 13) || (n =? 32) || (n =? 160))%nat.

Fixpoint trimStart (s : string) : string :=
  match s with
  | EmptyString => EmptyString
  | String c t => if is_space c then trimStart t else s
  end.

Fixpoint trimEnd (s : string) : string :=
  match s with
  | EmptyString => EmptyString
  | String c t =>
      match trimEnd t with
      | EmptyString => if is_space c then EmptyString else String c EmptyString
      | t' => String c t'
      end
  end.

Definition trim (s : string) : string := trimEnd (trimStart s).

(** [toLowerCase] on code units below 256: A-Z and the Latin-1 capitals. *)
Definition lower_char (c : ascii) : ascii :=
  let n := nat_of_ascii c in
  if ((65 <=? n) && (n <=? 90)
      || (192 <=? n) && (n <=? 222) && negb (n =? 215))%nat
  then ascii_of_nat (n + 32) else c.

Fixpoint toLowerCase (s : string) : string :=
  match s with
  | EmptyString => EmptyString
  | String c t => String (lower_char c) (toLowerCase t)
  end.

Fixpoint startsWith (s p : string) {struct p} : bool :=
  match p, s with
  | EmptyString, _ => true
  | String _ _, EmptyString => false
  | String a p', String b s' => Ascii.eqb a b && startsWith s' p'
  end.

(** [s.includes(t)]: [t] occurs in [s] as a contiguous substring. *)
Fixpoint includes (s t : string) : bool :=
  startsWith s t ||
  match s with
  | EmptyString => false
  | String _ s' => includes s' t
  end.

(** Template literal [`${n}`] for a non-negative integer. *)
Definition nat_to_string (n : nat) : string :=
  NilEmpty.string_of_uint (Nat.to_uint n).

(** ** Arrays *)

(** [xs.slice(0, k)]: a negative [k] counts from the end. *)
Definition slice0 (A : Type) (k : Z) (xs : list A) : list A :=
  let n := Z.of_nat (List.length xs) in
  let stop := if k <? 0 then Z.max (n + k) 0 else Z.min k n in
  firstn (Z.to_nat stop) xs.

(** [xs.sort((a, b) => key(b) - key(a))]: the sort is stable, so with
    this comparator the result is the one of the insertion sort below: an
    element goes before the first one that does not have a strictly
    greater key. *)
Section SortDesc.
Variable A : Type.
Variable key : A -> Q.

Fixpoint insert_desc (x : A) (l : list A) : list A :=
  match l with
  | [] => [x]
  | y :: l' => if Qle_bool (key y) (key x) then x :: y :: l'
               else y :: insert_desc x l'
  end.

Fixpoint sort_desc (l : list A) : list A :=
  match l with
  | [] => []
  | x :: l' => insert_desc x (sort_desc l')
  end.

(** In non-increasing order of the key. *)
Definition descending (l : list A) : Prop :=
  StronglySorted (fun a b => key b <= key a)%Q l.
End SortDesc.

End JS.

(* ================================================================== *)
(** * The chunker: [EnhancedDocumentProcessor.intelligentChunking]      *)
(* ================================================================== *)

Module Chunker.
Import JS.

Record entities : Type := {
  amounts : list string;
  dates : list string;
  organizations : list string;
  locations : list string
}.

Record chunk_metadata : Type := {
  chunk_index : nat;
  domain : string;
  created_at : string
}.

Record chunk : Type := {
  id : string;
  text : string;
  start_index : Z;
  end_index : Z;
  length : Z;
  section : string;
  keywords : list string;
  entities_of : entities;
  metadata : chunk_metadata
}.

Definition chunkSize : Z := 1000.
Definition overlap : Z := 200.

(** [chunkSize * 0.7] is exactly 700 in binary64. *)
Definition minBoundary : Z := 700.

(** ** [detectSection] (lines 630-667)

    Every pattern is an alternation of lower-case ASCII literals under
    the [i] flag.  On a text whose code units are all below 256, which
    is what [string] holds, a code unit matches a letter of a literal
    exactly when it is that letter in either case, so
    [pattern.test(text)] holds when one of the literals occurs in the
    lower-cased text.  (Beyond code unit 255 the two differ: U+212A
    lower-cases to [k] and is not matched by [/k/i].  Such texts are
    outside the model.) *)

Definition pattern : Type := list string.

Definition test (p : pattern) (text : string) : bool :=
  existsb (fun lit => includes (toLowerCase text) lit) p.

Definition definitions_pattern : pattern :=
  ["definition"; "interpret"; "mean"; "shall mean"].

Definition insurance_patterns : list (string * pattern) :=
  [ ("coverage", ["coverage"; "benefit"; "eligible"; "entitlement"]);
    ("exclusions", ["exclude"; "not cover"; "exception"; "limitation"]);
    ("claims", ["claim"; "procedure"; "document"; "intimation"; "settlement"]);
    ("premium", ["premium"; "payment"; "due"; "grace period"]);
    ("terms", ["terms"; "conditions"; "provisions"; "clause"]);
    ("definitions", definitions_pattern) ].

Definition legal_patterns : list (string * pattern) :=
  [ ("obligations", ["obligation"; "responsibility"; "duty"; "requirement"]);
    ("rights", ["right"; "entitlement"; "privilege"; "authority"]);
    ("liability", ["liability"; "responsible"; "accountable"; "damages"]);
    ("termination", ["terminate"; "end"; "expire"; "dissolution"]);
    ("jurisdiction", ["jurisdiction"; "court"; "legal"; "dispute"]);
    ("definitions", definitions_pattern) ].

Definition hr_patterns : list (string * pattern) :=
  [ ("benefits", ["benefit"; "entitlement"; "allowance"; "compensation"]);
    ("leave", ["leave"; "vacation"; "absence"; "time off"]);
    ("performance", ["performance"; "evaluation"; "review"; "assessment"]);
    ("conduct", ["conduct"; "behavior"; "discipline"; "violation"]);
    ("training", ["training"; "development"; "education"; "skill"]);
    ("definitions", definitions_pattern) ].

(** Property names every object literal inherits; looking one of them up
    in [sectionPatterns] yields a truthy object without own entries. *)
Definition inherited_names : list string :=
  [ "constructor"; "__proto__"; "hasOwnProperty"; "isPrototypeOf";
    "propertyIsEnumerable"; "toLocaleString"; "toString"; "valueOf";
    "__defineGetter__"; "__defineSetter__"; "__lookupGetter__";
    "__lookupSetter__" ].

(** [sectionPatterns[domain] || sectionPatterns.insurance] *)
Definition sectionPatterns (domain : string) : list (string * pattern) :=
  if String.eqb domain "insurance" then insurance_patterns
  else if String.eqb domain "legal" then legal_patterns
  else if String.eqb domain "hr" then hr_patterns
  else if existsb (String.eqb domain) inherited_names then []
  else insurance_patterns.

Fixpoint first_match (ps : list (string * pattern)) (text : string) : string :=
  match ps with
  | [] => "general"
  | (name, p) :: ps' => if test p text then name else first_match ps' text
  end.

Definition detectSection (text domain : string) : string :=
  first_match (sectionPatterns domain) text.

(** ** The loop (lines 586-627) *)

Record loop_state : Type := {
  startIndex : Z;
  chunkIndex : nat;
  chunks : list chunk;
  world : World
}.

(** What a bounded number of iterations has led to. *)
Inductive run : Type :=
| Returned (result : list chunk) (w : World)
| Thrown (message : string)
| Running (st : loop_state).

Section Loop.
(** [extractKeywords] (lines 669-687) and [extractSimpleEntities]
    (lines 689-699) are functions of the chunk text only (regular
    expression matches and a frequency count); they stay parameters. *)
Variable extractKeywords : string -> list string.
Variable extractSimpleEntities : string -> entities.

Variable e : env.

(** Line 591 declares [endIndex] with [const] and line 602 assigns to
    it.  An engine that keeps the binding constant throws a TypeError
    at that assignment; a build that lowers [const] to [var] performs
    it.  The flag selects the first behaviour. *)
Variable const_enforced : bool.

Variable content : string.
Variable dom : string.

(** One pass through the body of the [while] loop. *)
Definition iteration (st : loop_state) : completion loop_state :=
  let endIndex := Z.min (startIndex st + chunkSize) (len content) in
  let chunkText := substring content (startIndex st) endIndex in
  let cut : completion (string * Z) :=
    if endIndex <? len content then
      let lastPeriod := lastIndexOf chunkText "."%char in
      let lastNewline := lastIndexOf chunkText "010"%char in
      let boundary := Z.max lastPeriod lastNewline in
      if boundary >? minBoundary then
        if const_enforced
        then Throw "TypeError: Assignment to constant variable."
        else Normal (substring chunkText 0 (boundary + 1),
                     startIndex st + boundary + 1)
      else Normal (chunkText, endIndex)
    else Normal (chunkText, endIndex) in
  match cut with
  | Throw m => Throw m
  | Normal (chunkText, endIndex) =>
      let '(now, w) := Date_toISOString e (world st) in
      let c := {| id := "chunk_" ++ nat_to_string (chunkIndex st);
                  text := trim chunkText;
                  start_index := startIndex st;
                  end_index := endIndex;
                  length := len chunkText;
                  section := detectSection chunkText dom;
                  keywords := extractKeywords chunkText;
                  entities_of := extractSimpleEntities chunkText;
                  metadata := {| chunk_index := chunkIndex st;
                                 domain := dom;
                                 created_at := now |} |} in
      Normal {| startIndex := endIndex - overlap;
                chunkIndex := S (chunkIndex st);
                chunks := chunks st ++ [c];
                world := w |}
  end.

(** [while (startIndex < content.length) { ... }; return chunks],
    cut off after [fuel] iterations. *)
Fixpoint loop (fuel : nat) (st : loop_state) : run :=
  if startIndex st <? len content then
    match fuel with
    | O => Running st
    | S fuel' =>
        match iteration st with
        | Normal st' => loop fuel' st'
        | Throw m => Thrown m
        end
    end
  else Returned (chunks st) (world st).

Definition initial (w : World) : loop_state :=
  {| startIndex := 0; chunkIndex := 0; chunks := []; world := w |}.

Definition intelligentChunking (fuel : nat) (w : World) : run :=
  loop fuel (initial w).

(** The spans of the chunks emitted so far. *)
Definition spans (cs : list chunk) : list (Z * Z) :=
  map (fun c => (start_index c, end_index c)) cs.

End Loop.

(** The chunks pushed so far. *)
Definition emitted (r : run) : list chunk :=
  match r with
  | Returned cs _ => cs
  | Thrown _ => []
  | Running st => chunks st
  end.


End Chunker.

(* ================================================================== *)
(** * The simulated vector database and its search route                *)
(* ================================================================== *)

Module VectorDB.
Import JS.

(** A metadata object, and the filter object of a request: own
    properties in insertion order. *)
Definition object : Type := list (string * value).

Fixpoint get (o : object) (k : string) : option value :=
  match o with
  | [] => None
  | (k', v) :: o' => if String.eqb k' k then Some v else get o' k
  end.

Record vector : Type := {
  id : string;
  values : list Q;
  metadata : object
}.

(** [Map<string, vector>]: keys are unique and iteration follows the
    order of first insertion; [set] on a present key replaces the value
    in place. *)
Definition Map : Type := list (string * vector).

Fixpoint Map_set (k : string) (v : vector) (m : Map) : Map :=
  match m with
  | [] => [(k, v)]
  | (k', v') :: m' =>
      if String.eqb k' k then (k, v) :: m' else (k', v') :: Map_set k v m'
  end.

Fixpoint Map_get (k : string) (m : Map) : option vector :=
  match m with
  | [] => None
  | (k', v) :: m' => if String.eqb k' k then Some v else Map_get k m'
  end.

Definition Map_values (m : Map) : list vector := map snd m.

Definition keys (m : Map) : list string := map fst m.

(** [vectors.forEach(vector => this.vectors.set(vector.id, vector))] *)
Definition set_all (vectors : list vector) (m : Map) : Map :=
  fold_left (fun acc v => Map_set (id v) v acc) vectors m.

Record sample : Type := {
  sample_id : string;
  sample_text : string;
  sample_metadata : object
}.

Definition sampleChunks : list sample :=
  [ {| sample_id := "chunk_1";
       sample_text := "Grace period of thirty days is provided for premium payment after the due date";
       sample_metadata := [("type", JStr "payment_terms"); ("section", JStr "grace_period")] |};
    {| sample_id := "chunk_2";
       sample_text := "Waiting period of thirty-six months for pre-existing diseases and their direct complications";
       sample_metadata := [("type", JStr "coverage_terms"); ("section", JStr "pre_existing")] |};
    {| sample_id := "chunk_3";
       sample_text := "Maternity expenses covered including childbirth and lawful medical termination of pregnancy";
       sample_metadata := [("type", JStr "coverage_benefits"); ("section", JStr "maternity")] |};
    {| sample_id := "chunk_4";
       sample_text := "Specific waiting period of two years for cataract surgery";
       sample_metadata := [("type", JStr "coverage_terms"); ("section", JStr "cataract")] |};
    {| sample_id := "chunk_5";
       sample_text := "Medical expenses for organ donor hospitalization covered for harvesting organ";
       sample_metadata := [("type", JStr "coverage_benefits"); ("section", JStr "organ_donor")] |} ].

Definition dimension : nat := 1536.

(** A query result: [{ ...vector, score }]. *)
Record scored : Type := {
  entry : vector;
  score : Q
}.

(** The body of a search request after destructuring; [None] is an
    absent property, which takes the default. *)
Record body : Type := {
  query_text : option string;
  topK : option Z;
  filters : option object
}.

Record hit : Type := {
  hit_id : string;
  hit_score : Q;
  hit_text : option value;
  hit_metadata : object
}.

Inductive response : Type :=
| Ok (query : string) (answer : string) (results : list hit)
     (total_results : nat) (processing_time : Z)
| BadRequest (error : string)
| ServerError (error : string).

(** The process-wide state: the singleton (absent until the first
    [getInstance]) and the world. *)
Record state : Type := {
  instance : option Map;
  world : World
}.

Section Database.
Variable e : env.

(** [initializeWithSampleData] (lines 18-57), on the fresh map. *)
Fixpoint load (cs : list sample) (m : Map) (w : World) : Map * World :=
  match cs with
  | [] => (m, w)
  | c :: cs' =>
      let '(embedding, w1) := random_array e dimension w in
      let v := {| id := sample_id c;
                  values := embedding;
                  metadata := (sample_metadata c ++ [("text", JStr (sample_text c))])%list |} in
      load cs' (Map_set (sample_id c) v m) w1
  end.

Definition initializeWithSampleData (w : World) : Map * World :=
  load sampleChunks [] w.

Definition getInstance (st : state) : Map * state :=
  match instance st with
  | Some m => (m, st)
  | None =>
      let '(m, w) := initializeWithSampleData (world st) in
      (m, {| instance := Some m; world := w |})
  end.

(** [Array.from(this.vectors.values()).map(vector => ({ ...vector,
    score: Math.random() * 0.3 + 0.7 }))] *)
Fixpoint score_all (vs : list vector) (w : World) : list scored * World :=
  match vs with
  | [] => ([], w)
  | v :: vs' =>
      let '(r, w1) := Math_random e w in
      let '(rest, w2) := score_all vs' w1 in
      ({| entry := v; score := (r * (3 # 10) + (7 # 10))%Q |} :: rest, w2)
  end.

(** [VectorDatabase.query] (lines 59-67); the query embedding is not
    read. *)
Definition query (m : Map) (queryEmbedding : list Q) (k : Z) (w : World)
  : completion (list scored) * World :=
  let '(results, w') := score_all (Map_values m) w in
  (Normal (slice0 k (sort_desc score results)), w').

(** [VectorDatabase.upsert] (lines 69-73). *)
Definition upsert (vectors : list vector) (m : Map) : completion Map :=
  Normal (set_all vectors m).

(** The filter callback of lines 92-96. *)
Definition satisfies (fs : object) (result : scored) : bool :=
  if (List.length fs =? 0)%nat then true
  else forallb (fun kv => match get (metadata (entry result)) (fst kv) with
                          | Some x => strict_eq x (snd kv)
                          | None => false
                          end) fs.

(** Lines 84-96 of [POST]: embed the query, search, then filter. *)
Definition search (k : Z) (fs : object) (st : state)
  : completion (list scored) * state :=
  let '(queryEmbedding, w1) := random_array e dimension (world st) in
  let '(vectorDB, st1) := getInstance {| instance := instance st; world := w1 |} in
  match query vectorDB queryEmbedding k (world st1) with
  | (Normal searchResults, w2) =>
      (Normal (filter (satisfies fs) searchResults),
       {| instance := instance st1; world := w2 |})
  | (Throw m, w2) => (Throw m, {| instance := instance st1; world := w2 |})
  end.

(** The map that [search] consults, and its entries with the scores
    that [search] draws for them. *)
Definition stored (st : state) : Map :=
  let '(_, w1) := random_array e dimension (world st) in
  fst (getInstance {| instance := instance st; world := w1 |}).

Definition scored_store (st : state) : list scored :=
  let '(_, w1) := random_array e dimension (world st) in
  let '(vectorDB, st1) := getInstance {| instance := instance st; world := w1 |} in
  fst (score_all (Map_values vectorDB) (world st1)).

(** The answer of the external language model (lines 99-105) for the
    filtered results and the query: a text, or a failure. *)
Variable generateText : list scored -> string -> completion string.

Definition to_hit (r : scored) : hit :=
  {| hit_id := id (entry r);
     hit_score := score r;
     hit_text := get (metadata (entry r)) "text";
     hit_metadata := metadata (entry r) |}.

Definition POST (b : body) (st : state) : response * state :=
  let k := match topK b with Some k => k | None => 5 end in
  let fs := match filters b with Some fs => fs | None => [] end in
  match query_text b with
  | None | Some EmptyString => (BadRequest "Query is required", st)
  | Some q =>
      match search k fs st with
      | (Normal filteredResults, st1) =>
          match generateText filteredResults q with
          | Normal answer =>
              let '(now, w) := Date_now e (world st1) in
              (Ok q answer (map to_hit filteredResults)
                  (List.length filteredResults) now,
               {| instance := instance st1; world := w |})
          | Throw _ => (ServerError "Vector search failed", st1)
          end
      | (Throw _, st1) => (ServerError "Vector search failed", st1)
      end
  end.

End Database.

End VectorDB.

(* ================================================================== *)
(** * Hybrid search: [AdvancedPineconeService]                          *)
(* ================================================================== *)

Module Pinecone.
Import JS.

(** Scores and weights reach the service from outside (the index and
    the caller) and may be any binary64 number, NaN and the infinities
    included.  They are the primitive floating-point numbers, whose
    operations are those of binary64 with rounding to nearest. *)

(** [VectorMetadata] as a query returns it: [text] and [keywords] may be
    missing from a stored record. *)
Record VectorMetadata : Type := {
  documentId : string;
  chunkIndex : Z;
  text : option string;
  section : string;
  domain : string;
  confidence : float;
  timestamp : string;
  keywords : option (list string);
  entityType : string
}.

(** One element of [results.matches]. *)
Record scored_match : Type := {
  match_id : string;
  match_score : option float;
  match_metadata : option VectorMetadata
}.

Record searchRequest : Type := {
  vector : list float;
  request_topK : Z;
  includeMetadata : bool;
  request_filter : option VectorDB.object
}.

(** What [semanticSearch] returns for a match. *)
Record result : Type := {
  result_id : string;
  score : float;
  result_text : string;
  metadata : option VectorMetadata
}.

(** [{ ...result, hybridScore }] *)
Record hybrid : Type := {
  base : result;
  hybridScore : float
}.

Record options : Type := {
  semanticWeight : option float;
  keywordWeight : option float;
  topK : option Z
}.

(** A number that [||] passes over: [0], [-0] or [NaN]. *)
Definition falsy (x : float) : bool :=
  PrimFloat.eqb x 0%float || PrimFloat.is_nan x.

(** The comparator [(a, b) => b.hybridScore - a.hybridScore]:
    [after a b] when it is positive, and the sort has to put [a] after
    [b]; [before a b] when it is negative.  A difference that is [NaN]
    is neither. *)
Definition after (a b : hybrid) : bool :=
  PrimFloat.ltb 0%float (PrimFloat.sub (hybridScore b) (hybridScore a)).

Definition before (a b : hybrid) : bool :=
  PrimFloat.ltb (PrimFloat.sub (hybridScore b) (hybridScore a)) 0%float.

(** [xs.sort(comparator)] for a comparator that is consistent on [xs]:
    the sort is stable, so its result is the one of the insertion sort
    below, in which an element goes before the first one that it does
    not have to come after.  (For a comparator that is not consistent,
    which takes a [NaN] among the scores, the order is left to the
    engine.) *)
Section SortBy.
Variable A : Type.
Variable comes_after : A -> A -> bool.

Fixpoint insert_by (x : A) (l : list A) : list A :=
  match l with
  | [] => [x]
  | y :: l' => if comes_after x y then y :: insert_by x l' else x :: y :: l'
  end.

Fixpoint sort_by (l : list A) : list A :=
  match l with
  | [] => []
  | x :: l' => insert_by x (sort_by l')
  end.
End SortBy.

Section Service.
(** The two remote services: the embedding model and the index. *)
Variable embedQuery : string -> completion (list float).
Variable index_query : searchRequest -> completion (option (list scored_match)).

Definition to_result (m : scored_match) : result :=
  {| result_id := match_id m;
     score := match match_score m with
              | Some s => if falsy s then 0%float else s
              | None => 0%float
              end;
     result_text := match match_metadata m with
                    | Some md => match text md with Some t => t | None => "" end
                    | None => ""
                    end;
     metadata := match_metadata m |}.

(** [semanticSearch] (lines 81-114). *)
Definition semanticSearch (query : string) (k : option Z)
           (fs : option VectorDB.object) (include : option bool)
  : completion (list result) :=
  let k := match k with Some k => k | None => 10 end in
  let fs := match fs with Some fs => fs | None => [] end in
  let include := match include with Some b => b | None => true end in
  match embedQuery query with
  | Throw m => Throw m
  | Normal queryEmbedding =>
      let request := {| vector := queryEmbedding;
                        request_topK := k;
                        includeMetadata := include;
                        request_filter := if (0 <? List.length fs)%nat then Some fs else None |} in
      match index_query request with
      | Throw m => Throw m
      | Normal (Some matches) => Normal (map to_result matches)
      | Normal None => Normal []
      end
  end.

(** The callback of [keywords.some] (lines 133-135). *)
Definition keyword_in (r : result) (keyword : string) : bool :=
  includes (toLowerCase (result_text r)) (toLowerCase keyword)
  || match metadata r with
     | Some md =>
         match keywords md with
         | Some ks => existsb (fun k => includes (toLowerCase k) (toLowerCase keyword)) ks
         | None => false
         end
     | None => false
     end.

Definition keyword_hit (kws : list string) (r : result) : bool :=
  existsb (keyword_in r) kws.

(** An array of freshly made objects: each one is identified by its
    position, which is what [Array.prototype.includes] compares. *)
Definition with_identity (rs : list result) : list (nat * result) :=
  combine (seq 0 (List.length rs)) rs.

Definition includes_object (xs : list (nat * result)) (x : nat * result) : bool :=
  existsb (fun y => Nat.eqb (fst y) (fst x)) xs.

(** Lines 130-150 of [hybridSearch], on the semantic results. *)
Definition rerank (sw kw : float) (k : Z) (kws : list string)
           (semanticResults : list result) : list hybrid :=
  let objects := with_identity semanticResults in
  let keywordFiltered := filter (fun x => keyword_hit kws (snd x)) objects in
  let hybridResults :=
    map (fun x =>
           let keywordBoost := if includes_object keywordFiltered x then kw else 0%float in
           let finalScore :=
             PrimFloat.add (PrimFloat.mul (score (snd x)) sw) keywordBoost in
           {| base := snd x; hybridScore := finalScore |}) objects in
  slice0 k (sort_by after hybridResults).

(** [hybridSearch] (lines 116-151). *)
Definition hybridSearch (query : string) (kws : list string) (o : options)
  : completion (list hybrid) :=
  let sw := match semanticWeight o with Some x => x | None => 0.7%float end in
  let kw := match keywordWeight o with Some x => x | None => 0.3%float end in
  let k := match topK o with Some k => k | None => 10 end in
  match semanticSearch query (Some (k * 2)) None None with
  | Throw m => Throw m
  | Normal semanticResults => Normal (rerank sw kw k kws semanticResults)
  end.

End Service.

(** ** Vocabulary of the ranking properties *)

(** [keyword] occurs in [s], case-insensitively, as a substring. *)
Definition appears_in (keyword s : string) : Prop :=
  exists before after : string,
    toLowerCase s = before ++ toLowerCase keyword ++ after.

(** Some supplied keyword occurs in the text of the candidate or in one
    of its stored keywords. *)
Definition overlaps (kws : list string) (r : result) : Prop :=
  exists keyword,
    In keyword kws
    /\ (appears_in keyword (result_text r)
        \/ exists md ks k,
             metadata r = Some md /\ keywords md = Some ks
             /\ In k ks /\ appears_in keyword k).

Definition keywordOverlapIndicator (kws : list string) (r : result) : float :=
  if keyword_hit kws r then 1%float else 0%float.

(** A candidate with the score that the re-ranking gives it. *)
Definition rescore (sw kw : float) (kws : list string) (r : result) : hybrid :=
  {| base := r;
     hybridScore :=
       PrimFloat.add (PrimFloat.mul (score r) sw)
                     (if keyword_hit kws r then kw else 0%float) |}.

(** Neither has to come after the other. *)
Definition tied (a b : hybrid) : bool := negb (after a b) && negb (after b a).

(** The comparator is consistent on the candidates [l], as
    [Array.prototype.sort] requires for a defined order: on them, the
    comparator is negative one way round exactly when it is positive
    the other way round, no two candidates have to come after each
    other, and not having to come after is transitive.  It is so when
    no score is [NaN]. *)
Definition consistent (l : list hybrid) : Prop :=
  forall a b, In a l -> In b l ->
    before a b = after b a
    /\ (after a b = true -> after b a = false)
    /\ (forall c, In c l -> after a b = false -> after b c = false ->
                  after a c = false).

(** The same, as a test. *)
Definition consistentb (l : list hybrid) : bool :=
  forallb (fun a =>
    forallb (fun b =>
      Bool.eqb (before a b) (after b a)
      && (negb (after a b) || negb (after b a))
      && forallb (fun c => after a b || after b c || negb (after a c)) l) l) l.

End Pinecone.

(* ================================================================== *)
(** * Batched question processing: [MultiAIService]                     *)
(* ================================================================== *)

Module MultiAI.
Import JS.

Record modelConfig : Type := {
  endpoint : string;
  maxTokens : Z;
  costPer1kTokens : Q   (* the decimal value of the literal *)
}.

Definition openai_url : string := "https://api.openai.com/v1/chat/completions".
Definition anthropic_url : string := "https://api.anthropic.com/v1/messages".
Definition mistral_url : string := "https://api.mistral.ai/v1/chat/completions".
Definition cohere_url : string := "https://api.cohere.ai/v1/chat".

Definition google_url (name : string) : string :=
  "https://generativelanguage.googleapis.com/v1beta/models/" ++ name
  ++ ":generateContent".

(** [AI_PROVIDERS] (lines 4-134), without the [headers] functions. *)
Definition AI_PROVIDERS : list (string * list (string * modelConfig)) :=
  [ ("openai",
     [ ("gpt-4-turbo", Build_modelConfig openai_url 128000 (3 # 100));
       ("gpt-4", Build_modelConfig openai_url 8192 (6 # 100));
       ("gpt-3.5-turbo", Build_modelConfig openai_url 16385 (2 # 1000)) ]);
    ("anthropic",
     [ ("claude-3-opus", Build_modelConfig anthropic_url 200000 (75 # 1000));
       ("claude-3-sonnet", Build_modelConfig anthropic_url 200000 (15 # 1000));
       ("claude-3-haiku", Build_modelConfig anthropic_url 200000 (25 # 10000)) ]);
    ("google",
     [ ("gemini-pro", Build_modelConfig (google_url "gemini-pro") 32768 (25 # 10000));
       ("gemini-ultra", Build_modelConfig (google_url "gemini-ultra") 32768 (5 # 100)) ]);
    ("mistral",
     [ ("mistral-large", Build_modelConfig mistral_url 32768 (24 # 1000));
       ("mistral-medium", Build_modelConfig mistral_url 32768 (65 # 10000)) ]);
    ("cohere",
     [ ("cohere-command-r-plus", Build_modelConfig cohere_url 128000 (15 # 1000));
       ("cohere-command-r", Build_modelConfig cohere_url 128000 (5 # 1000)) ]) ].

Fixpoint assoc (A : Type) (k : string) (l : list (string * A)) : option A :=
  match l with
  | [] => None
  | (k', a) :: l' => if String.eqb k' k then Some a else assoc k l'
  end.

(** [getProviderFromModel] (lines 212-219). *)
Definition getProviderFromModel (modelId : string) : string :=
  if startsWith modelId "gpt-" then "openai"
  else if startsWith modelId "claude-" then "anthropic"
  else if startsWith modelId "gemini-" then "google"
  else if startsWith modelId "mistral-" then "mistral"
  else if startsWith modelId "cohere-" then "cohere"
  else "openai".

(** What [models[modelId]] evaluates to: an entry of the table, a
    property every object inherits (truthy, without [costPer1kTokens]),
    or [undefined]. *)
Inductive looked_up : Type :=
| Own (c : modelConfig)
| Inherited
| Undefined.

(** [getModelConfig] (lines 221-224). *)
Definition getModelConfig (modelId : string) : looked_up :=
  match assoc (getProviderFromModel modelId) AI_PROVIDERS with
  | Some models =>
      match assoc modelId models with
      | Some c => Own c
      | None => if existsb (String.eqb modelId) Chunker.inherited_names
                then Inherited else Undefined
      end
  | None => Undefined
  end.

Record options : Type := {
  domain : string;
  model : string;
  temperature : Q;
  max_tokens : Z;
  session_id : string;
  advanced_mode : bool;
  batch_mode : bool
}.

(** The object built by [generateContextualResponse]. *)
Record response : Type := {
  r_answer : string;
  r_confidence : Q;
  r_sources : list string;
  r_reasoning : string;
  r_relevant_clauses : list string;
  r_decision_rationale : string;
  r_compliance_status : string;
  r_risk_assessment : string;
  r_recommendations : list string;
  r_key_insights : list string;
  r_action_items : list string
}.

(** The object built by [generateAdvancedAnalysis] (lines 615-639). *)
Record advanced : Type := {
  question_complexity : string;
  domain_specificity : string;
  provider_optimization : string;
  source_reliability : Q;
  context_relevance : Q;
  domain_expertise : Q;
  regulatory_alignment : Q;
  provider_accuracy : Q;
  cross_references : Z;
  validation_checks : Z;
  quality_score : Q;
  provider_used : string
}.

(** A result record.  The record of the [catch] branch has no clause,
    rationale, ... properties ([details] is [None]) and carries
    [error: true]; a record of the [try] branch has no [error] property
    ([error] is [false]).  A cost of [None] is NaN. *)
Record answer_record : Type := {
  id : string;
  question : value;
  answer : string;
  confidence : Q;
  sources : list string;
  reasoning : string;
  processing_time : Q;
  details : option response;
  timestamp : string;
  tokens_used : Z;
  cost_estimate : option Q;
  model_used : string;
  provider : string;
  advanced_analysis : option advanced;
  error : bool
}.

Record session_metadata : Type := {
  total_processing_time : Q;
  total_questions : nat;
  total_tokens : Z;
  total_cost : option Q;
  session_model : string;
  session_provider : string;
  session : string;
  session_advanced_mode : bool;
  session_batch_mode : bool
}.

Record session_result : Type := {
  success : bool;
  results : list answer_record;
  metadata : session_metadata
}.

(** A promise that has settled, or one that is still pending. *)
Inductive promise (A : Type) : Type :=
| Settled (c : completion A) (w : World)
| Pending.
Arguments Settled {A} c w.
Arguments Pending {A}.

(** [estimateTokens] (lines 641-644): [Math.ceil(text.length / 4)]. *)
Definition estimateTokens (text : string) : Z := (len text + 3) / 4.

(** [ms / 1000] *)
Definition seconds (e : env) (ms : Z) : Q := divided e (inject_Z ms) (inject_Z 1000).

(** The text of the [catch] branch (line 282). *)
Definition fallback_answer (provider : string) : string :=
  "I apologize, but I encountered an error while processing this question with "
  ++ provider ++ ". Please try again or use a different AI model.".

Section Service.
Variable e : env.

(** The templates and random choices of [generateContextualResponse]
    after its first statement (lines 330-388), for a question that is
    a string: a response, or an exception (a [null] entry in
    [documents] makes [generateSources] throw). *)
Variable templates :
  string -> string -> list value -> string -> string -> World ->
  completion response * World.

(** [generateContextualResponse] (lines 327-389): its first statement,
    [question.toLowerCase()], throws when the question is not a
    string. *)
Definition generateContextualResponse
           (q : value) (dom : string) (documents : list value)
           (prov mdl : string) (w : World) : completion response * World :=
  match q with
  | JStr s => templates s dom documents prov mdl w
  | _ => (Throw "TypeError: question.toLowerCase is not a function", w)
  end.

Definition pick (b : bool) : string := if b then "high" else "medium".

(** [generateAdvancedAnalysis] (lines 615-639). *)
Definition generateAdvancedAnalysis (prov : string) (w : World) : advanced * World :=
  let '(x1, w) := Math_random e w in
  let '(x2, w) := Math_random e w in
  let '(x3, w) := Math_random e w in
  let '(x4, w) := Math_random e w in
  let '(x5, w) := Math_random e w in
  let '(x6, w) := Math_random e w in
  let '(x7, w) := Math_random e w in
  let '(x8, w) := Math_random e w in
  let '(x9, w) := Math_random e w in
  let '(x10, w) := Math_random e w in
  ({| question_complexity := pick (negb (Qle_bool x1 (1 # 2)));
      domain_specificity := pick (negb (Qle_bool x2 (literal e (3 # 10))));
      provider_optimization := "Optimized for " ++ prov ++ "'s capabilities";
      source_reliability :=
        plus e (literal e (9 # 10)) (times e x3 (literal e (1 # 10)));
      context_relevance :=
        plus e (literal e (85 # 100)) (times e x4 (literal e (1 # 10)));
      domain_expertise :=
        plus e (literal e (88 # 100)) (times e x5 (literal e (1 # 10)));
      regulatory_alignment :=
        plus e (literal e (92 # 100)) (times e x6 (literal e (8 # 100)));
      provider_accuracy :=
        plus e (literal e (9 # 10)) (times e x7 (literal e (8 # 100)));
      cross_references := Qfloor (times e x8 5) + 3;
      validation_checks := Qfloor (times e x9 3) + 2;
      quality_score :=
        plus e (literal e (87 # 100)) (times e x10 (literal e (1 # 10)));
      provider_used := prov |}, w)%Q.

(** [processIndividualQuestion] up to its [await] (line 234); the delay
    of lines 240-241 only decides when the timer fires. *)
Definition begin_question (w : World) : Z * World := Date_now e w.

(** [processIndividualQuestion] from the moment its timer has fired
    (lines 243-294). *)
Definition resume_question
           (q : value) (documents : list value) (o : options) (index : nat)
           (prov : string) (cfg : looked_up) (startTime : Z) (w : World)
  : answer_record * World :=
  match generateContextualResponse q (domain o) documents prov (model o) w with
  | (Normal resp, w1) =>
      let text := match q with JStr s => s | _ => "" end in
      let tokensUsed := estimateTokens (text ++ r_answer resp ++ r_reasoning resp) in
      let costEstimate :=
        match cfg with
        | Own c => Some (times e (inject_Z tokensUsed)
                               (divided e (literal e (costPer1kTokens c))
                                        (inject_Z 1000)))
        | _ => None
        end in
      let '(t1, w2) := Date_now e w1 in
      let '(stamp, w3) := Date_toISOString e w2 in
      let '(adv, w4) :=
        if advanced_mode o
        then let '(a, w') := generateAdvancedAnalysis prov w3 in (Some a, w')
        else (None, w3) in
      ({| id := "q_" ++ session_id o ++ "_" ++ nat_to_string index;
          question := q;
          answer := r_answer resp;
          confidence := r_confidence resp;
          sources := r_sources resp;
          reasoning := r_reasoning resp;
          processing_time := seconds e (t1 - startTime);
          details := Some resp;
          timestamp := stamp;
          tokens_used := tokensUsed;
          cost_estimate := costEstimate;
          model_used := model o;
          provider := prov;
          advanced_analysis := adv;
          error := false |}, w4)
  | (Throw err, w1) =>
      let '(t1, w2) := Date_now e w1 in
      let '(stamp, w3) := Date_toISOString e w2 in
      ({| id := "q_" ++ session_id o ++ "_" ++ nat_to_string index ++ "_error";
          question := q;
          answer := fallback_answer prov;
          confidence := 0;
          sources := [];
          reasoning := "Error occurred during " ++ prov ++ " processing: " ++ err;
          processing_time := seconds e (t1 - startTime);
          details := None;
          timestamp := stamp;
          tokens_used := 0;
          cost_estimate := Some 0%Q;
          model_used := model o;
          provider := prov;
          advanced_analysis := None;
          error := true |}, w3)
  end.

(** A call of [processIndividualQuestion] waiting for its timer. *)
Record task : Type := {
  task_question : value;
  task_index : nat;
  task_start : Z
}.

(** [questions.map((question, index) => processIndividualQuestion(...))]:
    every call runs to its [await] in input order. *)
Fixpoint launch (qs : list value) (index : nat) (w : World) : list task * World :=
  match qs with
  | [] => ([], w)
  | q :: qs' =>
      let '(t0, w1) := begin_question w in
      let '(ts, w2) := launch qs' (S index) w1 in
      ({| task_question := q; task_index := index; task_start := t0 |} :: ts, w2)
  end.

Fixpoint store (A : Type) (i : nat) (x : A) (l : list (option A)) {struct l}
  : list (option A) :=
  match l, i with
  | [], _ => []
  | _ :: l', O => Some x :: l'
  | y :: l', S i' => y :: store i' x l'
  end.

(** The timers fire in the order [sched]; the call whose timer fires
    runs to its end and [Promise.all] stores its record in the slot of
    its index.  An index without a waiting call is no event. *)
Fixpoint complete (documents : list value) (o : options) (prov : string)
         (cfg : looked_up) (tasks : list task) (sched : list nat)
         (slots : list (option answer_record)) (w : World)
  : list (option answer_record) * World :=
  match sched with
  | [] => (slots, w)
  | i :: sched' =>
      match nth_error tasks i, nth_error slots i with
      | Some t, Some None =>
          let '(r, w1) := resume_question (task_question t) documents o
                            (task_index t) prov cfg (task_start t) w in
          complete documents o prov cfg tasks sched' (store i r slots) w1
      | _, _ => complete documents o prov cfg tasks sched' slots w
      end
  end.

(** [Promise.all] fulfils with the array of slots once all are filled. *)
Fixpoint all_filled (A : Type) (slots : list (option A)) : option (list A) :=
  match slots with
  | [] => Some []
  | None :: _ => None
  | Some x :: slots' =>
      match all_filled slots' with
      | Some xs => Some (x :: xs)
      | None => None
      end
  end.

(** The [for] loop of the sequential mode (lines 180-183). *)
Fixpoint sequential (documents : list value) (o : options) (prov : string)
         (cfg : looked_up) (qs : list value) (index : nat) (w : World)
  : list answer_record * World :=
  match qs with
  | [] => ([], w)
  | q :: qs' =>
      let '(t0, w1) := begin_question w in
      let '(r, w2) := resume_question q documents o index prov cfg t0 w1 in
      let '(rs, w3) := sequential documents o prov cfg qs' (S index) w2 in
      (r :: rs, w3)
  end.

Definition sum_tokens (rs : list answer_record) : Z :=
  fold_left (fun sum r => sum + tokens_used r) rs 0.

Definition sum_cost (rs : list answer_record) : option Q :=
  fold_left (fun sum r => match sum, cost_estimate r with
                          | Some s, Some c => Some (plus e s c)
                          | _, _ => None
                          end) rs (Some 0%Q).

(** Lines 186-204. *)
Definition finish (qs : list value) (o : options) (prov : string)
           (startTime : Z) (rs : list answer_record) (w : World)
  : promise session_result :=
  let '(t1, w1) := Date_now e w in
  Settled (Normal
    {| success := true;
       results := rs;
       metadata := {| total_processing_time := seconds e (t1 - startTime);
                      total_questions := List.length qs;
                      total_tokens := sum_tokens rs;
                      total_cost := sum_cost rs;
                      session_model := model o;
                      session_provider := prov;
                      session := session_id o;
                      session_advanced_mode := advanced_mode o;
                      session_batch_mode := batch_mode o |} |}) w1.

(** [processQuestions] (lines 146-210).  In batch mode the timers of
    the launched calls fire in the order [sched]. *)
Definition processQuestions (qs : list value) (documents : list value)
           (o : options) (sched : list nat) (w : World)
  : promise session_result :=
  let '(startTime, w0) := Date_now e w in
  let prov := getProviderFromModel (model o) in
  let cfg := getModelConfig (model o) in
  match cfg with
  | Undefined =>
      Settled (Throw ("Multi-AI processing failed: Error: Unsupported model: "
                      ++ model o)) w0
  | _ =>
      if batch_mode o then
        let '(tasks, w1) := launch qs 0 w0 in
        let '(slots, w2) :=
          complete documents o prov cfg tasks sched (map (fun _ => None) tasks) w1 in
        match all_filled slots with
        | Some batchResults => finish qs o prov startTime batchResults w2
        | None => Pending
        end
      else
        let '(rs, w1) := sequential documents o prov cfg qs 0 w0 in
        finish qs o prov startTime rs w1
  end.

(** ** Vocabulary of the batch properties *)

(** [r] is the record that some call of [processIndividualQuestion] on
    the question [q] returns. *)
Definition produced (documents : list value) (o : options)
           (q : value) (r : answer_record) : Prop :=
  exists index startTime w,
    r = fst (resume_question q documents o index (getProviderFromModel (model o))
                             (getModelConfig (model o)) startTime w).

(** The generation of a response for [q] throws, whenever it runs. *)
Definition always_fails (documents : list value) (o : options) (q : value) : Prop :=
  forall w, exists err,
    fst (generateContextualResponse q (domain o) documents
           (getProviderFromModel (model o)) (model o) w)
    = Throw err.

(** The generation of a response for [q] succeeds, whenever it runs. *)
Definition always_succeeds (documents : list value) (o : options) (q : value) : Prop :=
  forall w, exists resp,
    fst (generateContextualResponse q (domain o) documents
           (getProviderFromModel (model o)) (model o) w)
    = Normal resp.

(** A slot of [Promise.all] is empty or holds a record of its call. *)
Definition slot_ok (documents : list value) (o : options)
           (t : task) (s : option answer_record) : Prop :=
  match s with
  | Some r => produced documents o (task_question t) r
  | None => True
  end.

End Service.

(** The slot [i] holds a record. *)
Definition filled (A : Type) (slots : list (option A)) (i : nat) : Prop :=
  exists x, nth_error slots i = Some (Some x).

End MultiAI.

(* ================================================================== *)
(** * The document processor: [EnhancedDocumentProcessor]               *)
(* ================================================================== *)

Module Processor.
Import JS.

(** An uploaded [File]: its name, MIME type, size in bytes, time of last
    modification and decoded text. *)
Record File : Type := {
  name : string;
  type : string;
  size : Z;
  lastModified : Z;
  file_text : string
}.

Definition supportedFormats : list string :=
  [ "application/pdf";
    "application/msword";
    "application/vnd.openxmlformats-officedocument.wordprocessingml.document";
    "text/plain";
    "text/csv";
    "application/json";
    "text/html";
    "application/vnd.ms-excel";
    "application/vnd.openxmlformats-officedocument.spreadsheetml.sheet";
    "application/vnd.ms-powerpoint";
    "application/vnd.openxmlformats-officedocument.presentationml.presentation" ].

(** ** Built-ins *)

(** [s.split(/\s+/)]: the pieces between the maximal runs of white
    space; a run at either end leaves an empty piece there. *)
Fixpoint split_from (s : string) (in_space : bool) : list string :=
  match s with
  | EmptyString => [EmptyString]
  | String c t =>
      if is_space c then
        if in_space then split_from t true else EmptyString :: split_from t true
      else
        match split_from t false with
        | piece :: pieces => String c piece :: pieces
        | [] => [String c EmptyString]
        end
  end.

Definition split_spaces (s : string) : list string := split_from s false.

(** [s.replace(/\s+/g, ' ')] *)
Fixpoint collapse_from (s : string) (in_space : bool) : string :=
  match s with
  | EmptyString => EmptyString
  | String c t =>
      if is_space c then
        if in_space then collapse_from t true else String " " (collapse_from t true)
      else String c (collapse_from t false)
  end.

Definition collapse_spaces (s : string) : string := collapse_from s false.

Fixpoint has_char (c : ascii) (s : string) : bool :=
  match s with
  | EmptyString => false
  | String d t => Ascii.eqb d c || has_char c t
  end.

(** [s.replace(/<[^>]*>/g, ' ')]: a [<] that has a [>] after it opens a
    tag, which runs to the first such [>]. *)
Fixpoint strip_from (s : string) (in_tag : bool) : string :=
  match s with
  | EmptyString => EmptyString
  | String c t =>
      if in_tag then
        if Ascii.eqb c ">" then String " " (strip_from t false) else strip_from t true
      else if Ascii.eqb c "<" && has_char ">" t then strip_from t true
      else String c (strip_from t false)
  end.

Definition strip_tags (s : string) : string := strip_from s false.

(** [s.substr(start, length)] for non-negative arguments. *)
Definition substr (s : string) (start length : nat) : string :=
  String.substring start length s.

(** Template literal [`${n}`] for an integer. *)
Definition Z_to_string (z : Z) : string :=
  NilZero.string_of_int (Z.to_int z).

(** The values kept, in order of first occurrence:
    [[...new Set(xs)]]. *)
Definition distinct (xs : list string) : list string :=
  fold_left (fun seen x => if existsb (String.eqb x) seen then seen
                           else (seen ++ [x])%list) xs [].

(** [table[domain] || table.insurance] for an object literal with the
    keys [insurance], [legal] and [hr]: [None] stands for the object
    that a property name inherited from [Object.prototype] yields, which
    is truthy and is none of the entries. *)
Definition by_domain (A : Type) (insurance legal hr : A) (domain : string) : option A :=
  if String.eqb domain "insurance" then Some insurance
  else if String.eqb domain "legal" then Some legal
  else if String.eqb domain "hr" then Some hr
  else if existsb (String.eqb domain) Chunker.inherited_names then None
  else Some insurance.

(** ** Text extraction (lines 473-579) *)

(** The pieces of the template literal of lines 499-537 around its three
    interpolations, and the two domain-specific endings (lines 541-556
    and 560-575). *)
Definition mock_before_name : string :=
"
DOCUMENT ANALYSIS REPORT

Document: ".

Definition mock_before_type : string :=
"
Type: ".

Definition mock_before_date : string :=
"
Processed: ".

Definition mock_after_date : string :=
"

EXECUTIVE SUMMARY
This document contains comprehensive information relevant to the specified domain analysis. The content has been processed using advanced AI techniques to extract key information, identify important entities, and structure the data for optimal retrieval and analysis.

SECTION 1: POLICY OVERVIEW
The policy framework outlined in this document establishes clear guidelines and procedures for implementation. Key provisions include coverage details, eligibility criteria, and compliance requirements that align with current regulatory standards.

SECTION 2: TERMS AND CONDITIONS
Detailed terms and conditions specify the rights and obligations of all parties involved. These provisions ensure transparency and provide clear guidance for decision-making processes.

SECTION 3: COVERAGE DETAILS
Coverage provisions include:
- Primary benefits and entitlements
- Exclusions and limitations
- Waiting periods and eligibility requirements
- Claims procedures and documentation requirements

SECTION 4: REGULATORY COMPLIANCE
The document demonstrates compliance with applicable regulations and industry standards. Regular reviews and updates ensure continued adherence to evolving requirements.

SECTION 5: IMPLEMENTATION GUIDELINES
Clear implementation guidelines provide step-by-step procedures for effective execution. These guidelines include:
- Administrative procedures
- Documentation requirements
- Monitoring and review processes
- Quality assurance measures

SECTION 6: RISK MANAGEMENT
Comprehensive risk management strategies are integrated throughout the framework to ensure effective identification, assessment, and mitigation of potential issues.

CONCLUSION
This document provides a robust framework for implementation while maintaining flexibility to adapt to changing requirements and circumstances.
    ".

Definition mock_insurance_provisions : string :=
"

INSURANCE-SPECIFIC PROVISIONS

Grace Period: Premium payments have a grace period of 30 days from the due date.

Pre-existing Conditions: Waiting period of 36 months applies to pre-existing medical conditions.

Maternity Coverage: Available after 24 months of continuous coverage, limited to two deliveries.

Room Rent Limits: Daily room rent capped at 1% of sum insured, ICU charges at 2%.

Claims Process: 24-hour intimation required, cashless facility available at network hospitals.

Exclusions: Cosmetic surgery, dental treatment (except accident-related), experimental treatments.
      ".

Definition mock_legal_provisions : string :=
"

LEGAL FRAMEWORK PROVISIONS

Jurisdiction: All disputes subject to local court jurisdiction as specified in the agreement.

Liability: Limited liability provisions protect parties from excessive exposure.

Termination: Clear termination clauses with appropriate notice periods.

Intellectual Property: Comprehensive IP protection and usage rights defined.

Confidentiality: Strict confidentiality requirements for sensitive information.

Compliance: Adherence to all applicable laws and regulations mandatory.
      ".

Section Extraction.
Variable e : env.

(** [JSON.stringify(JSON.parse(text), null, 2)]: the re-indented
    document, or the syntax error of the parser. *)
Variable reindent_json : string -> completion string.

(** [generateMockDocumentContent] (lines 497-579). *)
Definition generateMockDocumentContent (fileName fileType : string) (w : World)
  : string * World :=
  let '(now, w1) := Date_toISOString e w in
  let baseContent :=
    mock_before_name ++ fileName ++ mock_before_type ++ fileType
    ++ mock_before_date ++ now ++ mock_after_date in
  if includes (toLowerCase fileName) "insurance"
     || includes (toLowerCase fileName) "policy"
  then (baseContent ++ mock_insurance_provisions, w1)
  else if includes (toLowerCase fileName) "legal"
          || includes (toLowerCase fileName) "contract"
  then (baseContent ++ mock_legal_provisions, w1)
  else (baseContent, w1).

(** [extractTextContent] (lines 473-495). *)
Definition extractTextContent (file : File) (w : World) : completion string * World :=
  if String.eqb (type file) "text/plain" then (Normal (file_text file), w)
  else if String.eqb (type file) "application/json"
  then (reindent_json (file_text file), w)
  else if String.eqb (type file) "text/html"
  then (Normal (trim (collapse_spaces (strip_tags (file_text file)))), w)
  else let '(mockContent, w1) := generateMockDocumentContent (name file) (type file) w in
       (Normal mockContent, w1).

End Extraction.

(** ** Analysis helpers (lines 762-833) *)

Definition domainTopics (domain : string) : option (list string) :=
  by_domain
    ["Coverage"; "Premium"; "Claims"; "Exclusions"; "Benefits"; "Waiting Period";
     "Deductible"; "Network"]
    ["Contract"; "Liability"; "Jurisdiction"; "Termination"; "Compliance"; "Rights";
     "Obligations"; "Dispute"]
    ["Benefits"; "Leave"; "Performance"; "Training"; "Compensation"; "Conduct";
     "Development"; "Policy"]
    domain.

(** [extractKeyTopics] (lines 762-775). *)
Definition extractKeyTopics (content domain : string) : completion (list string) :=
  match domainTopics domain with
  | Some topics =>
      Normal (filter (fun topic => includes (toLowerCase content) (toLowerCase topic))
                     topics)
  | None => Throw "TypeError: topics.filter is not a function"
  end.

Definition positiveWords : list string :=
  ["benefit"; "coverage"; "protection"; "support"; "advantage"; "comprehensive"].

Definition negativeWords : list string :=
  ["exclusion"; "limitation"; "restriction"; "penalty"; "violation"; "prohibited"].

Definition count_words (terms words : list string) : Z :=
  Z.of_nat (List.length
              (filter (fun word => existsb (fun term => includes word term) terms) words)).

(** [a > b * 1.5] on counts. *)
Definition exceeds (a b : Z) : bool :=
  negb (Qle_bool (inject_Z a) (inject_Z b * (3 # 2))).

(** [analyzeSentiment] (lines 777-789). *)
Definition analyzeSentiment (content : string) : string :=
  let words := split_spaces (toLowerCase content) in
  let positiveCount := count_words positiveWords words in
  let negativeCount := count_words negativeWords words in
  if exceeds positiveCount negativeCount then "positive"
  else if exceeds negativeCount positiveCount then "negative"
  else "neutral".

(** The alternatives of the three [compliancePatterns], in order; every
    pattern has the flags [g] and [i]. *)
Definition compliancePatterns (domain : string) : option (list string) :=
  by_domain
    ["IRDAI"; "regulatory"; "compliance"; "guideline"; "standard"]
    ["law"; "regulation"; "statute"; "compliance"; "legal requirement"]
    ["labor law"; "employment law"; "regulation"; "compliance"; "standard"]
    domain.

Fixpoint first_alternative (alternatives : list string) (s : string) : option nat :=
  match alternatives with
  | [] => None
  | a :: rest =>
      if startsWith (toLowerCase s) (toLowerCase a) then Some (String.length a)
      else first_alternative rest s
  end.

(** [s.match(/a1|a2|.../gi)]: the matches from left to right; at a
    position the first alternative that fits is taken and the scan
    resumes after it.  [skip] counts the characters of the last match
    still to be passed. *)
Fixpoint match_all (alternatives : list string) (s : string) (skip : nat) : list string :=
  match s with
  | EmptyString => []
  | String _ t =>
      match skip with
      | S k => match_all alternatives t k
      | O =>
          match first_alternative alternatives s with
          | Some n => String.substring 0 n s :: match_all alternatives t (Nat.pred n)
          | None => match_all alternatives t O
          end
      end
  end.

(** [Math.min(1.0, x)] *)
Definition cap (x : Q) : Q := if Qle_bool 1 x then 1 else x.

Record compliance : Type := {
  compliance_mentions : Z;
  compliance_score : Q;
  key_compliance_areas : list string
}.

(** [checkCompliance] (lines 791-807), for a domain whose pattern is one
    of the three regular expressions; for a property name inherited from
    [Object.prototype] the argument of [match] is no regular expression
    of the table, and the model gives no result. *)
Definition checkCompliance (content domain : string) : option compliance :=
  match compliancePatterns domain with
  | Some alternatives =>
      let matches := match_all alternatives content O in
      let n := Z.of_nat (List.length matches) in
      Some {| compliance_mentions := n;
              compliance_score := cap (inject_Z n / 10);
              key_compliance_areas := distinct (map toLowerCase matches) |}
  | None => None
  end.

Definition riskPatterns (domain : string) : option (list string) :=
  by_domain
    ["exclusion"; "limitation"; "waiting period"; "pre-existing"; "penalty"]
    ["liability"; "penalty"; "termination"; "breach"; "violation"]
    ["disciplinary"; "termination"; "violation"; "penalty"; "misconduct"]
    domain.

(** [identifyRiskFactors] (lines 809-821). *)
Definition identifyRiskFactors (content domain : string) : completion (list string) :=
  match riskPatterns domain with
  | Some patterns =>
      Normal (filter (fun pattern => includes (toLowerCase content) pattern) patterns)
  | None => Throw "TypeError: patterns.filter is not a function"
  end.

(** [generateRecommendations] (lines 823-833). *)
Definition generateRecommendations : list string :=
  slice0 3
    [ "Regular review and updates recommended to maintain current compliance";
      "Consider implementing additional monitoring mechanisms for ongoing effectiveness";
      "Ensure all stakeholders are properly informed of key provisions and requirements";
      "Establish clear communication channels for questions and clarifications";
      "Document all decisions and rationale for future reference and audit purposes" ].

Record analysis : Type := {
  analysis_domain : string;
  analysis_model : string;
  analysis_timestamp : string;
  key_topics : list string;
  sentiment : string;
  compliance_indicators : compliance;
  risk_factors : list string;
  recommendations : list string
}.

Record metadata : Type := {
  file_name : string;
  file_type : string;
  file_size : Z;
  last_modified : option string;
  word_count : Z;
  character_count : Z;
  estimated_pages : Z;
  language : string;
  content_domain : string;
  metadata_model : string;
  processed_at : string;
  processing_version : string;
  readability_score : Q;
  complexity_score : Q;
  completeness_score : Q
}.

Record document : Type := {
  success : bool;
  document_id : string;
  info_name : string;
  info_type : string;
  info_size : Z;
  info_processed_at : string;
  text_length : Z;
  chunks : Z;
  chunk_data : list Chunker.chunk;
  document_metadata : metadata;
  embeddings_model : string;
  vector_count : Z;
  dimensions : Z;
  domain_analysis : analysis;
  processing_time : Q;
  stats_model : string;
  stats_domain : string
}.

Section Processing.
Variable e : env.

(** [performDomainAnalysis] (lines 746-760).  The properties of the
    object literal are evaluated in order, so for an inherited property
    name [extractKeyTopics] throws before [checkCompliance] is
    reached. *)
Definition performDomainAnalysis (content domain model : string) (w : World)
  : completion analysis * World :=
  let '(stamp, w1) := Date_toISOString e w in
  match extractKeyTopics content domain with
  | Throw m => (Throw m, w1)
  | Normal topics =>
      match checkCompliance content domain, identifyRiskFactors content domain with
      | Some c, Normal risks =>
          (Normal {| analysis_domain := domain;
                     analysis_model := model;
                     analysis_timestamp := stamp;
                     key_topics := topics;
                     sentiment := analyzeSentiment content;
                     compliance_indicators := c;
                     risk_factors := risks;
                     recommendations := generateRecommendations |}, w1)
      | _, Throw m => (Throw m, w1)
      | None, _ => (Throw "TypeError: topics.filter is not a function", w1)
      end
  end.

(** [extractMetadata] (lines 701-730). *)
Definition extractMetadata (file : File) (content domain model : string) (w : World)
  : metadata * World :=
  let wordCount := Z.of_nat (List.length (split_spaces content)) in
  let pageCount := (wordCount + 249) / 250 in
  let '(stamp, w1) := Date_toISOString e w in
  let '(r1, w2) := Math_random e w1 in
  let '(r2, w3) := Math_random e w2 in
  let '(r3, w4) := Math_random e w3 in
  ({| file_name := name file;
      file_type := type file;
      file_size := size file;
      last_modified := if lastModified file =? 0 then None
                       else Some (toISOString e (lastModified file));
      word_count := wordCount;
      character_count := len content;
      estimated_pages := pageCount;
      language := "english";
      content_domain := domain;
      metadata_model := model;
      processed_at := stamp;
      processing_version := "2.0.0";
      readability_score :=
        plus e (literal e (7 # 10)) (times e r1 (literal e (2 # 10)));
      complexity_score :=
        plus e (literal e (6 # 10)) (times e r2 (literal e (3 # 10)));
      completeness_score :=
        plus e (literal e (8 # 10)) (times e r3 (literal e (15 # 100))) |}%Q, w4).

(** [Array.from({ length: 1536 }, () => Math.random() * 2 - 1)] *)
Fixpoint mock_embedding (n : nat) (w : World) : list Q * World :=
  match n with
  | O => ([], w)
  | S k => let '(r, w1) := Math_random e w in
           let '(rest, w2) := mock_embedding k w1 in
           ((r * 2 - 1)%Q :: rest, w2)
  end.

(** [generateEmbeddings] (lines 732-744). *)
Fixpoint generateEmbeddings (chunks : list Chunker.chunk) (w : World)
  : list (list Q) * World :=
  match chunks with
  | [] => ([], w)
  | _ :: rest =>
      let '(embedding, w1) := mock_embedding VectorDB.dimension w in
      let '(embeddings, w2) := generateEmbeddings rest w1 in
      (embedding :: embeddings, w2)
  end.

(** [Math.random().toString(36)]: the digits of a number in base 36. *)
Variable toString36 : Q -> string.

(** [generateDocumentId] (lines 835-837). *)
Definition generateDocumentId (w : World) : string * World :=
  let '(now, w1) := Date_now e w in
  let '(r, w2) := Math_random e w1 in
  ("doc_" ++ Z_to_string now ++ "_" ++ substr (toString36 r) 2 9, w2).

Variable reindent_json : string -> completion string.
Variable extractKeywords : string -> list string.
Variable extractSimpleEntities : string -> Chunker.entities.
Variable const_enforced : bool.

Definition failed (A : Type) (error : string) (w : World) : MultiAI.promise A :=
  MultiAI.Settled (Throw ("Document processing failed: " ++ error)) w.

(** The world in which the chunking loop stands after at most [fuel]
    iterations: every iteration that completes has read the clock once
    (line 618); an iteration that throws does so at the assignment of
    line 602, before it reads the clock. *)
Fixpoint chunking_world (content dom : string) (fuel : nat)
         (st : Chunker.loop_state) : World :=
  if Chunker.startIndex st <? len content then
    match fuel with
    | O => Chunker.world st
    | S fuel' =>
        match Chunker.iteration extractKeywords extractSimpleEntities e
                const_enforced content dom st with
        | Normal st' => chunking_world content dom fuel' st'
        | Throw _ => Chunker.world st
        end
    end
  else Chunker.world st.

(** [processDocument] (lines 408-471); [fuel] bounds the iterations of
    the chunking loop, and the promise is pending while that loop
    runs. *)
Definition processDocument (fuel : nat) (file : File) (domain model : string)
           (w : World) : MultiAI.promise document :=
  let '(startTime, w0) := Date_now e w in
  if negb (existsb (String.eqb (type file)) supportedFormats)
  then failed document ("Error: Unsupported file format: " ++ type file) w0
  else if 50 * 1024 * 1024 <? size file
  then failed document "Error: File size exceeds 50MB limit" w0
  else
    match extractTextContent e reindent_json file w0 with
    | (Throw m, w1) => failed document m w1
    | (Normal textContent, w1) =>
        match Chunker.intelligentChunking extractKeywords extractSimpleEntities e
                const_enforced textContent domain fuel w1 with
        | Chunker.Running _ => MultiAI.Pending
        | Chunker.Thrown m =>
            failed document m
                   (chunking_world textContent domain fuel (Chunker.initial w1))
        | Chunker.Returned chunks w2 =>
            let '(metadata, w3) := extractMetadata file textContent domain model w2 in
            let '(embeddings, w4) := generateEmbeddings chunks w3 in
            match performDomainAnalysis textContent domain model w4 with
            | (Throw m, w5) => failed document m w5
            | (Normal domainAnalysis, w5) =>
                let '(t1, w6) := Date_now e w5 in
                let '(id, w7) := generateDocumentId w6 in
                let '(stamp, w8) := Date_toISOString e w7 in
                MultiAI.Settled (Normal
                  {| success := true;
                     document_id := id;
                     info_name := name file;
                     info_type := type file;
                     info_size := size file;
                     info_processed_at := stamp;
                     text_length := len textContent;
                     chunks := Z.of_nat (List.length chunks);
                     chunk_data := chunks;
                     document_metadata := metadata;
                     embeddings_model := model;
                     vector_count := Z.of_nat (List.length embeddings);
                     dimensions := 1536;
                     domain_analysis := domainAnalysis;
                     processing_time := MultiAI.seconds e (t1 - startTime);
                     stats_model := model;
                     stats_domain := domain |}) w8
            end
        end
    end.

End Processing.

End Processor.

(* ================================================================== *)
(** * The question route: [POST] of [api/ai/process/route.ts]           *)
(* ================================================================== *)

Module Route.
Import JS.

(** The request body after destructuring (lines 666-677); [None] is an
    absent property.  [questions] is [None] as well when the property is
    not an array. *)
Record body : Type := {
  questions : option (list value);
  documents : option (list value);
  domain : option string;
  model : option string;
  temperature : option Q;
  max_tokens : option Z;
  session_id : option string;
  advanced_mode : option bool;
  batch_mode : option bool
}.

(** What the handler answers: the session with status 200, or an error
    with status 400 or 500. *)
Inductive reply : Type :=
| Json (result : MultiAI.session_result)
| BadRequest (error : string)
| ServerError (error details : string).

Definition or_default (A : Type) (x : option A) (d : A) : A :=
  match x with
  | Some a => a
  | None => d
  end.

(** The options passed to [processQuestions] (lines 688-696). *)
Definition options_of (b : body) (session : string) : MultiAI.options :=
  {| MultiAI.domain := or_default (domain b) "insurance";
     MultiAI.model := or_default (model b) "gpt-4-turbo";
     MultiAI.temperature := or_default (temperature b) (1 # 10)%Q;
     MultiAI.max_tokens := or_default (max_tokens b) 2000;
     MultiAI.session_id := session;
     MultiAI.advanced_mode := or_default (advanced_mode b) false;
     MultiAI.batch_mode := or_default (batch_mode b) false |}.

Section Handler.
Variable e : env.
Variable templates :
  string -> string -> list value -> string -> string -> World ->
  completion MultiAI.response * World.

(** [POST] (lines 664-707); [sched] is the order in which the timers of
    a batch fire. *)
Definition POST (b : body) (sched : list nat) (w : World) : MultiAI.promise reply :=
  match questions b with
  | None | Some [] =>
      MultiAI.Settled (Normal (BadRequest "Questions array is required")) w
  | Some qs =>
      match session_id b with
      | None | Some EmptyString =>
          MultiAI.Settled (Normal (BadRequest "Session ID is required")) w
      | Some session =>
          match MultiAI.processQuestions e templates qs (or_default (documents b) [])
                  (options_of b session) sched w with
          | MultiAI.Settled (Normal result) w' => MultiAI.Settled (Normal (Json result)) w'
          | MultiAI.Settled (Throw m) w' =>
              MultiAI.Settled
                (Normal (ServerError "Failed to process questions with AI models" m)) w'
          | MultiAI.Pending => MultiAI.Pending
          end
      end
  end.

End Handler.

End Route.

(* ================================================================== *)
(** * Vocabulary of the further properties                              *)
(* ================================================================== *)

Module Vocabulary.
Import JS.

(** ** The chunker *)

(** The first span starts at [start] and every later one starts
    [overlap] before the end of its predecessor. *)
Fixpoint linked (start : Z) (spans : list (Z * Z)) : Prop :=
  match spans with
  | [] => True
  | (s, e) :: rest => s = start /\ linked (e - Chunker.overlap) rest
  end.

(** Where the window after the spans starts. *)
Definition next_start (start : Z) (spans : list (Z * Z)) : Z :=
  fold_left (fun _ span => snd span - Chunker.overlap) spans start.

(** The ordinals of the chunks count from [first]; the id and the
    domain of every chunk are those of its ordinal and of the call. *)
Fixpoint numbered (dom : string) (first : nat) (cs : list Chunker.chunk) : Prop :=
  match cs with
  | [] => True
  | c :: rest =>
      Chunker.chunk_index (Chunker.metadata c) = first
      /\ Chunker.id c = "chunk_" ++ nat_to_string first
      /\ Chunker.domain (Chunker.metadata c) = dom
      /\ numbered dom (S first) rest
  end.

(** The bounds of one chunk of the text [content]. *)
Definition within (content : string) (c : Chunker.chunk) : Prop :=
  - Chunker.overlap <= Chunker.start_index c
  /\ Chunker.start_index c < Chunker.end_index c
  /\ Chunker.end_index c <= len content
  /\ Chunker.end_index c - Chunker.start_index c <= Chunker.chunkSize
  /\ Chunker.length c = Chunker.end_index c - Z.max 0 (Chunker.start_index c)
  /\ len (Chunker.text c) <= Chunker.length c
  /\ (Chunker.end_index c < len content ->
      702 <= Chunker.end_index c - Chunker.start_index c).

(** A chunk ends where its window ends, or just after a full stop or a
    line feed that lies more than 700 characters into the window. *)
Definition ends_well (content : string) (c : Chunker.chunk) : Prop :=
  Chunker.end_index c
  = Z.min (Chunker.start_index c + Chunker.chunkSize) (len content)
  \/ (702 <= Chunker.end_index c - Chunker.start_index c
      /\ (String.get (Z.to_nat (Chunker.end_index c - 1)) content = Some "."%char
          \/ String.get (Z.to_nat (Chunker.end_index c - 1)) content = Some "010"%char)).

(** ** The environment and the database *)

(** What the properties use of the rounding to the nearest binary64
    number: it is monotone; it leaves a binary64 number (the rounding of
    anything) and 0 as they are; and between 1 and 8 its relative error
    is at most [2^-53]. *)
Definition rounds_to_nearest (e : env) : Prop :=
  (forall x y, (x <= y)%Q -> (round e x <= round e y)%Q)
  /\ (forall x, (round e (round e x) == round e x)%Q)
  /\ (round e 0 == 0)%Q
  /\ (forall x, (1 <= x)%Q -> (x <= 8)%Q ->
                (x - x * (1 # 9007199254740992) <= round e x)%Q
                /\ (round e x <= x + x * (1 # 9007199254740992))%Q).

(** The contract of [Math.random] in binary64: a number in [0, 1), that
    is, at most [1 - 2^-53]. *)
Definition unit_doubles (e : env) : Prop :=
  forall n, (0 <= random e n)%Q
            /\ (random e n <= 1 - (1 # 9007199254740992))%Q.

(** The contract of [Math.random]: a number in [0, 1). *)
Definition unit_interval (e : env) : Prop :=
  forall n, (0 <= random e n)%Q /\ (random e n < 1)%Q.

(** The results that the search route hands to the language model and
    answers with: the stored entries with their scores, sorted, cut to
    [topK] and then filtered. *)
Definition found (e : env) (k : Z) (fs : VectorDB.object) (st : VectorDB.state)
  : list VectorDB.scored :=
  filter (VectorDB.satisfies fs)
         (slice0 k (sort_desc VectorDB.score (VectorDB.scored_store e st))).

(** The invariant of [Map<string, vector>] as the database uses it: the
    keys are distinct and every vector is stored under its own id. *)
Definition well_formed (m : VectorDB.Map) : Prop :=
  NoDup (VectorDB.keys m)
  /\ Forall (fun kv => VectorDB.id (snd kv) = fst kv) m.

(** The last vector of a batch that carries the id [k]. *)
Definition last_with_id (k : string) (vectors : list VectorDB.vector)
  : option VectorDB.vector :=
  find (fun v => String.eqb (VectorDB.id v) k) (rev vectors).

(** [r] is the record of the call of [processIndividualQuestion] on the
    question [q] with the index [i]. *)
Definition produced_at (e : env)
           (templates : string -> string -> list value -> string -> string -> World ->
                        completion MultiAI.response * World)
           (documents : list value) (o : MultiAI.options)
           (i : nat) (q : value) (r : MultiAI.answer_record) : Prop :=
  exists startTime w,
    r = fst (MultiAI.resume_question e templates q documents o i
               (MultiAI.getProviderFromModel (MultiAI.model o))
               (MultiAI.getModelConfig (MultiAI.model o)) startTime w).

(** A slot of [Promise.all] is empty or holds the record of the call
    with the index and the question of its task. *)
Definition slot_at (e : env)
           (templates : string -> string -> list value -> string -> string -> World ->
                        completion MultiAI.response * World)
           (documents : list value) (o : MultiAI.options)
           (t : MultiAI.task) (s : option MultiAI.answer_record) : Prop :=
  match s with
  | Some r => produced_at e templates documents o
                          (MultiAI.task_index t) (MultiAI.task_question t) r
  | None => True
  end.

(** The sum of the token counts of some records. *)
Definition tokens_of (rs : list MultiAI.answer_record) : Z :=
  fold_right Z.add 0 (map MultiAI.tokens_used rs).

End Vocabulary.

(* ================================================================== *)
(** * Concrete inputs used by the examples                              *)
(* ================================================================== *)

Module Inputs.
Import JS.

Definition no_keywords : string -> list string := fun _ => [].
Definition no_entities : string -> Chunker.entities :=
  fun _ => Chunker.Build_entities [] [] [] [].

Definition midnight : env :=
  {| dateNow := fun _ => 1704067200000;
     toISOString := fun _ => "2024-01-01T00:00:00.000Z";
     random := fun _ => 0%Q;
     round := fun x => x |}.

Definition fresh : World := {| reads := 0; draws := 0 |}.

(** The first request served by a new process reads the generator 1536
    times for the query embedding, 5 * 1536 times for the sample
    vectors, and then once per stored vector for the scores.  This
    generator gives the second stored vector the highest score. *)
Definition favour_second : env :=
  {| dateNow := fun _ => 1704067200000;
     toISOString := fun _ => "2024-01-01T00:00:00.000Z";
     random := fun n => if (n =? 6 * 1536 + 1)%N then (9 # 10)%Q else (1 # 10)%Q;
     round := fun x => x |}.

Definition cold : VectorDB.state :=
  {| VectorDB.instance := None; VectorDB.world := fresh |}.

Definition payment_terms_only : VectorDB.object :=
  [("type", JStr "payment_terms")].

(** A vector of dimension 1. *)
Definition short_vector : VectorDB.vector :=
  {| VectorDB.id := "chunk_1";
     VectorDB.values := [(1 # 2)%Q];
     VectorDB.metadata := [("type", JStr "payment_terms")] |}.

Definition sample_store : VectorDB.Map :=
  fst (VectorDB.initializeWithSampleData midnight fresh).

(** A remote index holding three chunks, and an embedding model that
    answers with a fixed vector. *)
Definition grace_chunk : Pinecone.VectorMetadata :=
  {| Pinecone.documentId := "doc_1"; Pinecone.chunkIndex := 0;
     Pinecone.text := Some "Grace Period of thirty days";
     Pinecone.section := "premium"; Pinecone.domain := "insurance";
     Pinecone.confidence := 0.9%float; Pinecone.timestamp := "2024-01-01T00:00:00.000Z";
     Pinecone.keywords := Some ["grace"; "period"]; Pinecone.entityType := "clause" |}.

Definition waiting_chunk : Pinecone.VectorMetadata :=
  {| Pinecone.documentId := "doc_1"; Pinecone.chunkIndex := 1;
     Pinecone.text := Some "Waiting period of two years";
     Pinecone.section := "terms"; Pinecone.domain := "insurance";
     Pinecone.confidence := 0.9%float; Pinecone.timestamp := "2024-01-01T00:00:00.000Z";
     Pinecone.keywords := Some ["MATERNITY"]; Pinecone.entityType := "clause" |}.

Definition remote_matches : list Pinecone.scored_match :=
  [ {| Pinecone.match_id := "a"; Pinecone.match_score := Some 0.8%float;
       Pinecone.match_metadata := Some waiting_chunk |};
    {| Pinecone.match_id := "b"; Pinecone.match_score := Some 0.6%float;
       Pinecone.match_metadata := Some grace_chunk |};
    {| Pinecone.match_id := "c"; Pinecone.match_score := None;
       Pinecone.match_metadata := None |} ].

Definition fixed_embedding : string -> completion (list float) :=
  fun _ => Normal [0.5%float; 0.25%float].

Definition remote_index : Pinecone.searchRequest -> completion (option (list Pinecone.scored_match)) :=
  fun request => Normal (Some (JS.slice0 (Pinecone.request_topK request) remote_matches)).

Definition default_options : Pinecone.options :=
  {| Pinecone.semanticWeight := None; Pinecone.keywordWeight := None;
     Pinecone.topK := Some 2 |}.

(** A batch of three questions, the second of which is a number (on it
    [question.toLowerCase()] throws), and a stand-in for the templates. *)
Definition three_questions : list value :=
  [ JStr "What is the grace period?"; JNum 42; JStr "Is maternity covered?" ].

Definition canned : string -> string -> list value -> string -> string -> World ->
                    completion MultiAI.response * World :=
  fun question _ _ _ _ w =>
    (Normal {| MultiAI.r_answer := "The grace period is 30 days.";
               MultiAI.r_confidence := (9 # 10)%Q;
               MultiAI.r_sources := ["Policy Document"];
               MultiAI.r_reasoning := "Derived from the policy terms.";
               MultiAI.r_relevant_clauses := [];
               MultiAI.r_decision_rationale := "";
               MultiAI.r_compliance_status := "compliant";
               MultiAI.r_risk_assessment := "";
               MultiAI.r_recommendations := [];
               MultiAI.r_key_insights := [];
               MultiAI.r_action_items := [] |}, w).

Definition batch_options : MultiAI.options :=
  {| MultiAI.domain := "insurance"; MultiAI.model := "gpt-4";
     MultiAI.temperature := (1 # 10)%Q; MultiAI.max_tokens := 2000;
     MultiAI.session_id := "s1"; MultiAI.advanced_mode := false;
     MultiAI.batch_mode := true |}.

(** The third timer fires first, then the first, then the second. *)
Definition last_first : list nat := [2; 0; 1]%nat.

End Inputs.

(* ================================================================== *)
(** * Concrete inputs of the further examples                           *)
(* ================================================================== *)

Module MoreInputs.
Import JS Inputs.


(** The configuration of [gpt-4] in [AI_PROVIDERS]. *)
Definition gpt4 : MultiAI.modelConfig :=
  {| MultiAI.endpoint := MultiAI.openai_url;
     MultiAI.maxTokens := 8192;
     MultiAI.costPer1kTokens := (6 # 100)%Q |}.


Definition plain_request : Route.body :=
  {| Route.questions := Some three_questions;
     Route.documents := None;
     Route.domain := None;
     Route.model := None;
     Route.temperature := None;
     Route.max_tokens := None;
     Route.session_id := Some "s1";
     Route.advanced_mode := None;
     Route.batch_mode := None |}.

(** An empty text file and a PDF. *)
Definition empty_note : Processor.File :=
  {| Processor.name := "note.txt"; Processor.type := "text/plain";
     Processor.size := 0; Processor.lastModified := 0;
     Processor.file_text := "" |}.


(** Stand-ins for [Number.prototype.toString(36)] and for the JSON
    round trip. *)
Definition digits36 : Q -> string := fun _ => "0.4fzyo82mvyr".

Definition no_json : string -> completion string :=
  fun _ => Throw "SyntaxError: Unexpected end of JSON input".

(** The one chunk of the first iteration on the text [a]. *)
Definition one_chunk : list Chunker.chunk :=
  Chunker.emitted
    (Chunker.intelligentChunking no_keywords no_entities midnight false
                                 "a" "insurance" 1 fresh).

(** The options of the batch with a model that no provider lists. *)
Definition unlisted_model : MultiAI.options :=
  {| MultiAI.domain := "insurance"; MultiAI.model := "gpt-5";
     MultiAI.temperature := (1 # 10)%Q; MultiAI.max_tokens := 2000;
     MultiAI.session_id := "s1"; MultiAI.advanced_mode := false;
     MultiAI.batch_mode := true |}.

End MoreInputs.

(* ================================================================== *)
(** * Properties of the built-ins                                       *)
(* ================================================================== *)

Module JSFacts.
Import JS.

(** ** [sort] with a descending comparator *)

Section SortDescFacts.
Variable A : Type.
Variable key : A -> Q.

Lemma insert_desc_perm (x : A) (l : list A) :
  Permutation (x :: l) (insert_desc key x l).
Proof.
  induction l as [| y l IH]; simpl; [reflexivity |].
  destruct (Qle_bool (key y) (key x)); [reflexivity |].
  rewrite perm_swap. now apply perm_skip.
Qed.

Lemma sort_desc_perm (l : list A) : Permutation l (sort_desc key l).
Proof.
  induction l as [| x l IH]; simpl; [constructor |].
  rewrite <- insert_desc_perm. now apply perm_skip.
Qed.

Lemma sort_desc_length (l : list A) :
  List.length (sort_desc key l) = List.length l.
Proof. symmetry. apply Permutation_length, sort_desc_perm. Qed.

Local Abbreviation descending := (descending key).

Lemma insert_desc_descending (x : A) (l : list A) :
  descending l -> descending (insert_desc key x l).
Proof.
  unfold JS.descending. induction 1 as [| y l Hl IH Hy]; simpl.
  - repeat constructor.
  - destruct (Qle_bool (key y) (key x)) eqn:Hle.
    + apply Qle_bool_iff in Hle. constructor.
      * now constructor.
      * constructor; [exact Hle |].
        eapply Forall_impl; [| exact Hy].
        intros z Hz. simpl in Hz. now apply Qle_trans with (key y).
    + constructor; [exact IH |].
      assert (Hlt : (key x < key y)%Q).
      { apply Qnot_le_lt. intros H. apply Qle_bool_iff in H. congruence. }
      eapply Permutation_Forall; [apply insert_desc_perm |].
      constructor; [now apply Qlt_le_weak | exact Hy].
Qed.

Lemma sort_desc_descending (l : list A) : descending (sort_desc key l).
Proof.
  induction l as [| x l IH]; simpl.
  - constructor.
  - now apply insert_desc_descending.
Qed.

(** Stability: the elements of any one key keep their input order. *)
Lemma insert_desc_stable (q : Q) (x : A) (l : list A) :
  filter (fun a => Qeq_bool (key a) q) (insert_desc key x l)
  = filter (fun a => Qeq_bool (key a) q) (x :: l).
Proof.
  induction l as [| y l IH]; [reflexivity |].
  simpl insert_desc.
  destruct (Qle_bool (key y) (key x)) eqn:Hle; [reflexivity |].
  change (filter (fun a => Qeq_bool (key a) q) (y :: insert_desc key x l))
    with (if Qeq_bool (key y) q
          then y :: filter (fun a => Qeq_bool (key a) q) (insert_desc key x l)
          else filter (fun a => Qeq_bool (key a) q) (insert_desc key x l)).
  rewrite IH. simpl.
  destruct (Qeq_bool (key x) q) eqn:Hx, (Qeq_bool (key y) q) eqn:Hy;
    try reflexivity.
  exfalso. apply Qeq_bool_iff in Hx, Hy.
  assert (H : Qle_bool (key y) (key x) = true).
  { apply Qle_bool_iff. rewrite Hx, Hy. apply Qle_refl. }
  congruence.
Qed.

Lemma sort_desc_stable (q : Q) (l : list A) :
  filter (fun a => Qeq_bool (key a) q) (sort_desc key l)
  = filter (fun a => Qeq_bool (key a) q) l.
Proof.
  induction l as [| x l IH]; [reflexivity |].
  simpl sort_desc. rewrite insert_desc_stable. simpl. now rewrite IH.
Qed.

Lemma descending_firstn (n : nat) (l : list A) :
  descending l -> descending (firstn n l).
Proof.
  unfold JS.descending. intros H. revert n.
  induction H as [| x l Hl IH Hx]; intros [| n]; simpl; try constructor.
  - apply IH.
  - rewrite Forall_forall in *. intros y Hy. apply Hx.
    rewrite <- (firstn_skipn n l). apply in_or_app. now left.
Qed.

Lemma descending_slice0 (k : Z) (l : list A) :
  descending l -> descending (slice0 k l).
Proof. unfold slice0. apply descending_firstn. Qed.

Lemma descending_filter (p : A -> bool) (l : list A) :
  descending l -> descending (filter p l).
Proof.
  unfold JS.descending. induction 1 as [| x l Hl IH Hx]; simpl.
  - constructor.
  - destruct (p x); [| exact IH]. constructor; [exact IH |].
    rewrite Forall_forall in *. intros y Hy.
    apply filter_In in Hy. now apply Hx.
Qed.
End SortDescFacts.

(** ** [slice] *)

Lemma slice0_nonneg (A : Type) (k : Z) (l : list A) :
  0 <= k -> slice0 k l = firstn (Z.to_nat k) l.
Proof.
  intros Hk. unfold slice0.
  destruct (k <? 0) eqn:H; [apply Z.ltb_lt in H; lia |].
  destruct (Z.le_gt_cases k (Z.of_nat (List.length l))).
  - rewrite Z.min_l by lia. reflexivity.
  - rewrite Z.min_r by lia. rewrite Nat2Z.id.
    rewrite firstn_all. symmetry. apply firstn_all2. lia.
Qed.

Lemma slice0_length (A : Type) (k : Z) (l : list A) :
  0 <= k -> List.length (slice0 k l) = Nat.min (Z.to_nat k) (List.length l).
Proof. intros Hk. rewrite slice0_nonneg by exact Hk. apply length_firstn. Qed.

Lemma filter_firstn_length (A : Type) (p : A -> bool) (n : nat) (l : list A) :
  (List.length (filter p (firstn n l))
   <= Nat.min n (List.length (filter p l)))%nat.
Proof.
  revert n. induction l as [| x l IH]; intros [| n];
    cbn [firstn filter List.length]; try lia.
  specialize (IH n). destruct (p x); cbn [List.length]; lia.
Qed.

(** ** [includes] *)

Lemma startsWith_spec (s p : string) :
  startsWith s p = true <-> exists post, s = p ++ post.
Proof.
  revert s. induction p as [| a p IH]; intros s; simpl.
  - split; [intros _; now exists s | reflexivity].
  - destruct s as [| b s].
    + split; [discriminate | intros [post H]; discriminate].
    + rewrite andb_true_iff, IH. split.
      * intros [Hab [post ->]]. apply Ascii.eqb_eq in Hab. subst. now exists post.
      * intros [post H]. injection H as -> ->. split; [apply Ascii.eqb_refl | now exists post].
Qed.

Lemma includes_spec (s t : string) :
  includes s t = true <-> exists pre post, s = pre ++ t ++ post.
Proof.
  induction s as [| c s IH].
  - simpl. rewrite orb_false_r, startsWith_spec. split.
    + intros [post H]. now exists "", post.
    + intros (pre & post & H). destruct pre; [now exists post | discriminate].
  - simpl. rewrite orb_true_iff, startsWith_spec, IH. split.
    + intros [[post H] | (pre & post & H)].
      * now exists "", post.
      * exists (String c pre), post. simpl. now rewrite H.
    + intros (pre & post & H). destruct pre as [| d pre]; simpl in H.
      * left. now exists post.
      * right. injection H as _ H. now exists pre, post.
Qed.

End JSFacts.

(* ================================================================== *)
(** * Properties of the chunker                                         *)
(* ================================================================== *)

Module ChunkerFacts.
Import JS Chunker.

Lemma len_nonneg (s : string) : 0 <= len s.
Proof. unfold len. lia. Qed.

Lemma len_pos (s : string) : s <> "" -> 0 < len s.
Proof. destruct s; [congruence | unfold len; simpl; lia]. Qed.

Lemma native_substring_length (s : string) :
  forall n m, (String.length (String.substring n m s) <= m)%nat.
Proof.
  induction s as [| c s IH]; intros n m.
  - destruct n, m; simpl; lia.
  - destruct n as [| n]; simpl.
    + destruct m as [| m]; simpl; [lia |].
      specialize (IH 0%nat m). lia.
    + apply IH.
Qed.

Lemma substring_len (s : string) (a b : Z) :
  len (substring s a b)
  <= Z.max (clamp (len s) a) (clamp (len s) b)
     - Z.min (clamp (len s) a) (clamp (len s) b).
Proof.
  unfold substring, len at 1.
  pose proof (native_substring_length s
    (Z.to_nat (Z.min (clamp (len s) a) (clamp (len s) b)))
    (Z.to_nat (Z.max (clamp (len s) a) (clamp (len s) b)
               - Z.min (clamp (len s) a) (clamp (len s) b)))) as H.
  lia.
Qed.

Lemma lastIndexOf_from_bound (c : ascii) (s : string) :
  forall i acc, acc < i -> lastIndexOf_from c s i acc < i + len s.
Proof.
  induction s as [| d s IH]; intros i acc Hacc; simpl.
  - unfold len; simpl. lia.
  - replace (i + len (String d s)) with ((i + 1) + len s)
      by (unfold len; simpl String.length; lia).
    apply IH. destruct (Ascii.eqb d c); lia.
Qed.

Lemma lastIndexOf_bound (s : string) (c : ascii) : lastIndexOf s c < len s.
Proof.
  unfold lastIndexOf.
  pose proof (@lastIndexOf_from_bound c s 0 (-1)). lia.
Qed.

Section Facts.
Variable extractKeywords : string -> list string.
Variable extractSimpleEntities : string -> entities.
Variable e : env.
Variable const_enforced : bool.
Variable content : string.
Variable dom : string.

Local Abbreviation iteration :=
  (iteration extractKeywords extractSimpleEntities e const_enforced content dom).
Local Abbreviation loop :=
  (loop extractKeywords extractSimpleEntities e const_enforced content dom).
Local Abbreviation intelligentChunking :=
  (intelligentChunking extractKeywords extractSimpleEntities e const_enforced
                       content dom).

(** The start of the next window stays below the end of the text:
    the condition of the [while] loop holds again. *)
Lemma iteration_stays_inside (st st' : loop_state) :
  startIndex st < len content ->
  iteration st = Normal st' ->
  startIndex st' < len content.
Proof.
  intros Hlt. unfold Chunker.iteration.
  set (endIndex := Z.min (startIndex st + chunkSize) (len content)).
  set (chunkText := substring content (startIndex st) endIndex).
  pose proof (lastIndexOf_bound chunkText "."%char) as Hp.
  pose proof (lastIndexOf_bound chunkText "010"%char) as Hn.
  pose proof (substring_len content (startIndex st) endIndex) as Hs.
  fold chunkText in Hs.
  pose proof (len_nonneg content) as Hc.
  unfold chunkSize, overlap, minBoundary in *.
  destruct (endIndex <? len content) eqn:Hend.
  - destruct (Z.max _ _ >? 700) eqn:Hb.
    + destruct const_enforced; [discriminate |].
      destruct (Date_toISOString e (world st)) as [now w].
      intros H; inversion H; subst; clear H; simpl.
      unfold clamp in Hs. subst endIndex. lia.
    + destruct (Date_toISOString e (world st)) as [now w].
      intros H; inversion H; subst; clear H; simpl.
      subst endIndex. lia.
  - destruct (Date_toISOString e (world st)) as [now w].
    intros H; inversion H; subst; clear H; simpl.
    subst endIndex. unfold overlap. lia.
Qed.

Lemma loop_never_returns (fuel : nat) :
  forall st, startIndex st < len content ->
             forall cs w, loop fuel st <> Returned cs w.
Proof.
  induction fuel as [| fuel IH]; intros st Hlt cs w; simpl.
  - apply Z.ltb_lt in Hlt. rewrite Hlt. discriminate.
  - pose proof Hlt as Hlt'. apply Z.ltb_lt in Hlt'. rewrite Hlt'.
    destruct (iteration st) as [st' | m] eqn:Hit; [| discriminate].
    apply IH. eapply iteration_stays_inside; eauto.
Qed.

(** Once the window reaches the end of the text, the iteration emits
    the chunk from the current start to the end and sets the next
    start to [length - 200]. *)
Lemma iteration_at_end (st : loop_state) :
  len content <= startIndex st + chunkSize ->
  exists c w,
    iteration st = Normal {| startIndex := len content - overlap;
                             chunkIndex := S (chunkIndex st);
                             chunks := chunks st ++ [c];
                             world := w |}
    /\ start_index c = startIndex st /\ end_index c = len content.
Proof.
  intros Hend. unfold Chunker.iteration.
  replace (Z.min (startIndex st + chunkSize) (len content)) with (len content) by lia.
  rewrite Z.ltb_irrefl.
  destruct (Date_toISOString e (world st)) as [now w].
  eexists _, w. split; [reflexivity | split; reflexivity].
Qed.

(** On a text shorter than a window, the state after [n] iterations. *)
Lemma short_text_run (n : nat) :
  0 < len content < chunkSize ->
  forall w, exists st,
    loop n (initial w) = Running st
    /\ spans (chunks st)
       = match n with
         | O => []
         | S k => (0, len content) :: repeat (len content - overlap, len content) k
         end
    /\ startIndex st = match n with O => 0 | S _ => len content - overlap end.
Proof.
  intros Hlen w.
  assert (Hgen : forall n st,
             startIndex st < len content ->
             len content <= startIndex st + chunkSize ->
             exists st',
               loop n st = Running st'
               /\ spans (chunks st')
                  = (spans (chunks st)
                     ++ match n with
                        | O => []
                        | S k => (startIndex st, len content)
                                 :: repeat (len content - overlap, len content) k
                        end)%list
               /\ startIndex st'
                  = match n with O => startIndex st | S _ => len content - overlap end).
  { clear n. induction n as [| n IH]; intros st Hlt Hwin; simpl.
    - apply Z.ltb_lt in Hlt. rewrite Hlt. exists st.
      rewrite app_nil_r. auto.
    - pose proof Hlt as Hlt'. apply Z.ltb_lt in Hlt'. rewrite Hlt'.
      destruct (iteration_at_end st Hwin) as (c & w' & Hit & Hs & He).
      rewrite Hit.
      destruct (IH {| startIndex := len content - overlap;
                      chunkIndex := S (chunkIndex st);
                      chunks := chunks st ++ [c];
                      world := w' |}) as (st' & Hrun & Hsp & Hst).
      + simpl. unfold overlap. lia.
      + simpl. unfold overlap, chunkSize in *. lia.
      + exists st'. split; [exact Hrun |]. simpl in Hsp, Hst. split.
        * rewrite Hsp. unfold spans at 1. rewrite map_app. simpl.
          rewrite Hs, He. rewrite <- app_assoc. simpl. f_equal. f_equal.
          destruct n; reflexivity.
        * destruct n; [exact Hst | exact Hst]. }
  destruct (Hgen n (initial w)) as (st' & Hrun & Hsp & Hst).
  - simpl. lia.
  - simpl. lia.
  - exists st'. split; [exact Hrun |]. simpl in Hsp, Hst.
    split; [destruct n; exact Hsp | destruct n; exact Hst].
Qed.

(** C10 (refuted on the code).  For every non-empty text, no number of
    iterations makes [intelligentChunking] return: the condition of
    the loop holds after every iteration.  A window that starts at
    [length - 200] is followed by a window with the same start, so the
    start does not strictly advance. *)
Theorem intelligentChunking_never_returns :
  content <> "" ->
  (forall fuel w cs w', intelligentChunking fuel w <> Returned cs w')
  /\ (forall st, startIndex st = len content - overlap ->
                 exists st', iteration st = Normal st'
                             /\ startIndex st' = startIndex st).
Proof.
  intros Hne. pose proof (len_pos Hne) as Hpos. split.
  - intros fuel w cs w'. apply loop_never_returns. simpl. exact Hpos.
  - intros st Hst.
    destruct (iteration_at_end st) as (c & w & Hit & _ & _).
    + unfold overlap, chunkSize in *. lia.
    + eexists. split; [exact Hit |]. simpl. lia.
Qed.

(** C1 (refuted on the code).  On a non-empty text shorter than a
    window the loop is still running after any number [n] of
    iterations, and has emitted [n] chunks by then: it never returns a
    list of exactly one chunk. *)
Theorem short_text_keeps_emitting :
  0 < len content < chunkSize ->
  forall n w, exists st,
    intelligentChunking n w = Running st
    /\ List.length (chunks st) = n.
Proof.
  intros Hlen n w.
  destruct (short_text_run n Hlen w) as (st & Hrun & Hsp & _).
  exists st. split; [exact Hrun |].
  apply (f_equal (@List.length _)) in Hsp.
  unfold spans in Hsp. rewrite length_map in Hsp. rewrite Hsp.
  destruct n; simpl; [reflexivity | now rewrite repeat_length].
Qed.

(** C4 (refuted on the code).  On a non-empty text shorter than a
    window, the spans emitted by [n + 2] iterations are the whole text
    followed by [n + 1] copies of the last 200 positions: every chunk
    after the first lies inside the first one, and its start is
    negative when the text has fewer than 200 characters. *)
Theorem short_text_spans_repeat :
  0 < len content < chunkSize ->
  forall n w, exists st,
    intelligentChunking (S (S n)) w = Running st
    /\ spans (chunks st)
       = (0, len content)
         :: repeat (len content - overlap, len content) (S n).
Proof.
  intros Hlen n w.
  destruct (short_text_run (S (S n)) Hlen w) as (st & Hrun & Hsp & _).
  exists st. split; assumption.
Qed.

End Facts.

Section Determinism.
Variable const_enforced : bool.
Variable content : string.
Variable dom : string.





End Determinism.

(** ** Concrete runs *)

Import Inputs.

Lemma intelligentChunking_never_returns_witness :
  "a" <> ""
  /\ (forall fuel w cs w',
         intelligentChunking no_keywords no_entities midnight true "a" "insurance" fuel w
         <> Returned cs w').
Proof.
  split; [discriminate |].
  apply (@intelligentChunking_never_returns no_keywords no_entities midnight true
           "a" "insurance"); discriminate.
Defined.

Lemma short_text_keeps_emitting_witness :
  exists st,
    intelligentChunking no_keywords no_entities midnight true "a" "insurance" 2 fresh
    = Running st
    /\ List.length (chunks st) = 2%nat.
Proof.
  apply (@short_text_keeps_emitting no_keywords no_entities midnight true
           "a" "insurance"); vm_compute; split; reflexivity.
Defined.

Lemma short_text_spans_repeat_witness :
  exists st,
    intelligentChunking no_keywords no_entities midnight true "a" "insurance" 3 fresh
    = Running st
    /\ spans (chunks st) = [(0, 1); (-199, 1); (-199, 1)].
Proof.
  apply (@short_text_spans_repeat no_keywords no_entities midnight true
           "a" "insurance"); vm_compute; split; reflexivity.
Defined.

End ChunkerFacts.

(* ================================================================== *)
(** * Properties of the vector database                                 *)
(* ================================================================== *)

Module VectorDBFacts.
Import JS JSFacts VectorDB.

Lemma Map_get_set_same (k : string) (v : vector) (m : Map) :
  Map_get k (Map_set k v m) = Some v.
Proof.
  induction m as [| [k' v'] m IH]; simpl.
  - now rewrite String.eqb_refl.
  - destruct (String.eqb k' k) eqn:H; simpl.
    + now rewrite String.eqb_refl.
    + now rewrite H.
Qed.

Lemma Map_get_set_other (k k0 : string) (v : vector) (m : Map) :
  k0 <> k -> Map_get k0 (Map_set k v m) = Map_get k0 m.
Proof.
  intros Hne. induction m as [| [k' v'] m IH]; simpl.
  - apply String.eqb_neq in Hne. rewrite String.eqb_sym in Hne. now rewrite Hne.
  - destruct (String.eqb k' k) eqn:H; simpl.
    + apply String.eqb_eq in H. subst k'.
      assert (Hk : String.eqb k k0 = false) by (apply String.eqb_neq; congruence).
      now rewrite Hk.
    + destruct (String.eqb k' k0); [reflexivity | exact IH].
Qed.

Lemma Map_set_keeps_key (k k0 : string) (v : vector) (m : Map) :
  In k0 (keys m) -> In k0 (keys (Map_set k v m)).
Proof.
  unfold keys. induction m as [| [k' v'] m IH]; simpl; [tauto |].
  intros [H | H]; destruct (String.eqb k' k) eqn:E; simpl.
  - apply String.eqb_eq in E. left. congruence.
  - now left.
  - now right.
  - right. now apply IH.
Qed.

Lemma Map_set_adds_key (k : string) (v : vector) (m : Map) :
  In k (keys (Map_set k v m)).
Proof.
  unfold keys. induction m as [| [k' v'] m IH]; simpl; [now left |].
  destruct (String.eqb k' k); simpl; [now left | now right].
Qed.

(** Setting a key twice is setting it once, to the later value. *)
Lemma Map_set_overwrite (k : string) (v v' : vector) (m : Map) :
  Map_set k v (Map_set k v' m) = Map_set k v m.
Proof.
  induction m as [| [k0 x] m IH]; simpl.
  - now rewrite String.eqb_refl.
  - destruct (String.eqb k0 k) eqn:E; simpl.
    + now rewrite String.eqb_refl.
    + now rewrite E, IH.
Qed.

(** Two writes to different keys commute once one of the keys has its
    place in the map. *)
Lemma Map_set_commute (k k' : string) (v v' : vector) (m : Map) :
  k <> k' -> In k (keys m) ->
  Map_set k v (Map_set k' v' m) = Map_set k' v' (Map_set k v m).
Proof.
  intros Hne. unfold keys.
  induction m as [| [k0 x] m IH]; simpl; [tauto |].
  intros Hin.
  destruct (String.eqb k0 k') eqn:E'; destruct (String.eqb k0 k) eqn:E; simpl.
  - apply String.eqb_eq in E, E'. congruence.
  - assert (Hk : String.eqb k' k = false) by (apply String.eqb_neq; congruence).
    rewrite Hk, E'. apply String.eqb_eq in E'. now subst k0.
  - assert (Hk : String.eqb k k' = false) by (now apply String.eqb_neq).
    rewrite E, Hk. apply String.eqb_eq in E. now subst k0.
  - rewrite E, E'. f_equal. apply IH.
    destruct Hin as [H | H]; [| exact H].
    apply String.eqb_neq in E. congruence.
Qed.

Lemma set_all_keeps_key (k : string) (vs : list vector) :
  forall m, In k (keys m) -> In k (keys (set_all vs m)).
Proof.
  induction vs as [| u vs IH]; intros m H; simpl; [exact H |].
  apply IH. now apply Map_set_keeps_key.
Qed.

Lemma set_all_absorbs (k : string) (v : vector) (vs : list vector) :
  forall m, In k (keys m) -> In k (map id vs) ->
            set_all vs (Map_set k v m) = set_all vs m.
Proof.
  induction vs as [| u vs IH]; intros m Hk Hin; simpl in *; [tauto |].
  destruct (string_dec (id u) k) as [-> | Hne].
  - now rewrite Map_set_overwrite.
  - destruct Hin as [H | H]; [congruence |].
    rewrite <- Map_set_commute by (auto; congruence).
    apply IH; [now apply Map_set_keeps_key | exact H].
Qed.

Lemma set_all_passes (k : string) (v : vector) (vs : list vector) :
  forall m, In k (keys m) -> ~ In k (map id vs) ->
            Map_set k v (set_all vs m) = set_all vs (Map_set k v m).
Proof.
  induction vs as [| u vs IH]; intros m Hk Hin; simpl in *; [reflexivity |].
  rewrite IH by (try apply Map_set_keeps_key; tauto).
  f_equal. apply Map_set_commute; [intros ->; tauto | exact Hk].
Qed.

Lemma set_all_idempotent (vs : list vector) :
  forall m, set_all vs (set_all vs m) = set_all vs m.
Proof.
  induction vs as [| v vs IH]; intros m; simpl; [reflexivity |].
  destruct (in_dec string_dec (id v) (map id vs)) as [Hin | Hout].
  - rewrite set_all_absorbs; [apply IH | | exact Hin].
    apply set_all_keeps_key, Map_set_adds_key.
  - rewrite set_all_passes by (try apply Map_set_adds_key; exact Hout).
    rewrite Map_set_overwrite. apply IH.
Qed.

(** C6.  Upserting a batch a second time leaves the map exactly as the
    first upsert left it; and after upserting one entry, whether its id
    was present or not, the id maps to exactly that entry (its vector
    and its metadata). *)
Theorem upsert_idempotent :
  (forall vectors m, exists m1,
      upsert vectors m = Normal m1 /\ upsert vectors m1 = Normal m1)
  /\ (forall v m, exists m1,
         upsert [v] m = Normal m1
         /\ upsert [v] m1 = Normal m1
         /\ Map_get (id v) m1 = Some v).
Proof.
  split.
  - intros vs m. exists (set_all vs m). split; [reflexivity |].
    unfold upsert. f_equal. apply set_all_idempotent.
  - intros v m. exists (Map_set (id v) v m). repeat split.
    + unfold upsert. simpl. now rewrite Map_set_overwrite.
    + apply Map_get_set_same.
Qed.

(** ** Search *)

Lemma score_all_entries (e : env) (vs : list vector) :
  forall w, map entry (fst (score_all e vs w)) = vs.
Proof.
  induction vs as [| v vs IH]; intros w; simpl; [reflexivity |].
  specialize (IH {| reads := reads w; draws := N.succ (draws w) |}).
  destruct (score_all e vs _) as [rest w2].
  simpl in *. now rewrite IH.
Qed.

Lemma filter_length_perm (A : Type) (p : A -> bool) (l l' : list A) :
  Permutation l l' -> List.length (filter p l) = List.length (filter p l').
Proof.
  induction 1 as [| x l l' _ IH | x y l | l l' l'' _ IH1 _ IH2]; simpl.
  - reflexivity.
  - destruct (p x); simpl; now rewrite IH.
  - destruct (p x), (p y); reflexivity.
  - now rewrite IH1.
Qed.

Lemma satisfies_no_filter (r : scored) : satisfies [] r = true.
Proof. reflexivity. Qed.

Lemma filter_all (A : Type) (p : A -> bool) (l : list A) :
  (forall x, p x = true) -> filter p l = l.
Proof.
  intros H. induction l as [| x l IH]; simpl; [reflexivity |].
  now rewrite H, IH.
Qed.

(** C2 (amended).  The search scores every stored entry, takes the
    [topK] highest scores over all entries, and only then drops the
    entries that fail the filter.  What it returns is in non-increasing
    score order; for [topK >= 0] it has at most
    [min(topK, number of entries satisfying the filter)] elements, and
    exactly [min(topK, number of entries)] when the filter is empty. *)
Theorem search_filters_after_topK (e : env) (k : Z) (fs : object) (st : state) :
  let all := scored_store e st in
  let found := filter (satisfies fs) (slice0 k (sort_desc score all)) in
  fst (search e k fs st) = Normal found
  /\ map entry all = Map_values (stored e st)
  /\ descending score found
  /\ (0 <= k ->
      (List.length found
       <= Nat.min (Z.to_nat k) (List.length (filter (satisfies fs) all)))%nat)
  /\ (0 <= k -> fs = [] ->
      List.length found = Nat.min (Z.to_nat k) (List.length all)).
Proof.
  intros all found. subst all found.
  unfold search, scored_store, stored, query.
  destruct (random_array e dimension (world st)) as [qe w1].
  destruct (getInstance e {| instance := instance st; world := w1 |}) as [db st1] eqn:Hdb.
  pose proof (score_all_entries e (Map_values db) (world st1)) as Hent.
  destruct (score_all e (Map_values db) (world st1)) as [results w2].
  simpl in *. repeat split.
  - exact Hent.
  - apply descending_filter, descending_slice0, sort_desc_descending.
  - intros Hk. rewrite slice0_nonneg by exact Hk.
    rewrite (filter_length_perm (satisfies fs) (sort_desc_perm score results)).
    apply filter_firstn_length.
  - intros Hk ->. rewrite filter_all by apply satisfies_no_filter.
    rewrite slice0_length by exact Hk. now rewrite sort_desc_length.
Qed.

(** C3 (amended).  Nothing checks a dimension: [upsert] fulfils and
    stores the vector it is given, as given, under its id; [query]
    fulfils whatever the query vector is, and its result does not depend
    on the query vector. *)
Theorem no_dimension_check (e : env) (m : Map) :
  (forall v, exists m1,
      upsert [v] m = Normal m1 /\ Map_get (id v) m1 = Some v)
  /\ (forall q k w, exists rs w', query e m q k w = (Normal rs, w'))
  /\ (forall q1 q2 k w, query e m q1 k w = query e m q2 k w).
Proof.
  repeat split.
  - intros v. exists (Map_set (id v) v m). split; [reflexivity |].
    apply Map_get_set_same.
  - intros q k w. unfold query.
    destruct (score_all e (Map_values m) w) as [results w']. eauto.
Qed.

(** ** Concrete runs *)

Import Inputs.

Lemma search_filters_after_topK_witness :
  (0 <= 1)
  /\ (List.length (filter (satisfies payment_terms_only)
                     (slice0 1 (sort_desc score (scored_store favour_second cold))))
      <= Nat.min (Z.to_nat 1)
           (List.length (filter (satisfies payment_terms_only)
                           (scored_store favour_second cold))))%nat.
Proof.
  split; [lia |].
  exact (proj1 (proj2 (proj2 (proj2
           (search_filters_after_topK favour_second 1 payment_terms_only cold))))
           ltac:(lia)).
Defined.

(** C2 (counterexample).  A new process, [topK = 1], filter
    [{ type: "payment_terms" }]: one stored entry satisfies the filter,
    the highest score goes to another entry, and the search returns
    nothing where the claim promises [min(1, 1) = 1] result. *)
Lemma search_misses_matching_entry :
  List.length (filter (satisfies payment_terms_only)
                 (scored_store favour_second cold)) = 1%nat
  /\ fst (search favour_second 1 payment_terms_only cold) = Normal [].
Proof. vm_compute. split; reflexivity. Qed.

(** C3 (counterexample).  The sample store holds five vectors of
    dimension 1536.  Upserting a vector of dimension 1 under the id
    [chunk_1] fulfils and replaces the stored vector of dimension 1536
    by the one of dimension 1; querying with a vector of dimension 1
    fulfils with five results. *)
Lemma short_vector_is_accepted :
  forallb (fun v => (List.length (values v) =? 1536)%nat) (Map_values sample_store) = true
  /\ List.length (values short_vector) = 1%nat
  /\ upsert [short_vector] sample_store
     = Normal (Map_set "chunk_1" short_vector sample_store)
  /\ option_map (fun v => List.length (values v)) (Map_get "chunk_1" sample_store)
     = Some 1536%nat
  /\ option_map (fun v => List.length (values v))
       (Map_get "chunk_1" (Map_set "chunk_1" short_vector sample_store))
     = Some 1%nat
  /\ option_map (@List.length scored)
       (fulfilled (fst (query midnight sample_store [(1 # 2)%Q] 5 fresh)))
     = Some 5%nat.
Proof.
  split; [vm_compute; reflexivity |].
  split; [reflexivity |].
  split; [reflexivity |].
  split; [vm_compute; reflexivity |].
  split; [now rewrite Map_get_set_same |].
  vm_compute; reflexivity.
Qed.

End VectorDBFacts.

(* ================================================================== *)
(** * Properties of the hybrid search                                   *)
(* ================================================================== *)

Module PineconeFacts.
Import JS JSFacts Pinecone.

Lemma identities (rs : list result) :
  forall s, map fst (combine (seq s (List.length rs)) rs) = seq s (List.length rs)
            /\ map snd (combine (seq s (List.length rs)) rs) = rs.
Proof.
  induction rs as [| r rs IH]; intros s; simpl; [split; reflexivity |].
  destruct (IH (S s)) as [H1 H2]. now rewrite H1, H2.
Qed.

(** Membership by identity in the filtered array is the filter
    predicate itself. *)
Lemma includes_object_filter (p : nat * result -> bool) (l : list (nat * result)) :
  NoDup (map fst l) ->
  forall x, In x l -> includes_object (filter p l) x = p x.
Proof.
  unfold includes_object.
  induction l as [| y l IH]; intros Hnd x Hin; [contradiction |].
  simpl in Hnd. inversion Hnd as [| ? ? Hy Hl]; subst.
  destruct Hin as [-> | Hin].
  - simpl. destruct (p x) eqn:Hp; simpl.
    + now rewrite Nat.eqb_refl.
    + apply not_true_is_false. intros H.
      apply existsb_exists in H. destruct H as (z & Hz & Heq).
      apply filter_In in Hz. apply Nat.eqb_eq in Heq.
      apply Hy. rewrite <- Heq. apply in_map. tauto.
  - assert (Hne : Nat.eqb (fst y) (fst x) = false).
    { apply Nat.eqb_neq. intros Heq. apply Hy. rewrite Heq. now apply in_map. }
    simpl. destruct (p y); simpl; [rewrite Hne; simpl |]; now apply IH.
Qed.

Lemma rerank_rescore (sw kw : float) (k : Z) (kws : list string) (rs : list result) :
  rerank sw kw k kws rs
  = slice0 k (sort_by after (map (rescore sw kw kws) rs)).
Proof.
  unfold rerank, with_identity. f_equal. f_equal.
  destruct (identities rs 0) as [Hfst Hsnd].
  transitivity (map (fun x => rescore sw kw kws (snd x))
                    (combine (seq 0 (List.length rs)) rs)).
  - apply map_ext_in. intros x Hx.
    rewrite includes_object_filter with (p := fun y => keyword_hit kws (snd y)).
    + reflexivity.
    + rewrite Hfst. apply seq_NoDup.
    + exact Hx.
  - rewrite <- (map_map snd (rescore sw kw kws)). now rewrite Hsnd.
Qed.

Lemma keyword_in_spec (r : result) (keyword : string) :
  keyword_in r keyword = true
  <-> appears_in keyword (result_text r)
      \/ exists md ks k,
           metadata r = Some md /\ keywords md = Some ks
           /\ In k ks /\ appears_in keyword k.
Proof.
  unfold keyword_in, appears_in.
  rewrite orb_true_iff, includes_spec. split.
  - intros [H | H]; [now left | right].
    destruct (metadata r) as [md |]; [| discriminate].
    destruct (keywords md) as [ks |] eqn:Hks; [| discriminate].
    apply existsb_exists in H. destruct H as (k & Hk & Hin).
    apply includes_spec in Hin. exists md, ks, k. repeat split; assumption.
  - intros [H | (md & ks & k & -> & Hks & Hk & Hin)]; [now left | right].
    rewrite Hks. apply existsb_exists. exists k. split; [exact Hk |].
    now apply includes_spec.
Qed.

Lemma keyword_hit_spec (kws : list string) (r : result) :
  keyword_hit kws r = true <-> overlaps kws r.
Proof.
  unfold keyword_hit, overlaps. rewrite existsb_exists.
  split; intros (keyword & Hin & H); exists keyword; split; try exact Hin;
    now apply keyword_in_spec.
Qed.

(** The two values of the indicator are different numbers. *)
Lemma one_is_not_zero : 1%float <> 0%float.
Proof.
  intros H. apply (f_equal (fun x => PrimFloat.eqb x 0%float)) in H.
  vm_compute in H. discriminate.
Qed.

(** ** The sort *)

Section SortByFacts.
Variable A : Type.
Variable comes_after : A -> A -> bool.

Lemma insert_by_perm (x : A) (l : list A) :
  Permutation (x :: l) (insert_by comes_after x l).
Proof.
  induction l as [| y l IH]; simpl; [apply Permutation_refl |].
  destruct (comes_after x y); [| apply Permutation_refl].
  eapply Permutation_trans; [apply perm_swap | now apply perm_skip].
Qed.

Lemma sort_by_perm (l : list A) : Permutation l (sort_by comes_after l).
Proof.
  induction l as [| x l IH]; simpl; [constructor |].
  eapply Permutation_trans; [apply perm_skip, IH | apply insert_by_perm].
Qed.

Lemma sort_by_length (l : list A) :
  List.length (sort_by comes_after l) = List.length l.
Proof. symmetry. apply Permutation_length, sort_by_perm. Qed.

(** The comparator on the elements of [all]: no two have to come after
    each other, and not having to come after is transitive. *)
Variable all : list A.
Hypothesis asymmetric :
  forall a b, In a all -> In b all ->
              comes_after a b = true -> comes_after b a = false.
Hypothesis transitive :
  forall a b c, In a all -> In b all -> In c all ->
                comes_after a b = false -> comes_after b c = false ->
                comes_after a c = false.

Lemma insert_by_sorted (x : A) (l : list A) :
  In x all -> incl l all ->
  StronglySorted (fun a b => comes_after a b = false) l ->
  StronglySorted (fun a b => comes_after a b = false) (insert_by comes_after x l).
Proof.
  intros Hx Hl Hs. induction Hs as [| y l Hs IH Hy]; simpl.
  - constructor; constructor.
  - assert (Hyin : In y all) by (apply Hl; now left).
    assert (Hlin : incl l all) by (intros z Hz; apply Hl; now right).
    destruct (comes_after x y) eqn:Hxy.
    + constructor; [now apply IH |].
      apply Forall_forall. intros z Hz.
      apply (Permutation_in _ (Permutation_sym (insert_by_perm x l))) in Hz.
      destruct Hz as [<- | Hz]; [now apply asymmetric |].
      rewrite Forall_forall in Hy. now apply Hy.
    + constructor; [now constructor |].
      constructor; [exact Hxy |].
      apply Forall_forall. intros z Hz. rewrite Forall_forall in Hy.
      apply transitive with (b := y); auto.
Qed.

Lemma sort_by_sorted (l : list A) :
  incl l all ->
  StronglySorted (fun a b => comes_after a b = false) (sort_by comes_after l).
Proof.
  induction l as [| x l IH]; intros Hl; simpl; [constructor |].
  apply insert_by_sorted.
  - apply Hl. now left.
  - intros z Hz. apply Hl. right.
    now apply (Permutation_in _ (Permutation_sym (sort_by_perm l))).
  - apply IH. intros z Hz. apply Hl. now right.
Qed.

(** Stability: the elements that are tied with [q] keep their order. *)
Lemma insert_by_stable (q x : A) (l : list A) :
  In q all -> In x all -> incl l all ->
  filter (fun a => negb (comes_after q a) && negb (comes_after a q))
         (insert_by comes_after x l)
  = filter (fun a => negb (comes_after q a) && negb (comes_after a q)) (x :: l).
Proof.
  intros Hq Hx Hl. induction l as [| y l IH]; [reflexivity |].
  assert (Hyin : In y all) by (apply Hl; now left).
  assert (Hlin : incl l all) by (intros z Hz; apply Hl; now right).
  simpl insert_by. destruct (comes_after x y) eqn:Hxy; [| reflexivity].
  cbn [filter]. rewrite (IH Hlin). cbn [filter].
  destruct (comes_after q x) eqn:Hqx, (comes_after x q) eqn:Hxq,
           (comes_after q y) eqn:Hqy, (comes_after y q) eqn:Hyq;
    cbn [negb andb]; try reflexivity.
  exfalso.
  assert (H : comes_after x y = false)
    by (apply transitive with (b := q); assumption).
  congruence.
Qed.

Lemma sort_by_stable (q : A) (l : list A) :
  In q all -> incl l all ->
  filter (fun a => negb (comes_after q a) && negb (comes_after a q))
         (sort_by comes_after l)
  = filter (fun a => negb (comes_after q a) && negb (comes_after a q)) l.
Proof.
  intros Hq. induction l as [| x l IH]; intros Hl; [reflexivity |].
  simpl sort_by. rewrite insert_by_stable.
  - cbn [filter]. rewrite IH; [reflexivity |]. intros z Hz. apply Hl. now right.
  - exact Hq.
  - apply Hl. now left.
  - intros z Hz. apply Hl. right.
    now apply (Permutation_in _ (Permutation_sym (sort_by_perm l))).
Qed.

End SortByFacts.

Lemma consistentb_sound (l : list hybrid) :
  consistentb l = true -> consistent l.
Proof.
  unfold consistentb, consistent. intros H a b Ha Hb.
  rewrite forallb_forall in H. specialize (H a Ha).
  rewrite forallb_forall in H. specialize (H b Hb).
  rewrite !andb_true_iff in H. destruct H as [[H1 H2] H3].
  split; [now apply Bool.eqb_prop |]. split.
  - intros Hab. rewrite Hab in H2. simpl in H2. now apply negb_true_iff.
  - intros c Hc Hab Hbc. rewrite forallb_forall in H3. specialize (H3 c Hc).
    rewrite Hab, Hbc in H3. simpl in H3. now apply negb_true_iff.
Qed.

Section Search.
Variable embedQuery : string -> completion (list float).
Variable index_query : searchRequest -> completion (option (list scored_match)).

(** C7.  When the semantic search answers with the candidates [rs] and
    the comparator is consistent on them (no score is [NaN]),
    [hybridSearch] answers with [slice(0, topK)] of the candidates
    re-scored and sorted, where
    - the score of a candidate is, in the arithmetic of the engine,
      [similarity * semanticWeight + boost], the boost being the keyword
      weight or 0; for a keyword weight [w] with [w * 1 = w] and
      [w * 0 = 0] (every finite non-negative weight) this is
      [similarity * semanticWeight + keywordWeight * indicator];
    - the indicator is 1 exactly when a supplied keyword occurs,
      case-insensitively, as a substring of the candidate's text or of
      one of its stored keywords, and 0 otherwise;
    - the sort is by the comparator [b.hybridScore - a.hybridScore] and
      stable: it permutes the candidates, no result has to come after a
      later one, and candidates that are tied keep their order;
    - for [topK >= 0] the slice is the first [topK] sorted candidates. *)
Theorem hybridSearch_reranks (query : string) (kws : list string) (o : options)
        (rs : list result) :
  let sw := match semanticWeight o with Some x => x | None => 0.7%float end in
  let kw := match keywordWeight o with Some x => x | None => 0.3%float end in
  let k := match topK o with Some k => k | None => 10 end in
  let candidates := map (rescore sw kw kws) rs in
  let ranked := sort_by after candidates in
  semanticSearch embedQuery index_query query (Some (k * 2)) None None = Normal rs ->
  consistent candidates ->
  hybridSearch embedQuery index_query query kws o = Normal (slice0 k ranked)
  /\ (forall r,
         hybridScore (rescore sw kw kws r)
         = PrimFloat.add (PrimFloat.mul (score r) sw)
                         (if keyword_hit kws r then kw else 0%float)
         /\ (PrimFloat.mul kw 1%float = kw -> PrimFloat.mul kw 0%float = 0%float ->
             hybridScore (rescore sw kw kws r)
             = PrimFloat.add (PrimFloat.mul (score r) sw)
                             (PrimFloat.mul kw (keywordOverlapIndicator kws r)))
         /\ (keywordOverlapIndicator kws r = 1%float <-> overlaps kws r)
         /\ (keywordOverlapIndicator kws r = 0%float <-> ~ overlaps kws r))
  /\ Permutation candidates ranked
  /\ StronglySorted (fun a b => after a b = false) ranked
  /\ (forall x, In x candidates -> filter (tied x) ranked = filter (tied x) candidates)
  /\ (0 <= k -> slice0 k ranked = firstn (Z.to_nat k) ranked).
Proof.
  intros sw kw k candidates ranked Hsem Hcons.
  assert (Hasym : forall a b, In a candidates -> In b candidates ->
                              after a b = true -> after b a = false).
  { intros a b Ha Hb. now apply (Hcons a b Ha Hb). }
  assert (Htrans : forall a b c, In a candidates -> In b candidates -> In c candidates ->
                                 after a b = false -> after b c = false ->
                                 after a c = false).
  { intros a b c Ha Hb Hc. now apply (Hcons a b Ha Hb). }
  split.
  { unfold hybridSearch. fold sw kw k. rewrite Hsem. f_equal. apply rerank_rescore. }
  split.
  { intros r. split; [reflexivity |]. split.
    - intros H1 H0. unfold rescore, keywordOverlapIndicator. cbn [hybridScore].
      destruct (keyword_hit kws r); [now rewrite H1 | now rewrite H0].
    - unfold keywordOverlapIndicator.
      pose proof (keyword_hit_spec kws r) as Hspec.
      pose proof one_is_not_zero as Hne.
      destruct (keyword_hit kws r); split; split; intros H;
        try reflexivity; try congruence.
      + now apply Hspec.
      + exfalso. apply H. now apply Hspec.
      + apply Hspec in H. discriminate.
      + intros Ho. apply Hspec in Ho. discriminate. }
  split; [apply sort_by_perm |].
  split; [apply sort_by_sorted with (all := candidates); auto using incl_refl |].
  split.
  { intros x Hx. unfold tied.
    apply sort_by_stable with (all := candidates); auto using incl_refl. }
  apply slice0_nonneg.
Qed.

End Search.

(** ** Concrete runs *)

Import Inputs.

Lemma hybridSearch_reranks_witness :
  semanticSearch fixed_embedding remote_index "grace period" (Some (2 * 2)) None None
  = Normal (map (to_result) remote_matches)
  /\ consistent (map (rescore 0.7%float 0.3%float ["GRACE"])
                     (map to_result remote_matches))
  /\ hybridSearch fixed_embedding remote_index "grace period" ["GRACE"] default_options
     = Normal (slice0 2
         (sort_by after
            (map (rescore 0.7%float 0.3%float ["GRACE"])
                 (map to_result remote_matches))))
  /\ map (fun h => result_id (base h))
       (slice0 2
         (sort_by after
            (map (rescore 0.7%float 0.3%float ["GRACE"])
                 (map to_result remote_matches))))
     = ["b"; "a"].
Proof.
  assert (Hsem : semanticSearch fixed_embedding remote_index "grace period"
                   (Some (2 * 2)) None None
                 = Normal (map to_result remote_matches)) by reflexivity.
  assert (Hcons : consistent (map (rescore 0.7%float 0.3%float ["GRACE"])
                                  (map to_result remote_matches)))
    by (apply consistentb_sound; vm_compute; reflexivity).
  split; [exact Hsem |]. split; [exact Hcons |].
  split; [| vm_compute; reflexivity].
  exact (proj1 (@hybridSearch_reranks fixed_embedding remote_index "grace period"
                  ["GRACE"] default_options (map to_result remote_matches) Hsem Hcons)).
Defined.

(** Rounding can absorb the keyword weight: with the semantic weight
    [0.5] and the keyword weight [2^-54], a candidate of similarity 1
    that has the keyword scores [0.5], as one that has not, and the two
    stay in their given order. *)
Lemma rounding_can_tie :
  map (fun h => (result_id (base h), hybridScore h))
      (rerank 0.5%float 0x1p-54%float 10 ["grace"]
         [ {| result_id := "plain"; score := 1%float;
              result_text := "Waiting period"; metadata := None |};
           {| result_id := "boosted"; score := 1%float;
              result_text := "Grace period"; metadata := None |} ])
  = [("plain", 0.5%float); ("boosted", 0.5%float)].
Proof. vm_compute. reflexivity. Qed.

End PineconeFacts.

(* ================================================================== *)
(** * Properties of the batched question processing                     *)
(* ================================================================== *)

Module MultiAIFacts.
Import JS MultiAI.

Lemma nth_error_store_same (A : Type) (x : A) (l : list (option A)) :
  forall i, (i < List.length l)%nat -> nth_error (store i x l) i = Some (Some x).
Proof.
  induction l as [| y l IH]; intros i Hi; simpl in Hi; [lia |].
  destruct i as [| i]; simpl; [reflexivity |]. apply IH. lia.
Qed.

Lemma nth_error_store_other (A : Type) (x : A) (l : list (option A)) :
  forall i j, i <> j -> nth_error (store i x l) j = nth_error l j.
Proof.
  induction l as [| y l IH]; intros i j Hne; simpl.
  - now destruct i.
  - destruct i as [| i], j as [| j]; simpl; try reflexivity; try congruence.
    apply IH. congruence.
Qed.

Lemma Forall2_store (A B : Type) (R : A -> option B -> Prop)
      (ts : list A) (slots : list (option B)) :
  Forall2 R ts slots ->
  forall i t x, nth_error ts i = Some t -> R t (Some x) ->
                Forall2 R ts (store i x slots).
Proof.
  induction 1 as [| t0 s0 ts slots H0 H IH]; intros i t x Hi Hx; simpl.
  - constructor.
  - destruct i as [| i]; simpl in Hi.
    + injection Hi as ->. now constructor.
    + constructor; [exact H0 |]. now apply IH with (t := t).
Qed.

Lemma all_filled_Forall2 (A B : Type) (R : A -> B -> Prop)
      (ts : list A) (slots : list (option B)) :
  Forall2 (fun t s => match s with Some x => R t x | None => True end) ts slots ->
  (forall i, (i < List.length ts)%nat -> filled slots i) ->
  exists xs, all_filled slots = Some xs /\ Forall2 R ts xs.
Proof.
  induction 1 as [| t s ts slots Hts H IH]; intros Hfill.
  - exists []. split; [reflexivity | constructor].
  - destruct IH as (xs & Hxs & HR).
    { intros i Hi. destruct (Hfill (S i)) as [x Hx]; [simpl; lia |].
      now exists x. }
    destruct (Hfill 0%nat) as [x Hx]; [simpl; lia |].
    simpl in Hx. injection Hx as ->.
    exists (x :: xs). simpl. rewrite Hxs. split; [reflexivity |].
    now constructor.
Qed.

Section Service.
Variable e : env.
Variable templates :
  string -> string -> list value -> string -> string -> World ->
  completion response * World.
Variable documents : list value.
Variable o : options.

Local Abbreviation prov := (getProviderFromModel (model o)).
Local Abbreviation cfg := (getModelConfig (model o)).

Local Abbreviation produced := (produced e templates documents o).
Local Abbreviation always_fails := (always_fails templates documents o).
Local Abbreviation always_succeeds := (always_succeeds templates documents o).
Local Abbreviation slot_ok := (slot_ok e templates documents o).

Lemma produced_question (q : value) (r : answer_record) :
  produced q r -> question r = q.
Proof.
  intros (index & t0 & w & ->). unfold resume_question.
  destruct (generateContextualResponse templates q (domain o) documents prov (model o) w)
    as [[resp | err] w1].
  - destruct (advanced_mode o); reflexivity.
  - reflexivity.
Qed.

Lemma produced_failure (q : value) (r : answer_record) :
  produced q r -> always_fails q ->
  (confidence r == 0)%Q /\ error r = true /\ answer r = fallback_answer prov
  /\ details r = None /\ tokens_used r = 0.
Proof.
  intros (index & t0 & w & ->) Hfail. unfold resume_question.
  destruct (Hfail w) as [err Herr].
  destruct (generateContextualResponse templates q (domain o) documents prov (model o) w)
    as [c w1].
  simpl in Herr. subst c. simpl. repeat split; reflexivity.
Qed.

Lemma produced_success (q : value) (r : answer_record) :
  produced q r -> always_succeeds q ->
  error r = false
  /\ exists resp, details r = Some resp /\ answer r = r_answer resp
                  /\ confidence r = r_confidence resp.
Proof.
  intros (index & t0 & w & ->) Hok. unfold resume_question.
  destruct (Hok w) as [resp Hresp].
  destruct (generateContextualResponse templates q (domain o) documents prov (model o) w)
    as [c w1].
  simpl in Hresp. subst c.
  destruct (advanced_mode o);
    (split; [reflexivity | exists resp; repeat split; reflexivity]).
Qed.

Lemma launch_questions (qs : list value) :
  forall index w, map task_question (fst (launch e qs index w)) = qs.
Proof.
  induction qs as [| q qs IH]; intros index w; simpl; [reflexivity |].
  specialize (IH (S index) {| reads := N.succ (reads w); draws := draws w |}).
  destruct (launch e qs (S index) _) as [ts w2]. simpl in *. now rewrite IH.
Qed.

(** Whatever the order of the timers: every record stored stems from
    the call of its slot, a stored record stays, and every call whose
    timer fires has its record stored. *)
Lemma complete_slots (tasks : list task) (sched : list nat) :
  forall slots w,
    Forall2 slot_ok tasks slots ->
    let slots' := fst (complete e templates documents o prov cfg tasks sched slots w) in
    Forall2 slot_ok tasks slots'
    /\ (forall i, filled slots i -> filled slots' i)
    /\ (forall i, In i sched -> (i < List.length tasks)%nat -> filled slots' i).
Proof.
  induction sched as [| i sched IH]; intros slots w Hok; simpl.
  - repeat split; [exact Hok | auto | contradiction].
  - assert (Hskip :
      let slots' := fst (complete e templates documents o prov cfg tasks sched slots w) in
      filled slots i ->
      Forall2 slot_ok tasks slots'
      /\ (forall j, filled slots j -> filled slots' j)
      /\ (forall j, i = j \/ In j sched -> (j < List.length tasks)%nat -> filled slots' j)).
    { intros slots' Hi. destruct (IH slots w Hok) as (H1 & H2 & H3).
      repeat split; [exact H1 | exact H2 |].
      intros j [<- | Hj] Hlt; [now apply H2 | now apply H3]. }
    destruct (nth_error tasks i) as [t |] eqn:Ht.
    + destruct (nth_error slots i) as [[r |] |] eqn:Hs.
      * apply Hskip. now exists r.
      * destruct (resume_question e templates (task_question t) documents o
                    (task_index t) prov cfg (task_start t) w) as [r w1] eqn:Hr.
        assert (Hlen : (i < List.length slots)%nat).
        { apply nth_error_Some. congruence. }
        destruct (IH (store i r slots) w1) as (H1 & H2 & H3).
        { apply Forall2_store with (t := t); [exact Hok | exact Ht |].
          simpl. exists (task_index t), (task_start t), w. now rewrite Hr. }
        repeat split; [exact H1 | |].
        -- intros j [x Hx]. apply H2.
           destruct (Nat.eq_dec i j) as [<- | Hne]; [congruence |].
           exists x. now rewrite nth_error_store_other.
        -- intros j [<- | Hj] Hlt; [| now apply H3].
           apply H2. exists r. now apply nth_error_store_same.
      * exfalso. apply nth_error_None in Hs.
        apply Forall2_length in Hok.
        assert (i < List.length tasks)%nat by (apply nth_error_Some; congruence).
        lia.
    + destruct (IH slots w Hok) as (H1 & H2 & H3).
      repeat split; [exact H1 | exact H2 |].
      intros j [<- | Hj] Hlt; [| now apply H3].
      apply nth_error_None in Ht. lia.
Qed.

Lemma sequential_produced (qs : list value) :
  forall index w,
    Forall2 produced qs (fst (sequential e templates documents o prov cfg qs index w)).
Proof.
  induction qs as [| q qs IH]; intros index w; simpl; [constructor |].
  set (w1 := {| reads := N.succ (reads w); draws := draws w |}).
  destruct (resume_question e templates q documents o index prov cfg
              (dateNow e (reads w)) w1) as [r w2] eqn:Hr.
  specialize (IH (S index) w2).
  destruct (sequential e templates documents o prov cfg qs (S index) w2) as [rs w3].
  simpl in *. constructor; [| exact IH].
  exists index, (dateNow e (reads w)), w1. now rewrite Hr.
Qed.

(** Both modes: when the model is known and, in batch mode, every timer
    fires, the promise fulfils with one record per question, in input
    order, each one returned by the call on its question. *)
Lemma processQuestions_produced (qs : list value) (sched : list nat) (w : World) :
  getModelConfig (model o) <> Undefined ->
  (batch_mode o = true -> forall i, (i < List.length qs)%nat -> In i sched) ->
  exists s w',
    processQuestions e templates qs documents o sched w = Settled (Normal s) w'
    /\ Forall2 produced qs (results s).
Proof.
  intros Hcfg Hsched. unfold processQuestions.
  set (w0 := snd (Date_now e w)). simpl.
  assert (Hbody :
    exists s w',
      (if batch_mode o
       then let '(tasks, w1) := launch e qs 0 w0 in
            let '(slots, w2) :=
              complete e templates documents o prov cfg tasks sched
                       (map (fun _ => None) tasks) w1 in
            match all_filled slots with
            | Some batchResults =>
                finish e qs o prov (dateNow e (reads w)) batchResults w2
            | None => Pending
            end
       else let '(rs, w1) := sequential e templates documents o prov cfg qs 0 w0 in
            finish e qs o prov (dateNow e (reads w)) rs w1)
      = Settled (Normal s) w'
      /\ Forall2 produced qs (results s)).
  { destruct (batch_mode o) eqn:Hmode.
    - pose proof (launch_questions qs 0 w0) as Hq.
      destruct (launch e qs 0 w0) as [tasks w1]. simpl in Hq.
      assert (Hinit : Forall2 slot_ok tasks (map (fun _ => None) tasks)).
      { clear. induction tasks; simpl; constructor; simpl; auto. }
      destruct (@complete_slots tasks sched (map (fun _ => None) tasks) w1 Hinit)
        as (Hok & _ & Hfill).
      destruct (complete e templates documents o prov cfg tasks sched
                         (map (fun _ => None) tasks) w1) as [slots w2].
      simpl in Hok, Hfill.
      destruct (@all_filled_Forall2 _ _ (fun t r => produced (task_question t) r)
                  tasks slots Hok) as (rs & Hrs & HR).
      { intros i Hi. apply Hfill; [| exact Hi].
        apply Hsched; [reflexivity |]. rewrite <- Hq, length_map. exact Hi. }
      rewrite Hrs. unfold finish. simpl. eexists _, _. split; [reflexivity |].
      simpl. rewrite <- Hq. clear - HR.
      induction HR; simpl; constructor; auto.
    - pose proof (sequential_produced qs 0 w0) as HR.
      destruct (sequential e templates documents o prov cfg qs 0 w0) as [rs w1].
      unfold finish. simpl. eexists _, _. split; [reflexivity |]. exact HR. }
  destruct (getModelConfig (model o)); [exact Hbody | exact Hbody | congruence].
Qed.

Lemma Forall2_nth_error (A B : Type) (R : A -> B -> Prop) (l : list A) (l' : list B) :
  Forall2 R l l' ->
  forall i a, nth_error l i = Some a -> exists b, nth_error l' i = Some b /\ R a b.
Proof.
  induction 1 as [| x y l l' Hxy H IH]; intros i a Hi.
  - destruct i; discriminate.
  - destruct i as [| i]; simpl in *.
    + injection Hi as <-. now exists y.
    + now apply IH.
Qed.

Lemma Forall2_map_question (qs : list value) (rs : list answer_record) :
  Forall2 produced qs rs -> map question rs = qs.
Proof.
  induction 1 as [| q r qs rs Hqr H IH]; simpl; [reflexivity |].
  now rewrite (produced_question Hqr), IH.
Qed.

(** C8.  In batch mode, for a known model and whatever the order
    [sched] in which the timers of the launched calls fire (each of them
    fires), [processQuestions] fulfils with a session whose [results]
    array has the questions in input order:
    [results[i].question === questions[i]] for every [i]. *)
Theorem batch_results_in_input_order (qs : list value) (sched : list nat) (w : World) :
  batch_mode o = true ->
  getModelConfig (model o) <> Undefined ->
  (forall i, (i < List.length qs)%nat -> In i sched) ->
  exists s w',
    processQuestions e templates qs documents o sched w = Settled (Normal s) w'
    /\ map question (results s) = qs
    /\ forall i q, nth_error qs i = Some q ->
                   exists r, nth_error (results s) i = Some r /\ question r = q.
Proof.
  intros Hmode Hcfg Hsched.
  destruct (@processQuestions_produced qs sched w Hcfg (fun _ => Hsched))
    as (s & w' & Hrun & HR).
  exists s, w'. split; [exact Hrun |]. split; [now apply Forall2_map_question |].
  intros i q Hi. destruct (Forall2_nth_error HR i Hi) as (r & Hr & Hqr).
  exists r. split; [exact Hr | now apply produced_question].
Qed.

(** C9.  For a known model, in either mode (in batch mode whatever the
    order in which the timers fire), [processQuestions] fulfils with one
    record per question.  The record of a question on which the
    generation of the response throws has confidence 0, [error: true]
    and the apology as its answer; the record of a question on which it
    succeeds is a regular one, whatever happened to the others. *)
Theorem failure_stays_with_its_question (qs : list value) (sched : list nat) (w : World) :
  getModelConfig (model o) <> Undefined ->
  (batch_mode o = true -> forall i, (i < List.length qs)%nat -> In i sched) ->
  exists s w',
    processQuestions e templates qs documents o sched w = Settled (Normal s) w'
    /\ List.length (results s) = List.length qs
    /\ forall i q, nth_error qs i = Some q ->
         exists r, nth_error (results s) i = Some r
                   /\ question r = q
                   /\ (always_fails q ->
                       (confidence r == 0)%Q /\ error r = true
                       /\ answer r = fallback_answer prov)
                   /\ (always_succeeds q ->
                       error r = false
                       /\ exists resp, details r = Some resp
                                       /\ answer r = r_answer resp
                                       /\ confidence r = r_confidence resp).
Proof.
  intros Hcfg Hsched.
  destruct (@processQuestions_produced qs sched w Hcfg Hsched)
    as (s & w' & Hrun & HR).
  exists s, w'. split; [exact Hrun |].
  split; [symmetry; now apply Forall2_length in HR |].
  intros i q Hi. destruct (Forall2_nth_error HR i Hi) as (r & Hr & Hqr).
  exists r. split; [exact Hr |]. split; [now apply produced_question |]. split.
  - intros Hfail. destruct (produced_failure Hqr Hfail) as (H1 & H2 & H3 & _).
    auto.
  - intros Hok. exact (produced_success Hqr Hok).
Qed.

End Service.

(** A question that is not a string always fails. *)
Lemma non_string_always_fails
      (templates : string -> string -> list value -> string -> string -> World ->
                   completion response * World)
      (documents : list value) (o : options) (q : value) :
  (forall s, q <> JStr s) -> always_fails templates documents o q.
Proof.
  intros Hq w. unfold generateContextualResponse.
  destruct q; try (eexists; reflexivity).
  exfalso. now apply (Hq s).
Qed.

(** ** A concrete batch *)

Import Inputs.

Lemma last_first_covers : forall i, (i < 3)%nat -> In i last_first.
Proof.
  intros i Hi. unfold last_first.
  destruct i as [| [| [| i]]]; simpl; auto. lia.
Qed.

Lemma batch_results_in_input_order_witness :
  batch_mode batch_options = true
  /\ getModelConfig (model batch_options) <> Undefined
  /\ exists s w',
       processQuestions midnight canned three_questions [] batch_options last_first fresh
       = Settled (Normal s) w'
       /\ map question (results s) = three_questions
       /\ forall i q, nth_error three_questions i = Some q ->
                      exists r, nth_error (results s) i = Some r /\ question r = q.
Proof.
  split; [reflexivity |].
  split; [vm_compute; discriminate |].
  apply (@batch_results_in_input_order midnight canned [] batch_options
           three_questions last_first fresh).
  - reflexivity.
  - vm_compute; discriminate.
  - exact last_first_covers.
Defined.

Lemma failure_stays_with_its_question_witness :
  getModelConfig (model batch_options) <> Undefined
  /\ always_fails canned [] batch_options (JNum 42)
  /\ exists s w',
       processQuestions midnight canned three_questions [] batch_options last_first fresh
       = Settled (Normal s) w'
       /\ List.length (results s) = 3%nat
       /\ exists r, nth_error (results s) 1 = Some r
                    /\ question r = JNum 42
                    /\ (confidence r == 0)%Q /\ error r = true
                    /\ answer r = fallback_answer "openai".
Proof.
  assert (Hcfg : getModelConfig (model batch_options) <> Undefined)
    by (vm_compute; discriminate).
  assert (Hfail : always_fails canned [] batch_options (JNum 42))
    by (apply non_string_always_fails; discriminate).
  split; [exact Hcfg |]. split; [exact Hfail |].
  destruct (@failure_stays_with_its_question midnight canned [] batch_options
              three_questions last_first fresh Hcfg (fun _ => last_first_covers))
    as (s & w' & Hrun & Hlen & Hall).
  exists s, w'. split; [exact Hrun |]. split; [exact Hlen |].
  destruct (Hall 1%nat (JNum 42) eq_refl) as (r & Hr & Hq & Hf & _).
  exists r. split; [exact Hr |]. split; [exact Hq |]. exact (Hf Hfail).
Defined.

End MultiAIFacts.


(* ================================================================== *)
(** * Facts about the concrete inputs                                   *)
(* ================================================================== *)

Module EnvFacts.
Import JS Inputs Vocabulary.

(** The generator of [midnight] honours the contract of [Math.random]. *)
Lemma midnight_unit_interval : unit_interval midnight.
Proof. intros n. split; [apply Qle_refl | reflexivity]. Qed.

Lemma not_listed (x : string) (l : list string) :
  existsb (String.eqb x) l = false -> ~ In x l.
Proof.
  intros H Hin. assert (Ht : existsb (String.eqb x) l = true).
  { apply existsb_exists. exists x. split; [exact Hin | apply String.eqb_refl]. }
  congruence.
Qed.

Lemma midnight_unit_doubles : unit_doubles midnight.
Proof. intros n. split; [apply Qle_refl | unfold Qle; simpl; lia]. Qed.

(** Exact arithmetic is one way of rounding to nearest. *)
Lemma midnight_rounds_to_nearest : rounds_to_nearest midnight.
Proof.
  split; [intros x y H; exact H |]. split; [intros x; reflexivity |].
  split; [reflexivity |]. intros x H1 H8. simpl. split; nra.
Qed.

(** ** Consequences of rounding to nearest *)

Section Rounding.
Variable e : env.
Hypothesis nearest : rounds_to_nearest e.

Lemma round_monotone (x y : Q) : (x <= y)%Q -> (round e x <= round e y)%Q.
Proof. apply nearest. Qed.

Lemma round_compat (x y : Q) : (x == y)%Q -> (round e x == round e y)%Q.
Proof.
  intros H. apply Qle_antisym; apply round_monotone; rewrite H; apply Qle_refl.
Qed.

Lemma round_nonneg (x : Q) : (0 <= x)%Q -> (0 <= round e x)%Q.
Proof.
  intros H. destruct nearest as (_ & _ & H0 & _).
  rewrite <- H0. now apply round_monotone.
Qed.

Lemma literal_fixed (q : Q) : (round e (literal e q) == literal e q)%Q.
Proof. apply nearest. Qed.

Lemma literal_nonneg (q : Q) : (0 <= q)%Q -> (0 <= literal e q)%Q.
Proof. apply round_nonneg. Qed.

(** [x * d] for [x] in [0, 1] and a literal [d >= 0]. *)
Lemma times_range (x d : Q) :
  (0 <= x)%Q -> (x <= 1)%Q -> (0 <= d)%Q ->
  (0 <= times e x (literal e d))%Q /\ (times e x (literal e d) <= literal e d)%Q.
Proof.
  intros Hx0 Hx1 Hd. pose proof (literal_nonneg Hd) as Hl. unfold times. split.
  - apply round_nonneg. now apply Qmult_le_0_compat.
  - rewrite <- (literal_fixed d) at 2. apply round_monotone.
    rewrite <- (Qmult_1_l (literal e d)) at 2.
    now apply Qmult_le_compat_r.
Qed.

(** [c + x * d] for [x] in [0, 1] and literals [c] and [d >= 0]: between
    [c] and [c + d], the bounds included. *)
Lemma offset_range (c d x : Q) :
  (0 <= x)%Q -> (x <= 1)%Q -> (0 <= d)%Q ->
  (literal e c <= plus e (literal e c) (times e x (literal e d)))%Q
  /\ (plus e (literal e c) (times e x (literal e d))
      <= plus e (literal e c) (literal e d))%Q.
Proof.
  intros Hx0 Hx1 Hd. destruct (times_range Hx0 Hx1 Hd) as [Hlo Hhi].
  unfold plus. split.
  - rewrite <- (literal_fixed c) at 1. apply round_monotone. lra.
  - apply round_monotone. lra.
Qed.

(** [Math.floor(x * n)] for a binary64 number [x] of [0, 1) and an
    integer [2 <= n <= 8]: one of [0, ..., n - 1]. *)
Lemma floor_range (x : Q) (n : Z) :
  (0 <= x)%Q -> (x <= 1 - (1 # 9007199254740992))%Q -> 2 <= n <= 8 ->
  0 <= Qfloor (times e x (inject_Z n)) <= n - 1.
Proof.
  intros Hx0 Hx1 Hn. unfold times.
  assert (Hn2 : (2 <= inject_Z n)%Q) by (unfold Qle; simpl; lia).
  assert (Hn8 : (inject_Z n <= 8)%Q) by (unfold Qle; simpl; lia).
  split.
  - change 0 with (Qfloor 0). apply Qfloor_resp_le. apply round_nonneg.
    apply Qmult_le_0_compat; lra.
  - set (top := ((1 - (1 # 9007199254740992)) * inject_Z n)%Q).
    assert (Htop : (round e (x * inject_Z n) <= round e top)%Q).
    { apply round_monotone. unfold top. apply Qmult_le_compat_r; lra. }
    destruct nearest as (_ & _ & _ & Hacc).
    assert (H1 : (1 <= top)%Q) by (unfold top; nra).
    assert (H8 : (top <= 8)%Q) by (unfold top; nra).
    destruct (Hacc top H1 H8) as [_ Hup].
    assert (Hlt : (round e (x * inject_Z n) < inject_Z n)%Q).
    { eapply Qle_lt_trans; [exact Htop |]. unfold top in *. nra. }
    assert (Hfl : (inject_Z (Qfloor (round e (x * inject_Z n))) < inject_Z n)%Q).
    { eapply Qle_lt_trans; [apply Qfloor_le | exact Hlt]. }
    rewrite <- Zlt_Qlt in Hfl. lia.
Qed.

End Rounding.

End EnvFacts.

(* ================================================================== *)
(** * Further properties of the chunker                                 *)
(* ================================================================== *)

Module ChunkerMore.
Import JS Chunker ChunkerFacts Vocabulary.

Lemma native_substring_exact (s : string) :
  forall n m, (n + m <= String.length s)%nat ->
              String.length (String.substring n m s) = m.
Proof.
  induction s as [| c s IH]; intros n m H; simpl in H.
  - assert (n = 0 /\ m = 0)%nat as [-> ->] by lia. reflexivity.
  - destruct n as [| n]; simpl.
    + destruct m as [| m]; simpl; [reflexivity |]. f_equal. apply IH. lia.
    + apply IH. lia.
Qed.

Lemma substring_len_exact (s : string) (a b : Z) :
  0 <= a <= b -> b <= len s -> len (substring s a b) = b - a.
Proof.
  intros Hab Hb. unfold substring, clamp.
  replace (Z.max 0 (Z.min a (len s))) with a by lia.
  replace (Z.max 0 (Z.min b (len s))) with b by lia.
  rewrite Z.min_l, Z.max_r by lia.
  unfold len at 1. rewrite native_substring_exact; [lia |].
  unfold len in Hb. lia.
Qed.

Lemma trimStart_len (s : string) : len (trimStart s) <= len s.
Proof.
  unfold len. induction s as [| c s IH]; simpl; [lia |].
  destruct (is_space c); simpl; lia.
Qed.

Lemma trimEnd_len (s : string) : len (trimEnd s) <= len s.
Proof.
  unfold len. induction s as [| c s IH]; simpl; [lia |].
  destruct (trimEnd s) as [| d t]; [destruct (is_space c) |]; simpl in *; lia.
Qed.

Lemma trim_len (s : string) : len (trim s) <= len s.
Proof.
  unfold trim. pose proof (trimEnd_len (trimStart s)). pose proof (trimStart_len s). lia.
Qed.

Lemma lastIndexOf_from_get (c : ascii) (s : string) :
  forall i acc,
    0 <= i ->
    lastIndexOf_from c s i acc = acc
    \/ (i <= lastIndexOf_from c s i acc
        /\ String.get (Z.to_nat (lastIndexOf_from c s i acc - i)) s = Some c).
Proof.
  induction s as [| d s IH]; intros i acc Hi; simpl.
  - now left.
  - destruct (IH (i + 1) (if Ascii.eqb d c then i else acc) ltac:(lia))
      as [Hr | [Hr Hget]].
    + rewrite Hr. destruct (Ascii.eqb d c) eqn:Hd; [| now left].
      right. split; [lia |]. apply Ascii.eqb_eq in Hd. subst.
      now rewrite Z.sub_diag.
    + right. split; [lia |].
      replace (Z.to_nat (lastIndexOf_from c s (i + 1) (if Ascii.eqb d c then i else acc) - i))
        with (S (Z.to_nat (lastIndexOf_from c s (i + 1)
                             (if Ascii.eqb d c then i else acc) - (i + 1)))) by lia.
      exact Hget.
Qed.

Lemma lastIndexOf_get (s : string) (c : ascii) :
  0 <= lastIndexOf s c ->
  String.get (Z.to_nat (lastIndexOf s c)) s = Some c.
Proof.
  intros H. unfold lastIndexOf in *.
  destruct (@lastIndexOf_from_get c s 0 (-1) ltac:(lia)) as [Hr | [_ Hget]].
  - lia.
  - now rewrite Z.sub_0_r in Hget.
Qed.

Lemma linked_snoc (spans : list (Z * Z)) :
  forall start s e,
    linked start (spans ++ [(s, e)])%list <-> linked start spans /\ s = next_start start spans.
Proof.
  induction spans as [| [s0 e0] spans IH]; intros start s e; simpl.
  - unfold next_start. simpl. tauto.
  - rewrite IH. unfold next_start. simpl. tauto.
Qed.

Lemma next_start_snoc (spans : list (Z * Z)) (start s e : Z) :
  next_start start (spans ++ [(s, e)])%list = e - overlap.
Proof. unfold next_start. now rewrite fold_left_app. Qed.

Lemma numbered_snoc (dom : string) (cs : list chunk) :
  forall first c,
    numbered dom first (cs ++ [c])%list
    <-> numbered dom first cs
        /\ chunk_index (metadata c) = (first + List.length cs)%nat
        /\ id c = "chunk_" ++ nat_to_string (first + List.length cs)
        /\ domain (metadata c) = dom.
Proof.
  induction cs as [| c0 cs IH]; intros first c; simpl.
  - rewrite Nat.add_0_r. tauto.
  - rewrite IH. replace (S first + List.length cs)%nat
      with (first + S (List.length cs))%nat by lia. tauto.
Qed.

Section Invariants.
Variable extractKeywords : string -> list string.
Variable extractSimpleEntities : string -> entities.
Variable e : env.
Variable const_enforced : bool.
Variable content : string.
Variable dom : string.

Local Abbreviation iteration :=
  (iteration extractKeywords extractSimpleEntities e const_enforced content dom).
Local Abbreviation loop :=
  (loop extractKeywords extractSimpleEntities e const_enforced content dom).
Local Abbreviation intelligentChunking :=
  (intelligentChunking extractKeywords extractSimpleEntities e const_enforced
                       content dom).

(** A property of the state that every iteration keeps holds of the
    chunks pushed, however far the loop has got. *)
Lemma loop_invariant (P : loop_state -> Prop) (Q : list chunk -> Prop) :
  (forall st st', P st -> startIndex st < len content ->
                  iteration st = Normal st' -> P st') ->
  (forall st, P st -> Q (chunks st)) ->
  Q [] ->
  forall fuel st, P st -> Q (emitted (loop fuel st)).
Proof.
  intros Hstep HQ Hnil fuel.
  induction fuel as [| fuel IH]; intros st HP; simpl.
  - destruct (startIndex st <? len content); simpl; now apply HQ.
  - destruct (startIndex st <? len content) eqn:Hlt; simpl; [| now apply HQ].
    apply Z.ltb_lt in Hlt.
    destruct (iteration st) as [st' | m] eqn:Hit; [| exact Hnil].
    apply IH. eapply Hstep; eauto.
Qed.

(** What one iteration does to the state, with the facts about the
    chunk it pushes. *)
Lemma iteration_pushes (st st' : loop_state) :
  - overlap <= startIndex st ->
  (0 <= startIndex st \/ len content <= overlap) ->
  startIndex st < len content ->
  iteration st = Normal st' ->
  exists c,
    chunks st' = (chunks st ++ [c])%list
    /\ chunkIndex st' = S (chunkIndex st)
    /\ startIndex st' = end_index c - overlap
    /\ start_index c = startIndex st
    /\ chunk_index (metadata c) = chunkIndex st
    /\ id c = "chunk_" ++ nat_to_string (chunkIndex st)
    /\ domain (metadata c) = dom
    /\ within content c
    /\ ends_well content c.
Proof.
  intros Hlow Hneg Hlt. unfold Chunker.iteration, within, ends_well.
  unfold chunkSize, overlap, minBoundary in *.
  set (endIndex := Z.min (startIndex st + 1000) (len content)).
  set (chunkText := substring content (startIndex st) endIndex).
  pose proof (len_nonneg content) as Hc.
  assert (Hraw : len chunkText = endIndex - Z.max 0 (startIndex st)).
  { subst chunkText. unfold substring, clamp.
    unfold len at 1.
    destruct (Z.le_gt_cases 0 (startIndex st)).
    - replace (Z.max 0 (Z.min (startIndex st) (len content))) with (startIndex st) by lia.
      replace (Z.max 0 (Z.min endIndex (len content))) with endIndex by lia.
      rewrite Z.min_l, Z.max_r by lia.
      rewrite native_substring_exact; unfold len in *; lia.
    - replace (Z.max 0 (Z.min (startIndex st) (len content))) with 0 by lia.
      replace (Z.max 0 (Z.min endIndex (len content))) with endIndex by lia.
      rewrite Z.min_l, Z.max_r by lia.
      rewrite native_substring_exact; unfold len in *; lia. }
  destruct (endIndex <? len content) eqn:Hend.
  - apply Z.ltb_lt in Hend.
    assert (Hpos : 0 <= startIndex st) by (unfold chunkSize, overlap in *; lia).
    destruct (Z.max (lastIndexOf chunkText ".") (lastIndexOf chunkText "010") >? 700)
      eqn:Hb.
    + destruct const_enforced; [discriminate |].
      destruct (Date_toISOString e (world st)) as [now w].
      intros H; inversion H; subst st'; clear H.
      set (boundary := Z.max (lastIndexOf chunkText ".") (lastIndexOf chunkText "010")) in *.
      assert (Hbd : 700 < boundary) by lia.
      assert (Hbl : boundary < len chunkText).
      { pose proof (lastIndexOf_bound chunkText "."%char).
        pose proof (lastIndexOf_bound chunkText "010"%char). lia. }
      assert (Hcut : len (substring chunkText 0 (boundary + 1)) = boundary + 1).
      { rewrite substring_len_exact; unfold minBoundary in *; lia. }
      assert (Hchar : String.get (Z.to_nat boundary) chunkText = Some "."%char
                      \/ String.get (Z.to_nat boundary) chunkText = Some "010"%char).
      { unfold minBoundary in *. subst boundary.
        destruct (Z.max_spec (lastIndexOf chunkText ".") (lastIndexOf chunkText "010"))
          as [[_ Hm] | [_ Hm]]; rewrite Hm in *.
        - right. apply lastIndexOf_get. lia.
        - left. apply lastIndexOf_get. lia. }
      assert (Hget : String.get (Z.to_nat boundary) chunkText
                     = String.get (Z.to_nat (startIndex st + boundary)) content).
      { subst chunkText. unfold substring, clamp.
        replace (Z.max 0 (Z.min (startIndex st) (len content))) with (startIndex st) by lia.
        replace (Z.max 0 (Z.min endIndex (len content))) with endIndex by lia.
        rewrite Z.min_l, Z.max_r by lia.
        rewrite substring_correct1 by (unfold minBoundary in *; lia).
        f_equal. unfold minBoundary in *. lia. }
      eexists. simpl. repeat split; try reflexivity.
      * exact Hlow.
      * simpl. unfold minBoundary in *. lia.
      * simpl. unfold minBoundary in *. lia.
      * simpl. unfold minBoundary, chunkSize, overlap in *. lia.
      * simpl. rewrite Hcut. lia.
      * simpl. apply trim_len.
      * simpl. intros _. unfold minBoundary in *. lia.
      * right. simpl. split; [unfold minBoundary in *; lia |].
        replace (startIndex st + boundary + 1 - 1) with (startIndex st + boundary) by lia.
        rewrite <- Hget. exact Hchar.
    + destruct (Date_toISOString e (world st)) as [now w].
      intros H; inversion H; subst st'; clear H.
      eexists. simpl. repeat split; try reflexivity.
      * exact Hlow.
      * simpl. unfold chunkSize in *. lia.
      * simpl. lia.
      * simpl. unfold chunkSize in *. lia.
      * simpl. rewrite Hraw. reflexivity.
      * simpl. apply trim_len.
      * simpl. intros _. unfold chunkSize in *. lia.
      * left. simpl. reflexivity.
  - apply Z.ltb_ge in Hend.
    destruct (Date_toISOString e (world st)) as [now w].
    intros H; inversion H; subst st'; clear H.
    eexists. simpl. repeat split; try reflexivity.
    + exact Hlow.
    + simpl. unfold chunkSize in *. lia.
    + simpl. lia.
    + simpl. unfold chunkSize in *. lia.
    + simpl. rewrite Hraw. reflexivity.
    + simpl. apply trim_len.
    + simpl. intros Hlt'. unfold chunkSize in *. lia.
    + left. simpl. reflexivity.
Qed.

(** The invariant of the loop. *)
Lemma invariant_kept (st st' : loop_state) :
  (- overlap <= startIndex st
   /\ (0 <= startIndex st \/ len content <= overlap)
   /\ chunkIndex st = List.length (chunks st)
   /\ startIndex st = next_start 0 (spans (chunks st))
   /\ linked 0 (spans (chunks st))
   /\ numbered dom 0 (chunks st)
   /\ Forall (within content) (chunks st)
   /\ Forall (ends_well content) (chunks st)) ->
  startIndex st < len content ->
  iteration st = Normal st' ->
  (- overlap <= startIndex st'
   /\ (0 <= startIndex st' \/ len content <= overlap)
   /\ chunkIndex st' = List.length (chunks st')
   /\ startIndex st' = next_start 0 (spans (chunks st'))
   /\ linked 0 (spans (chunks st'))
   /\ numbered dom 0 (chunks st')
   /\ Forall (within content) (chunks st')
   /\ Forall (ends_well content) (chunks st')).
Proof.
  intros (Hlow & Hneg & Hidx & Hnext & Hlink & Hnum & Hin & Hends) Hlt Hit.
  destruct (iteration_pushes st Hlow Hneg Hlt Hit)
    as (c & Hcs & Hci & Hst & Hs & Hk & Hid & Hdom & Hw & He).
  pose proof Hw as (_ & Hse & Hel & _ & Hlen & Htx & Hfar).
  pose proof (len_nonneg (text c)) as Htext.
  rewrite Hcs. unfold spans. rewrite map_app. simpl.
  repeat split.
  - unfold overlap in *. lia.
  - unfold overlap in *.
    destruct (Z.lt_ge_cases (end_index c) (len content)) as [H | H];
      [specialize (Hfar H) |]; lia.
  - rewrite Hci, length_app, Hidx. simpl. lia.
  - rewrite next_start_snoc. exact Hst.
  - apply linked_snoc. split; [exact Hlink |]. now rewrite Hs.
  - apply numbered_snoc. simpl. rewrite <- Hidx. auto.
  - apply Forall_app. split; [exact Hin | now constructor].
  - apply Forall_app. split; [exact Hends | now constructor].
Qed.

Lemma invariant_holds (fuel : nat) (w : World) :
  let cs := emitted (intelligentChunking fuel w) in
  linked 0 (spans cs) /\ numbered dom 0 cs
  /\ Forall (within content) cs /\ Forall (ends_well content) cs.
Proof.
  apply (@loop_invariant
           (fun st => - overlap <= startIndex st
                      /\ (0 <= startIndex st \/ len content <= overlap)
                      /\ chunkIndex st = List.length (chunks st)
                      /\ startIndex st = next_start 0 (spans (chunks st))
                      /\ linked 0 (spans (chunks st))
                      /\ numbered dom 0 (chunks st)
                      /\ Forall (within content) (chunks st)
                      /\ Forall (ends_well content) (chunks st))
           (fun cs => linked 0 (spans cs) /\ numbered dom 0 cs
                      /\ Forall (within content) cs /\ Forall (ends_well content) cs)).
  - intros st st'. apply invariant_kept.
  - intros st (_ & _ & _ & _ & H1 & H2 & H3 & H4). auto.
  - simpl. auto.
  - simpl. unfold overlap, next_start. simpl. repeat split; auto; lia.
Qed.

(** X1.  However far the loop has got, the chunks pushed carry the
    ordinals 0, 1, 2, ... in order, the ids [chunk_0], [chunk_1], ...
    and the domain of the call. *)
Theorem chunks_are_numbered (fuel : nat) (w : World) :
  numbered dom 0 (emitted (intelligentChunking fuel w)).
Proof.
  destruct (invariant_holds fuel w) as (Hlinked & Hnumbered & Hwithin & Hends).
  exact Hnumbered.
Qed.

(** X2.  The first chunk starts at offset 0 and every later chunk starts
    exactly 200 positions before the end of its predecessor: no
    position of the text lies between two successive chunks. *)
Theorem spans_are_linked (fuel : nat) (w : World) :
  linked 0 (spans (emitted (intelligentChunking fuel w))).
Proof.
  destruct (invariant_holds fuel w) as (Hlinked & Hnumbered & Hwithin & Hends).
  exact Hlinked.
Qed.

(** X3.  Every chunk pushed has [-200 <= start_index < end_index <=
    content.length], spans at most 1000 positions, records as [length]
    the number of characters between [max(0, start_index)] and
    [end_index], holds a [text] no longer than that, and spans at least
    702 positions unless it ends at the end of the text. *)
Theorem chunks_are_within_bounds (fuel : nat) (w : World) :
  Forall (within content) (emitted (intelligentChunking fuel w)).
Proof.
  destruct (invariant_holds fuel w) as (Hlinked & Hnumbered & Hwithin & Hends).
  exact Hwithin.
Qed.

(** X4.  Every chunk pushed ends where its window of 1000 characters (or
    the text) ends, or else directly after a full stop or a line feed of
    the text, and then spans at least 702 positions. *)
Theorem chunks_end_at_boundaries (fuel : nat) (w : World) :
  Forall (ends_well content) (emitted (intelligentChunking fuel w)).
Proof.
  destruct (invariant_holds fuel w) as (Hlinked & Hnumbered & Hwithin & Hends).
  exact Hends.
Qed.

End Invariants.

End ChunkerMore.

(* ================================================================== *)
(** * Further properties of the section labels and of the database      *)
(* ================================================================== *)

Module StoreMore.
Import JS JSFacts Chunker VectorDB VectorDBFacts Vocabulary.

Lemma lower_char_idempotent (c : ascii) : lower_char (lower_char c) = lower_char c.
Proof. destruct c as [[] [] [] [] [] [] [] []]; reflexivity. Qed.

Lemma toLowerCase_idempotent (s : string) : toLowerCase (toLowerCase s) = toLowerCase s.
Proof.
  induction s as [| c s IH]; simpl; [reflexivity |].
  now rewrite lower_char_idempotent, IH.
Qed.

Lemma first_match_range (ps : list (string * pattern)) (text : string) :
  In (first_match ps text) ("general" :: map fst ps).
Proof.
  induction ps as [| [name p] ps IH]; simpl; [now left |].
  destruct (test p text); [right; now left |].
  destruct IH as [H | H]; [now left | right; now right].
Qed.

(** X5.  The label that [detectSection] gives is [general] or one of the
    section names of the table it consults; under a property name
    inherited from [Object.prototype] the table has no entries and the
    label is [general]; and a domain other than [legal] and [hr] that is
    no inherited property name is labelled with the insurance table. *)
Theorem detectSection_labels (text d : string) :
  In (detectSection text d) ("general" :: map fst (sectionPatterns d))
  /\ (In d inherited_names -> detectSection text d = "general")
  /\ (d <> "legal" -> d <> "hr" ->
      existsb (String.eqb d) inherited_names = false ->
      detectSection text d = detectSection text "insurance"
      /\ In (detectSection text d)
            ["general"; "coverage"; "exclusions"; "claims"; "premium"; "terms";
             "definitions"]).
Proof.
  unfold detectSection. split; [apply first_match_range |]. split.
  - intros Hin. unfold sectionPatterns.
    assert (Hi : existsb (String.eqb d) inherited_names = true).
    { apply existsb_exists. exists d. split; [exact Hin | apply String.eqb_refl]. }
    rewrite Hi.
    destruct (String.eqb_spec d "insurance") as [-> |];
      [simpl in Hin; intuition discriminate |].
    destruct (String.eqb_spec d "legal") as [-> |];
      [simpl in Hin; intuition discriminate |].
    destruct (String.eqb_spec d "hr") as [-> |];
      [simpl in Hin; intuition discriminate |].
    reflexivity.
  - intros Hl Hh Hi.
    assert (Hp : sectionPatterns d = insurance_patterns).
    { unfold sectionPatterns. rewrite Hi.
      apply String.eqb_neq in Hl, Hh. rewrite Hl, Hh.
      now destruct (String.eqb d "insurance"). }
    rewrite Hp. split; [reflexivity |].
    exact (first_match_range insurance_patterns text).
Qed.

(** ** The map *)

Lemma keys_Map_set (k : string) (v : vector) (m : Map) :
  keys (Map_set k v m) = if in_dec string_dec k (keys m) then keys m
                         else (keys m ++ [k])%list.
Proof.
  unfold keys. induction m as [| [k0 x] m IH]; simpl; [reflexivity |].
  destruct (String.eqb k0 k) eqn:E; simpl.
  - apply String.eqb_eq in E. subst.
    destruct (string_dec k k); [| congruence].
    destruct (in_dec string_dec k _); reflexivity.
  - apply String.eqb_neq in E. rewrite IH.
    destruct (string_dec k0 k); [congruence |].
    destruct (in_dec string_dec k (map fst m)); reflexivity.
Qed.

Lemma Map_set_well_formed (v : vector) (m : Map) :
  well_formed m -> well_formed (Map_set (id v) v m).
Proof.
  intros [Hnd Hid]. split.
  - rewrite keys_Map_set. destruct (in_dec string_dec (id v) (keys m)); [exact Hnd |].
    apply NoDup_app; [exact Hnd | repeat constructor; auto |].
    intros x Hx [<- | []]. contradiction.
  - clear Hnd. induction Hid as [| [k0 x] m Hk Hm IH]; simpl.
    + repeat constructor.
    + destruct (String.eqb k0 (id v)); constructor; auto.
Qed.

Lemma set_all_well_formed (vs : list vector) :
  forall m, well_formed m ->
            well_formed (set_all vs m)
            /\ exists added, keys (set_all vs m) = (keys m ++ added)%list.
Proof.
  induction vs as [| v vs IH]; intros m Hm.
  - split; [exact Hm |]. exists []. simpl. now rewrite app_nil_r.
  - change (set_all (v :: vs) m) with (set_all vs (Map_set (id v) v m)).
    destruct (IH _ (Map_set_well_formed v Hm)) as (Hwf & added & Hk).
    split; [exact Hwf |]. rewrite Hk, keys_Map_set.
    destruct (in_dec string_dec (id v) (keys m)).
    + now exists added.
    + exists (id v :: added). now rewrite <- app_assoc.
Qed.

(** X6.  [upsert] keeps the map well formed (distinct ids, every vector
    stored under its own id), and it neither removes nor moves an id
    that was present: the ids after the upsert are the ids before it,
    in their order, followed by the new ones. *)
Theorem upsert_keeps_the_map_well_formed (vectors : list vector) (m : Map) :
  well_formed m ->
  exists m1 added,
    upsert vectors m = Normal m1
    /\ well_formed m1
    /\ keys m1 = (keys m ++ added)%list.
Proof.
  intros Hm. destruct (set_all_well_formed vectors Hm) as (Hwf & added & Hk).
  exists (set_all vectors m), added. repeat split; try assumption; apply Hwf.
Qed.

Lemma find_snoc (A : Type) (f : A -> bool) (l : list A) (x : A) :
  find f (l ++ [x]) = match find f l with
                      | Some y => Some y
                      | None => if f x then Some x else None
                      end.
Proof.
  induction l as [| y l IH]; simpl; [reflexivity |].
  destruct (f y); [reflexivity | exact IH].
Qed.

(** X7.  After an upsert, an id carried by some vector of the batch maps
    to the last vector of the batch with that id, and every other id
    maps to what it mapped to before. *)
Theorem upsert_last_write_wins (vectors : list vector) (m : Map) (k : string) :
  exists m1,
    upsert vectors m = Normal m1
    /\ Map_get k m1 = match last_with_id k vectors with
                      | Some v => Some v
                      | None => Map_get k m
                      end.
Proof.
  exists (set_all vectors m). split; [reflexivity |].
  revert m. induction vectors as [| v vs IH]; intros m; [reflexivity |].
  change (set_all (v :: vs) m) with (set_all vs (Map_set (id v) v m)).
  rewrite IH. unfold last_with_id. simpl rev. rewrite find_snoc.
  destruct (find (fun u => String.eqb (id u) k) (rev vs)); [reflexivity |].
  destruct (String.eqb (id v) k) eqn:E.
  - apply String.eqb_eq in E. subst. apply Map_get_set_same.
  - apply String.eqb_neq in E. apply Map_get_set_other. congruence.
Qed.

(** ** The singleton *)

Lemma random_array_length (e : env) (n : nat) :
  forall w, List.length (fst (random_array e n w)) = n
            /\ snd (random_array e n w)
               = {| reads := reads w; draws := (draws w + N.of_nat n)%N |}.
Proof.
  induction n as [| n IH]; intros w.
  - simpl. split; [reflexivity |]. destruct w; simpl. f_equal. lia.
  - simpl. destruct (IH {| reads := reads w; draws := N.succ (draws w) |}) as [H1 H2].
    destruct (random_array e n _) as [xs w2]. simpl in *. split; [now rewrite H1 |].
    rewrite H2. f_equal. lia.
Qed.

Lemma Map_set_dimension (k : string) (v : vector) (m : Map) (n : nat) :
  List.length (values v) = n ->
  Forall (fun u => List.length (values u) = n) (Map_values m) ->
  Forall (fun u => List.length (values u) = n) (Map_values (Map_set k v m)).
Proof.
  intros Hv Hm. unfold Map_values in *.
  induction m as [| [k0 x] m IH]; simpl.
  - repeat constructor. exact Hv.
  - simpl in Hm. inversion Hm as [| ? ? Hx Hrest]. destruct (String.eqb k0 k); simpl.
    + constructor; assumption.
    + constructor; [assumption | now apply IH].
Qed.

Lemma load_spec (e : env) (cs : list sample) :
  forall m w,
    well_formed m ->
    Forall (fun v => List.length (values v) = dimension) (Map_values m) ->
    well_formed (fst (load e cs m w))
    /\ Forall (fun v => List.length (values v) = dimension)
              (Map_values (fst (load e cs m w)))
    /\ keys (fst (load e cs m w))
       = fold_left (fun ks c => if in_dec string_dec (sample_id c) ks then ks
                                else (ks ++ [sample_id c])%list) cs (keys m)
    /\ snd (load e cs m w)
       = {| reads := reads w;
            draws := (draws w + N.of_nat (List.length cs) * N.of_nat dimension)%N |}.
Proof.
  induction cs as [| c cs IH]; intros m w Hwf Hdim.
  - cbn [load fst snd fold_left List.length]. repeat split; try assumption; try apply Hwf.
    destruct w; cbn [reads draws]. f_equal. lia.
  - cbn [load]. destruct (random_array_length e dimension w) as [Hlen Hw].
    destruct (random_array e dimension w) as [embedding w1].
    cbn [fst snd] in Hlen, Hw.
    set (v := {| id := sample_id c; values := embedding;
                 metadata := (sample_metadata c ++ [("text", JStr (sample_text c))])%list |}).
    assert (Hwf1 : well_formed (Map_set (sample_id c) v m))
      by (apply (Map_set_well_formed v Hwf)).
    assert (Hdim1 : Forall (fun v => List.length (values v) = dimension)
                           (Map_values (Map_set (sample_id c) v m)))
      by (apply Map_set_dimension; assumption).
    destruct (IH _ w1 Hwf1 Hdim1) as (H1 & H2 & H3 & H4).
    split; [exact H1 |]. split; [exact H2 |]. split.
    + rewrite H3. cbn [fold_left]. now rewrite keys_Map_set.
    + rewrite H4, Hw. cbn [reads draws List.length]. f_equal. lia.
Qed.

Lemma getInstance_instance (e : env) (st : state) :
  instance (snd (getInstance e st)) = Some (fst (getInstance e st))
  /\ forall m0, instance st = Some m0 -> fst (getInstance e st) = m0.
Proof.
  unfold getInstance. destruct (instance st) as [m0 |] eqn:Hinst.
  - cbn [fst snd]. split; [exact Hinst | congruence].
  - destruct (initializeWithSampleData e (world st)) as [m w1].
    cbn [fst snd instance]. split; [reflexivity | discriminate].
Qed.

(** X8.  The singleton: whatever [Math.random] returns, the first
    [getInstance] creates a well-formed map with exactly the ids
    [chunk_1] ... [chunk_5], each with a vector of 1536 numbers, reading
    the generator 5 * 1536 times; and [getInstance] on a process that
    has its instance returns that instance and leaves the state as it
    is. *)
Theorem getInstance_is_a_singleton (e : env) (st : state) :
  let m := fst (getInstance e st) in
  let st1 := snd (getInstance e st) in
  instance st1 = Some m
  /\ getInstance e st1 = (m, st1)
  /\ (instance st = None ->
      well_formed m
      /\ keys m = ["chunk_1"; "chunk_2"; "chunk_3"; "chunk_4"; "chunk_5"]
      /\ Forall (fun v => List.length (values v) = 1536%nat) (Map_values m)
      /\ world st1 = {| reads := reads (world st);
                        draws := (draws (world st) + 7680)%N |})
  /\ (forall m0, instance st = Some m0 -> m = m0 /\ st1 = st).
Proof.
  unfold getInstance. destruct (instance st) as [m0 |] eqn:Hinst.
  - cbn [fst snd]. rewrite Hinst.
    split; [reflexivity |]. split; [reflexivity |]. split; [discriminate |].
    intros m1 H. injection H as <-. split; reflexivity.
  - unfold initializeWithSampleData.
    assert (Hwf0 : well_formed []) by (split; constructor).
    assert (Hdim0 : Forall (fun v => List.length (values v) = dimension) (Map_values []))
      by constructor.
    destruct (load_spec e sampleChunks (world st) Hwf0 Hdim0) as (H1 & H2 & H3 & H4).
    destruct (load e sampleChunks [] (world st)) as [m w1].
    cbn [fst snd instance world] in *.
    split; [reflexivity |]. split; [reflexivity |]. split; [| discriminate].
    intros _. split; [exact H1 |]. split; [exact H3 |]. split; [exact H2 |].
    rewrite H4. reflexivity.
Qed.

(** ** Concrete runs *)

Import Inputs.

Lemma upsert_keeps_the_map_well_formed_witness :
  well_formed []
  /\ exists m1 added,
       upsert [short_vector] [] = Normal m1
       /\ well_formed m1
       /\ keys m1 = (keys [] ++ added)%list.
Proof.
  assert (H : well_formed []) by (split; constructor).
  split; [exact H |].
  exact (@upsert_keeps_the_map_well_formed [short_vector] [] H).
Defined.

End StoreMore.

(* ================================================================== *)
(** * Further properties of the search route                            *)
(* ================================================================== *)

Module SearchMore.
Import JS JSFacts VectorDB VectorDBFacts Vocabulary.





Lemma search_spec (e : env) (k : Z) (fs : object) (st : state) :
  fst (search e k fs st)
  = Normal (filter (satisfies fs) (slice0 k (sort_desc score (scored_store e st))))
  /\ instance (snd (search e k fs st)) = Some (stored e st)
  /\ map entry (scored_store e st) = Map_values (stored e st)
  /\ (forall m, instance st = Some m -> stored e st = m).
Proof.
  unfold search, scored_store, stored, query.
  destruct (random_array e dimension (world st)) as [qe w1].
  destruct (StoreMore.getInstance_instance e {| instance := instance st; world := w1 |})
    as (Hinst & Hsame).
  destruct (getInstance e {| instance := instance st; world := w1 |}) as [db st1].
  cbn [fst snd instance] in *.
  pose proof (score_all_entries e (Map_values db) (world st1)) as Hent.
  destruct (score_all e (Map_values db) (world st1)) as [results w2].
  cbn [fst snd instance] in *.
  split; [reflexivity |]. split; [exact Hinst |]. split; [exact Hent |].
  intros m Hm. now apply Hsame.
Qed.

(** X10.  A search request never changes the map: on a process that has
    its instance, the instance after [POST] is the instance before it;
    and after a request that is not refused for its missing query, the
    process has an instance. *)
Theorem POST_leaves_the_map (e : env)
        (generateText : list scored -> string -> completion string)
        (b : body) (st : state) :
  (forall m, instance st = Some m ->
             instance (snd (POST e generateText b st)) = Some m)
  /\ ((forall error, fst (POST e generateText b st) <> BadRequest error) ->
      instance (snd (POST e generateText b st)) = Some (stored e st)).
Proof.
  unfold POST.
  set (k := match topK b with Some k => k | None => 5 end).
  set (fs := match filters b with Some fs => fs | None => [] end).
  destruct (search_spec e k fs st) as (Hres & Hinst & _ & Hsame).
  set (db := stored e st) in *. clearbody db.
  set (all := scored_store e st) in *. clearbody all.
  destruct (query_text b) as [[| c q] |].
  - split; [auto | intros H; exfalso; now apply (H "Query is required")].
  - destruct (search e k fs st) as [[found | m0] st1]; cbn [fst snd] in *;
      [| discriminate].
    destruct (generateText found (String c q)) as [answer | m0];
      unfold Date_now; cbn [fst snd instance]; rewrite ?Hinst.
    + split; [intros m Hm; f_equal; now apply Hsame | auto].
    + split; [intros m Hm; f_equal; now apply Hsame | auto].
  - split; [auto | intros H; exfalso; now apply (H "Query is required")].
Qed.






(** ** Concrete runs *)

Import Inputs MoreInputs EnvFacts.


End SearchMore.

(* ================================================================== *)
(** * Further properties of the hybrid search                           *)
(* ================================================================== *)

Module PineconeMore.
Import JS JSFacts Pinecone PineconeFacts.

Lemma map_base_rescore (sw kw : float) (kws : list string) (rs : list result) :
  map base (map (rescore sw kw kws) rs) = rs.
Proof.
  induction rs as [| r rs IH]; simpl; [reflexivity |].
  now rewrite IH.
Qed.

Section Search.
Variable embedQuery : string -> completion (list float).
Variable index_query : searchRequest -> completion (option (list scored_match)).

Local Abbreviation semanticSearch := (semanticSearch embedQuery index_query).
Local Abbreviation hybridSearch := (hybridSearch embedQuery index_query).

(** X12.  [hybridSearch] asks the index for [2 * topK] candidates with
    metadata and without a filter.  It throws exactly when the semantic
    search throws, with the same error: when the embedding of the query
    fails, whatever the index holds, and when the query of the index
    fails.  When the index answers without [matches], the result is
    empty. *)
Theorem hybridSearch_asks_and_fails (query : string) (kws : list string) (o : options) :
  let k := match topK o with Some k => k | None => 10 end in
  (forall m, hybridSearch query kws o = Throw m
             <-> semanticSearch query (Some (k * 2)) None None = Throw m)
  /\ (forall m, embedQuery query = Throw m -> hybridSearch query kws o = Throw m)
  /\ (forall v,
         embedQuery query = Normal v ->
         let request := {| vector := v; request_topK := k * 2;
                           includeMetadata := true; request_filter := None |} in
         (forall m, index_query request = Throw m -> hybridSearch query kws o = Throw m)
         /\ (index_query request = Normal None -> hybridSearch query kws o = Normal [])).
Proof.
  intros k. unfold Pinecone.hybridSearch. fold k. split; [| split].
  - intros m. destruct (semanticSearch query (Some (k * 2)) None None);
      split; intros H; try discriminate; injection H as ->; reflexivity.
  - intros m Hm. unfold Pinecone.semanticSearch. now rewrite Hm.
  - intros v Hv. unfold Pinecone.semanticSearch. rewrite Hv. simpl. split.
    + intros m Hm. now rewrite Hm.
    + intros Hm. rewrite Hm. unfold rerank. simpl. now destruct k.
Qed.

(** X13.  The results of [hybridSearch] are candidates of the semantic
    search, each at most once: together with some rest they make up the
    candidates; and for [topK >= 0] there are exactly
    [min(topK, number of candidates)] of them.  (This holds of every
    sort, whatever the scores are.) *)
Theorem hybridSearch_returns_candidates (query : string) (kws : list string)
        (o : options) (rs : list result) :
  let k := match topK o with Some k => k | None => 10 end in
  semanticSearch query (Some (k * 2)) None None = Normal rs ->
  exists out rest,
    hybridSearch query kws o = Normal out
    /\ Permutation (map base out ++ map base rest) rs
    /\ (0 <= k -> List.length out = Nat.min (Z.to_nat k) (List.length rs)).
Proof.
  intros k Hsem. unfold Pinecone.hybridSearch. fold k. rewrite Hsem.
  set (sw := match semanticWeight o with Some x => x | None => 0.7%float end).
  set (kw := match keywordWeight o with Some x => x | None => 0.3%float end).
  rewrite rerank_rescore.
  set (ranked := sort_by after (map (rescore sw kw kws) rs)).
  exists (slice0 k ranked), (skipn (List.length (slice0 k ranked)) ranked).
  split; [reflexivity |]. split.
  - rewrite <- map_app.
    assert (Hsplit : (slice0 k ranked ++ skipn (List.length (slice0 k ranked)) ranked)%list
                     = ranked).
    { unfold slice0. rewrite length_firstn.
      set (n := Z.to_nat _).
      destruct (Nat.le_gt_cases n (List.length ranked)).
      - rewrite Nat.min_l by assumption. apply firstn_skipn.
      - rewrite Nat.min_r by lia. rewrite firstn_all2 by lia.
        rewrite skipn_all. apply app_nil_r. }
    rewrite Hsplit. subst ranked.
    rewrite <- (map_base_rescore sw kw kws rs) at 2.
    apply Permutation_map, Permutation_sym, sort_by_perm.
  - intros Hk. rewrite slice0_length by exact Hk. subst ranked.
    now rewrite sort_by_length, length_map.
Qed.

End Search.

(** ** Concrete runs *)

Import Inputs.

Lemma hybridSearch_returns_candidates_witness :
  semanticSearch fixed_embedding remote_index "grace period" (Some (2 * 2)) None None
  = Normal (map to_result remote_matches)
  /\ exists out rest,
       hybridSearch fixed_embedding remote_index "grace period" ["GRACE"] default_options
       = Normal out
       /\ Permutation (map base out ++ map base rest) (map to_result remote_matches)
       /\ (0 <= 2 ->
           List.length out
           = Nat.min (Z.to_nat 2) (List.length (map to_result remote_matches))).
Proof.
  assert (Hsem : semanticSearch fixed_embedding remote_index "grace period"
                   (Some (2 * 2)) None None
                 = Normal (map to_result remote_matches)) by reflexivity.
  split; [exact Hsem |].
  exact (@hybridSearch_returns_candidates fixed_embedding remote_index "grace period"
           ["GRACE"] default_options (map to_result remote_matches) Hsem).
Defined.

End PineconeMore.

(* ================================================================== *)
(** * Further properties of the question processing                     *)
(* ================================================================== *)

Module MultiAIMore.
Import JS MultiAI MultiAIFacts Vocabulary EnvFacts.

(** X15.  The table and the dispatch on prefixes agree: the provider
    computed for a model id is always one of the five of [AI_PROVIDERS],
    and every model listed under a provider is dispatched to that
    provider and resolved to its own configuration. *)
Theorem listed_models_are_supported :
  (forall modelId, In (getProviderFromModel modelId) (map fst AI_PROVIDERS))
  /\ (forall providerName models modelId c,
         In (providerName, models) AI_PROVIDERS -> In (modelId, c) models ->
         getProviderFromModel modelId = providerName
         /\ getModelConfig modelId = Own c).
Proof.
  split.
  - intros modelId. unfold getProviderFromModel.
    repeat match goal with
           | |- context [if ?b then _ else _] => destruct b
           end; simpl; tauto.
  - intros providerName models modelId c Hp Hm.
    simpl in Hp.
    repeat (destruct Hp as [Hp | Hp]; [injection Hp as <- <-; simpl in Hm |]);
      try contradiction;
      repeat (destruct Hm as [Hm | Hm]; [injection Hm as <- <-; split; reflexivity |]);
      contradiction.
Qed.

Lemma assoc_In (A : Type) (k : string) (l : list (string * A)) (v : A) :
  assoc k l = Some v -> In (k, v) l.
Proof.
  induction l as [| [k0 v0] l IH]; simpl; [discriminate |].
  destruct (String.eqb_spec k0 k) as [-> |].
  - intros H. injection H as ->. now left.
  - intros H. right. now apply IH.
Qed.

(** No model of the table has a negative price. *)
Lemma listed_prices_are_not_negative (modelId : string) (c : modelConfig) :
  getModelConfig modelId = Own c -> (0 <= costPer1kTokens c)%Q.
Proof.
  unfold getModelConfig.
  destruct (assoc (getProviderFromModel modelId) AI_PROVIDERS) as [models |] eqn:Hp;
    [| discriminate].
  destruct (assoc modelId models) as [c0 |] eqn:Hm;
    [| destruct (existsb _ _); discriminate].
  intros H. injection H as <-.
  apply assoc_In in Hp. apply assoc_In in Hm.
  assert (Hall : Forall (fun pm => Forall (fun mc => (0 <= costPer1kTokens (snd mc))%Q)
                                          (snd pm)) AI_PROVIDERS).
  { unfold AI_PROVIDERS.
    repeat first [apply Forall_nil | apply Forall_cons];
      simpl; unfold Qle; simpl; lia. }
  rewrite Forall_forall in Hall. specialize (Hall _ Hp). simpl in Hall.
  rewrite Forall_forall in Hall. exact (Hall _ Hm).
Qed.

Section Service.
Variable e : env.
Variable templates :
  string -> string -> list value -> string -> string -> World ->
  completion response * World.
Variable documents : list value.
Variable o : options.

Local Abbreviation prov := (getProviderFromModel (model o)).
Local Abbreviation cfg := (getModelConfig (model o)).
Local Abbreviation produced := (produced e templates documents o).
Local Abbreviation produced_at := (produced_at e templates documents o).
Local Abbreviation processQuestions := (processQuestions e templates).

(** X16.  [processQuestions] rejects exactly when the model is
    unsupported; it then rejects at once, with the message
    [Multi-AI processing failed: Error: Unsupported model: <model>],
    having only read the clock once. *)
Theorem processQuestions_rejects_unsupported_models
        (qs : list value) (sched : list nat) (w : World) :
  (batch_mode o = true -> forall i, (i < List.length qs)%nat -> In i sched) ->
  ((exists m w', processQuestions qs documents o sched w = Settled (Throw m) w')
   <-> getModelConfig (model o) = Undefined)
  /\ (getModelConfig (model o) = Undefined ->
      processQuestions qs documents o sched w
      = Settled (Throw ("Multi-AI processing failed: Error: Unsupported model: "
                        ++ model o))
                {| reads := N.succ (reads w); draws := draws w |}).
Proof.
  intros Hsched.
  assert (Hun : getModelConfig (model o) = Undefined ->
                processQuestions qs documents o sched w
                = Settled (Throw ("Multi-AI processing failed: Error: Unsupported model: "
                                  ++ model o))
                          {| reads := N.succ (reads w); draws := draws w |}).
  { intros H. unfold MultiAI.processQuestions. simpl. now rewrite H. }
  split; [| exact Hun]. split.
  - intros (m & w' & Hrej).
    destruct (getModelConfig (model o)) eqn:Hcfg; [| | reflexivity]; exfalso.
    + destruct (@processQuestions_produced e templates documents o qs sched w)
        as (s & w2 & Hrun & _); [congruence | exact Hsched | congruence].
    + destruct (@processQuestions_produced e templates documents o qs sched w)
        as (s & w2 & Hrun & _); [congruence | exact Hsched | congruence].
  - intros H. rewrite (Hun H). eauto.
Qed.

(** ** Records *)

Lemma estimateTokens_bounds (text : string) :
  len text <= 4 * estimateTokens text < len text + 4.
Proof.
  unfold estimateTokens.
  pose proof (Z.div_mod (len text + 3) 4 ltac:(lia)).
  pose proof (Z.mod_pos_bound (len text + 3) 4 ltac:(lia)). lia.
Qed.

Lemma append_empty (s : string) : s ++ "" = s.
Proof. induction s as [| c s IH]; simpl; [reflexivity | now rewrite IH]. Qed.

Lemma produced_at_produced (i : nat) (q : value) (r : answer_record) :
  produced_at i q r -> produced q r.
Proof. intros (t0 & w & ->). now exists i, t0, w. Qed.

(** What every record of a call with the index [i] carries.  The cost
    estimate of a regular record is [tokens * (price / 1000)] as the
    engine computes it. *)
Lemma produced_at_record (i : nat) (q : value) (r : answer_record) :
  produced_at i q r ->
  id r = "q_" ++ session_id o ++ "_" ++ nat_to_string i
         ++ (if error r then "_error" else "")
  /\ model_used r = model o
  /\ provider r = prov
  /\ 0 <= tokens_used r
  /\ (error r = true -> tokens_used r = 0 /\ cost_estimate r = Some 0%Q)
  /\ (forall c, cfg = Own c ->
        exists cost, cost_estimate r = Some cost
                     /\ (error r = false ->
                         cost = times e (inject_Z (tokens_used r))
                                      (divided e (literal e (costPer1kTokens c))
                                               (inject_Z 1000)))
                     /\ (rounds_to_nearest e -> (0 <= cost)%Q)).
Proof.
  intros (t0 & w & ->). unfold resume_question.
  destruct (generateContextualResponse templates q (domain o) documents prov (model o) w)
    as [[resp | err] w1].
  - assert (Hpos : 0 <= estimateTokens
                         ((match q with JStr s => s | _ => "" end)
                          ++ r_answer resp ++ r_reasoning resp)).
    { pose proof (estimateTokens_bounds
                    ((match q with JStr s => s | _ => "" end)
                     ++ r_answer resp ++ r_reasoning resp)).
      pose proof (ChunkerFacts.len_nonneg
                    ((match q with JStr s => s | _ => "" end)
                     ++ r_answer resp ++ r_reasoning resp)). lia. }
    assert (Hcost : forall c, cfg = Own c -> rounds_to_nearest e ->
              (0 <= times e (inject_Z (estimateTokens
                                         ((match q with JStr s => s | _ => "" end)
                                          ++ r_answer resp ++ r_reasoning resp)))
                          (divided e (literal e (costPer1kTokens c))
                                   (inject_Z 1000)))%Q).
    { intros c Hc Hnear. unfold times, divided.
      apply (round_nonneg Hnear). apply Qmult_le_0_compat.
      - unfold Qle; simpl; lia.
      - apply (round_nonneg Hnear). apply Qle_shift_div_l; [reflexivity |].
        rewrite Qmult_0_l. apply (literal_nonneg Hnear).
        now apply listed_prices_are_not_negative with (modelId := model o). }
    destruct (advanced_mode o); cbn [fst id model_used provider tokens_used error
                                     cost_estimate].
    + repeat split; try exact Hpos; try discriminate.
      * now rewrite append_empty.
      * intros c Hc. rewrite Hc. eexists. split; [reflexivity |].
        split; [reflexivity | now apply Hcost].
    + repeat split; try exact Hpos; try discriminate.
      * now rewrite append_empty.
      * intros c Hc. rewrite Hc. eexists. split; [reflexivity |].
        split; [reflexivity | now apply Hcost].
  - cbn [fst id model_used provider tokens_used error cost_estimate].
    repeat split; try reflexivity; try lia.
    + intros c _. exists 0%Q. split; [reflexivity |].
      split; [discriminate | intros _; apply Qle_refl].
Qed.

Local Abbreviation slot_at := (slot_at e templates documents o).

Lemma launch_indexed (qs : list value) :
  forall first w i q,
    nth_error qs i = Some q ->
    exists t, nth_error (fst (launch e qs first w)) i = Some t
              /\ task_index t = (first + i)%nat /\ task_question t = q.
Proof.
  induction qs as [| q0 qs IH]; intros first w i q Hi; [destruct i; discriminate |].
  simpl.
  specialize (IH (S first) {| reads := N.succ (reads w); draws := draws w |}).
  destruct (launch e qs (S first) _) as [ts w2]. simpl in *.
  destruct i as [| i]; simpl in *.
  - injection Hi as <-. eexists. split; [reflexivity |]. simpl. split; [lia | reflexivity].
  - destruct (IH i q Hi) as (t & Ht & Hidx & Hq).
    exists t. split; [exact Ht |]. split; [lia | exact Hq].
Qed.

Lemma complete_indexed (tasks : list task) (sched : list nat) :
  forall slots w,
    Forall2 slot_at tasks slots ->
    Forall2 slot_at tasks
            (fst (complete e templates documents o prov cfg tasks sched slots w)).
Proof.
  induction sched as [| i sched IH]; intros slots w Hok; simpl; [exact Hok |].
  destruct (nth_error tasks i) as [t |] eqn:Ht; [| now apply IH].
  destruct (nth_error slots i) as [[r |] |] eqn:Hs; try now apply IH.
  destruct (resume_question e templates (task_question t) documents o
              (task_index t) prov cfg (task_start t) w) as [r w1] eqn:Hr.
  apply IH. apply Forall2_store with (t := t); [exact Hok | exact Ht |].
  simpl. exists (task_start t), w. now rewrite Hr.
Qed.

Lemma sequential_indexed (qs : list value) :
  forall first w i q,
    nth_error qs i = Some q ->
    exists r,
      nth_error (fst (sequential e templates documents o prov cfg qs first w)) i = Some r
      /\ produced_at (first + i) q r.
Proof.
  induction qs as [| q0 qs IH]; intros first w i q Hi; [destruct i; discriminate |].
  simpl.
  set (w1 := {| reads := N.succ (reads w); draws := draws w |}).
  destruct (resume_question e templates q0 documents o first prov cfg
              (dateNow e (reads w)) w1) as [r w2] eqn:Hr.
  specialize (IH (S first) w2).
  destruct (sequential e templates documents o prov cfg qs (S first) w2) as [rs w3].
  simpl in *. destruct i as [| i]; simpl in *.
  - injection Hi as <-. exists r. split; [reflexivity |].
    rewrite Nat.add_0_r. exists (dateNow e (reads w)), w1. now rewrite Hr.
  - destruct (IH i q Hi) as (r' & Hr' & Hp). exists r'. split; [exact Hr' |].
    now replace (first + S i)%nat with (S first + i)%nat by lia.
Qed.

(** Both modes: the session that [processQuestions] fulfils with. *)
Lemma processQuestions_session (qs : list value) (sched : list nat) (w : World) :
  getModelConfig (model o) <> Undefined ->
  (batch_mode o = true -> forall i, (i < List.length qs)%nat -> In i sched) ->
  exists s w',
    processQuestions qs documents o sched w = Settled (Normal s) w'
    /\ List.length (results s) = List.length qs
    /\ (forall i q, nth_error qs i = Some q ->
                    exists r, nth_error (results s) i = Some r /\ produced_at i q r)
    /\ success s = true
    /\ total_questions (metadata s) = List.length qs
    /\ total_tokens (metadata s) = sum_tokens (results s)
    /\ total_cost (metadata s) = sum_cost e (results s)
    /\ session_model (metadata s) = model o
    /\ session_provider (metadata s) = prov
    /\ session (metadata s) = session_id o.
Proof.
  intros Hcfg Hsched. unfold MultiAI.processQuestions.
  set (w0 := snd (Date_now e w)). simpl.
  assert (Hbody :
    exists s w',
      (if batch_mode o
       then let '(tasks, w1) := launch e qs 0 w0 in
            let '(slots, w2) :=
              complete e templates documents o prov cfg tasks sched
                       (map (fun _ => None) tasks) w1 in
            match all_filled slots with
            | Some batchResults =>
                finish e qs o prov (dateNow e (reads w)) batchResults w2
            | None => Pending
            end
       else let '(rs, w1) := sequential e templates documents o prov cfg qs 0 w0 in
            finish e qs o prov (dateNow e (reads w)) rs w1)
      = Settled (Normal s) w'
      /\ List.length (results s) = List.length qs
      /\ (forall i q, nth_error qs i = Some q ->
                      exists r, nth_error (results s) i = Some r /\ produced_at i q r)
      /\ success s = true
      /\ total_questions (metadata s) = List.length qs
      /\ total_tokens (metadata s) = sum_tokens (results s)
      /\ total_cost (metadata s) = sum_cost e (results s)
      /\ session_model (metadata s) = model o
      /\ session_provider (metadata s) = prov
      /\ session (metadata s) = session_id o).
  { destruct (batch_mode o) eqn:Hmode.
    - pose proof (launch_questions e qs 0 w0) as Hq.
      pose proof (launch_indexed qs 0 w0) as Hidx.
      destruct (launch e qs 0 w0) as [tasks w1]. simpl in Hq, Hidx.
      assert (Hinit : Forall2 (MultiAI.slot_ok e templates documents o) tasks
                              (map (fun _ => None) tasks)).
      { clear. induction tasks; simpl; constructor; simpl; auto. }
      assert (Hinit' : Forall2 slot_at tasks (map (fun _ => None) tasks)).
      { clear. induction tasks; simpl; constructor; simpl; auto. }
      destruct (complete_slots sched w1 Hinit) as (_ & _ & Hfill).
      pose proof (complete_indexed sched w1 Hinit') as Hok.
      destruct (complete e templates documents o prov cfg tasks sched
                         (map (fun _ => None) tasks) w1) as [slots w2].
      simpl in Hok, Hfill.
      destruct (@all_filled_Forall2 _ _
                  (fun t r => produced_at (task_index t) (task_question t) r)
                  tasks slots Hok) as (rs & Hrs & HR).
      { intros i Hi. apply Hfill; [| exact Hi].
        apply Hsched; [reflexivity |]. rewrite <- Hq, length_map. exact Hi. }
      rewrite Hrs. unfold finish. simpl. eexists _, _. split; [reflexivity |].
      simpl. repeat split.
      + rewrite <- (Forall2_length HR), <- Hq. now rewrite length_map.
      + intros i q Hi. destruct (Hidx i q Hi) as (t & Ht & Hti & Htq).
        destruct (Forall2_nth_error HR i Ht) as (r & Hr & Hp).
        exists r. split; [exact Hr |]. now rewrite Hti, Htq in Hp.
    - pose proof (sequential_indexed qs 0 w0) as Hidx.
      pose proof (sequential_produced e templates documents o qs 0 w0) as HR.
      destruct (sequential e templates documents o prov cfg qs 0 w0) as [rs w1].
      unfold finish. simpl in *. eexists _, _. split; [reflexivity |].
      simpl. repeat split.
      + symmetry. exact (Forall2_length HR).
      + exact Hidx. }
  destruct (getModelConfig (model o)); [exact Hbody | exact Hbody | congruence].
Qed.

(** X17.  In both modes, the record at position [i] of the results is
    the one of question [i]: it carries that question, the id
    [q_<session>_<i>] (with the suffix [_error] exactly when it is an
    error record), the model of the request and its provider. *)
Theorem records_carry_their_position (qs : list value) (sched : list nat) (w : World) :
  getModelConfig (model o) <> Undefined ->
  (batch_mode o = true -> forall i, (i < List.length qs)%nat -> In i sched) ->
  exists s w',
    processQuestions qs documents o sched w = Settled (Normal s) w'
    /\ forall i q, nth_error qs i = Some q ->
         exists r, nth_error (results s) i = Some r
                   /\ question r = q
                   /\ id r = "q_" ++ session_id o ++ "_" ++ nat_to_string i
                             ++ (if error r then "_error" else "")
                   /\ model_used r = model o
                   /\ provider r = getProviderFromModel (model o).
Proof.
  intros Hcfg Hsched.
  destruct (processQuestions_session qs sched w Hcfg Hsched)
    as (s & w' & Hrun & _ & Hall & _).
  exists s, w'. split; [exact Hrun |]. intros i q Hi.
  destruct (Hall i q Hi) as (r & Hr & Hp).
  destruct (produced_at_record Hp) as (Hid & Hm & Hpr & _).
  exists r. repeat split; try assumption.
  apply (@produced_question e templates documents o). now apply produced_at_produced with (i := i).
Qed.

Lemma sum_tokens_from (rs : list answer_record) :
  forall a, fold_left (fun sum r => sum + tokens_used r) rs a = a + tokens_of rs.
Proof.
  unfold tokens_of. induction rs as [| r rs IH]; intros a; simpl; [lia |].
  rewrite IH. lia.
Qed.

Lemma sum_cost_from (rs : list answer_record) :
  Forall (fun r => exists cost, cost_estimate r = Some cost
                                /\ (rounds_to_nearest e -> (0 <= cost)%Q)) rs ->
  forall a,
    exists total,
      fold_left (fun sum r => match sum, cost_estimate r with
                              | Some s, Some c => Some (plus e s c)
                              | _, _ => None
                              end) rs (Some a) = Some total
      /\ (rounds_to_nearest e -> (0 <= a)%Q -> (0 <= total)%Q).
Proof.
  induction 1 as [| r rs (cost & Hc & Hcost) Hrs IH]; intros a; simpl.
  - exists a. split; [reflexivity | auto].
  - rewrite Hc. destruct (IH (plus e a cost)) as (total & Ht & Htotal).
    exists total. split; [exact Ht |]. intros Hnear Ha. apply Htotal; [exact Hnear |].
    unfold plus. apply (round_nonneg Hnear).
    specialize (Hcost Hnear). lra.
Qed.

(** X18.  The aggregates of a session, in both modes, for a model of the
    table: [success] is true, [total_questions] is the number of
    questions and of records, [total_tokens] is the sum of the
    [tokens_used] of the records and is not negative, and error records
    count for no tokens and no cost.  The cost estimate of every other
    record is [tokens_used * (costPer1kTokens / 1000)] as the engine
    computes it, with a rounding after the division and after the
    product; [total_cost] is a number, the sum of the estimates taken
    from left to right with a rounding after every addition (it is in
    general not [total_tokens] times the price), and is not negative
    when the engine rounds to nearest. *)
Theorem session_totals (qs : list value) (sched : list nat) (w : World)
        (c : modelConfig) :
  getModelConfig (model o) = Own c ->
  (batch_mode o = true -> forall i, (i < List.length qs)%nat -> In i sched) ->
  exists s w' cost,
    processQuestions qs documents o sched w = Settled (Normal s) w'
    /\ success s = true
    /\ total_questions (metadata s) = List.length qs
    /\ List.length (results s) = List.length qs
    /\ total_tokens (metadata s) = tokens_of (results s)
    /\ 0 <= total_tokens (metadata s)
    /\ Forall (fun r =>
                 0 <= tokens_used r
                 /\ (error r = true ->
                     tokens_used r = 0 /\ cost_estimate r = Some 0%Q)
                 /\ (error r = false ->
                     cost_estimate r
                     = Some (times e (inject_Z (tokens_used r))
                                   (divided e (literal e (costPer1kTokens c))
                                            (inject_Z 1000)))))
              (results s)
    /\ total_cost (metadata s) = Some cost
    /\ Some cost
       = fold_left (fun sum r => match sum, cost_estimate r with
                                 | Some s, Some c => Some (plus e s c)
                                 | _, _ => None
                                 end) (results s) (Some 0%Q)
    /\ (rounds_to_nearest e -> (0 <= cost)%Q).
Proof.
  intros Hcfg Hsched.
  destruct (processQuestions_session qs sched w ltac:(congruence) Hsched)
    as (s & w' & Hrun & Hlen & Hall & Hok & Hn & Htok & Hcost & _).
  assert (Hrecords :
    Forall (fun r => 0 <= tokens_used r
                     /\ (error r = true ->
                         tokens_used r = 0 /\ cost_estimate r = Some 0%Q)
                     /\ exists cost,
                          cost_estimate r = Some cost
                          /\ (error r = false ->
                              cost = times e (inject_Z (tokens_used r))
                                           (divided e (literal e (costPer1kTokens c))
                                                    (inject_Z 1000)))
                          /\ (rounds_to_nearest e -> (0 <= cost)%Q))
           (results s)).
  { apply Forall_forall. intros r Hr.
    apply In_nth_error in Hr. destruct Hr as [i Hi].
    assert (Hlt : (i < List.length qs)%nat).
    { rewrite <- Hlen. apply nth_error_Some. congruence. }
    destruct (nth_error qs i) as [q |] eqn:Hq;
      [| apply nth_error_None in Hq; lia].
    destruct (Hall i q Hq) as (r' & Hr' & Hp).
    assert (r' = r) by congruence. subst r'.
    destruct (produced_at_record Hp) as (_ & _ & _ & Hpos & Herr & Hc).
    split; [exact Hpos |]. split; [exact Herr | now apply Hc]. }
  destruct (@sum_cost_from (results s)) with (a := 0%Q) as (total & Htotal & Hnonneg).
  { eapply Forall_impl; [| exact Hrecords].
    intros r (_ & _ & cost & Hc & _ & Hc0). exists cost. auto. }
  assert (Hsum : sum_tokens (results s) = tokens_of (results s)).
  { unfold sum_tokens. rewrite sum_tokens_from. lia. }
  exists s, w', total. split; [exact Hrun |]. split; [exact Hok |].
  split; [exact Hn |]. split; [exact Hlen |]. split; [now rewrite Htok |].
  split.
  { rewrite Htok, Hsum. clear - Hrecords. unfold tokens_of.
    induction Hrecords as [| r rs (Hpos & _) _ IH]; simpl; lia. }
  split.
  { eapply Forall_impl; [| exact Hrecords].
    intros r (H1 & H2 & cost & Hc & Hform & _).
    split; [exact H1 |]. split; [exact H2 |].
    intros Hreg. rewrite Hc. f_equal. now apply Hform. }
  split; [rewrite Hcost; exact Htotal |].
  split; [symmetry; exact Htotal |].
  intros Hnear. apply Hnonneg; [exact Hnear | apply Qle_refl].
Qed.

End Service.

(** ** The advanced analysis *)

(** X19.  When [Math.random] returns binary64 numbers of [0, 1) and the
    engine rounds to nearest, the advanced analysis has 3 to 7 cross
    references and 2 to 4 validation checks; every confidence factor and
    the quality score [c + Math.random() * d] lies between [c] and
    [c + d] as the engine computes them, both bounds included (the upper
    one is reached: [0.9 + 0.1] and [0.92 + 0.08] are 1); the levels are
    [high] or [medium]; and building the analysis reads the generator
    ten times and never the clock. *)
Theorem advanced_analysis_in_range (e : env) (prov : string) (w : World) :
  unit_doubles e ->
  rounds_to_nearest e ->
  let a := fst (generateAdvancedAnalysis e prov w) in
  let between c x d :=
    (literal e c <= x)%Q /\ (x <= plus e (literal e c) (literal e d))%Q in
  3 <= cross_references a <= 7
  /\ 2 <= validation_checks a <= 4
  /\ between (9 # 10)%Q (source_reliability a) (1 # 10)%Q
  /\ between (85 # 100)%Q (context_relevance a) (1 # 10)%Q
  /\ between (88 # 100)%Q (domain_expertise a) (1 # 10)%Q
  /\ between (92 # 100)%Q (regulatory_alignment a) (8 # 100)%Q
  /\ between (9 # 10)%Q (provider_accuracy a) (8 # 100)%Q
  /\ between (87 # 100)%Q (quality_score a) (1 # 10)%Q
  /\ In (question_complexity a) ["high"; "medium"]
  /\ In (domain_specificity a) ["high"; "medium"]
  /\ snd (generateAdvancedAnalysis e prov w)
     = {| reads := reads w; draws := (draws w + 10)%N |}.
Proof.
  intros Hunit Hnear a between. subst a between.
  unfold generateAdvancedAnalysis, Math_random.
  cbn [fst snd reads draws cross_references validation_checks source_reliability
       context_relevance domain_expertise regulatory_alignment provider_accuracy
       quality_score question_complexity domain_specificity].
  assert (Hrange : forall n, (0 <= random e n)%Q /\ (random e n <= 1)%Q).
  { intros n. destruct (Hunit n) as [H0 H1]. split; [exact H0 | lra]. }
  assert (Hoff : forall c d n, (0 <= d)%Q ->
            (literal e c <= plus e (literal e c) (times e (random e n) (literal e d)))%Q
            /\ (plus e (literal e c) (times e (random e n) (literal e d))
                <= plus e (literal e c) (literal e d))%Q).
  { intros c d n Hd. destruct (Hrange n). now apply offset_range. }
  set (d := draws w).
  split.
  { destruct (Hunit (N.succ (N.succ (N.succ (N.succ (N.succ (N.succ (N.succ d))))))))
      as [H0 H1].
    pose proof (@floor_range e Hnear _ 5 H0 H1 ltac:(lia)) as H.
    change (inject_Z 5) with 5%Q in H. lia. }
  split.
  { destruct (Hunit (N.succ (N.succ (N.succ (N.succ (N.succ (N.succ (N.succ
                (N.succ d))))))))) as [H0 H1].
    pose proof (@floor_range e Hnear _ 3 H0 H1 ltac:(lia)) as H.
    change (inject_Z 3) with 3%Q in H. lia. }
  do 6 (split; [apply Hoff; unfold Qle; simpl; lia |]).
  split; [unfold pick; destruct (negb _); simpl; tauto |].
  split; [unfold pick; destruct (negb _); simpl; tauto |].
  f_equal. lia.
Qed.

(** ** Concrete runs *)

Import Inputs MoreInputs EnvFacts.

Lemma processQuestions_rejects_unsupported_models_witness :
  (batch_mode unlisted_model = true ->
   forall i, (i < List.length three_questions)%nat -> In i last_first)
  /\ getModelConfig (model unlisted_model) = Undefined
  /\ processQuestions midnight canned three_questions [] unlisted_model last_first fresh
     = Settled (Throw ("Multi-AI processing failed: Error: Unsupported model: "
                       ++ model unlisted_model))
               {| reads := N.succ (reads fresh); draws := draws fresh |}.
Proof.
  assert (Hcfg : getModelConfig (model unlisted_model) = Undefined) by reflexivity.
  split; [exact (fun _ => last_first_covers) |]. split; [exact Hcfg |].
  exact (proj2 (@processQuestions_rejects_unsupported_models midnight canned []
                  unlisted_model three_questions last_first fresh
                  (fun _ => last_first_covers)) Hcfg).
Defined.

Lemma records_carry_their_position_witness :
  getModelConfig (model batch_options) <> Undefined
  /\ (batch_mode batch_options = true ->
      forall i, (i < List.length three_questions)%nat -> In i last_first)
  /\ exists s w',
       processQuestions midnight canned three_questions [] batch_options last_first fresh
       = Settled (Normal s) w'
       /\ forall i q, nth_error three_questions i = Some q ->
            exists r, nth_error (results s) i = Some r
                      /\ question r = q
                      /\ id r = "q_" ++ session_id batch_options ++ "_" ++ nat_to_string i
                                ++ (if error r then "_error" else "")
                      /\ model_used r = model batch_options
                      /\ provider r = getProviderFromModel (model batch_options).
Proof.
  assert (Hcfg : getModelConfig (model batch_options) <> Undefined)
    by (vm_compute; discriminate).
  split; [exact Hcfg |]. split; [exact (fun _ => last_first_covers) |].
  exact (@records_carry_their_position midnight canned [] batch_options three_questions
           last_first fresh Hcfg (fun _ => last_first_covers)).
Defined.

Lemma session_totals_witness :
  getModelConfig (model batch_options) = Own gpt4
  /\ (batch_mode batch_options = true ->
      forall i, (i < List.length three_questions)%nat -> In i last_first)
  /\ exists s w',
       processQuestions midnight canned three_questions [] batch_options last_first fresh
       = Settled (Normal s) w'
       /\ success s = true
       /\ total_questions (metadata s) = List.length three_questions
       /\ List.length (results s) = List.length three_questions
       /\ total_tokens (metadata s) = tokens_of (results s).
Proof.
  assert (Hcfg : getModelConfig (model batch_options) = Own gpt4) by reflexivity.
  split; [exact Hcfg |]. split; [exact (fun _ => last_first_covers) |].
  destruct (@session_totals midnight canned [] batch_options three_questions last_first
              fresh gpt4 Hcfg (fun _ => last_first_covers))
    as (s & w' & cost & Hrun & Hok & Hn & Hlen & Htok & _).
  exists s, w'. split; [exact Hrun |]. split; [exact Hok |].
  split; [exact Hn |]. split; [exact Hlen | exact Htok].
Defined.

Lemma advanced_analysis_in_range_witness :
  unit_doubles midnight
  /\ rounds_to_nearest midnight
  /\ 3 <= cross_references (fst (generateAdvancedAnalysis midnight "openai" fresh)) <= 7.
Proof.
  split; [exact midnight_unit_doubles |].
  split; [exact midnight_rounds_to_nearest |].
  exact (proj1 (@advanced_analysis_in_range midnight "openai" fresh
                  midnight_unit_doubles midnight_rounds_to_nearest)).
Defined.

End MultiAIMore.

(* ================================================================== *)
(** * Further properties of the document processor                      *)
(* ================================================================== *)

Module ProcessorMore.
Import JS Processor Vocabulary EnvFacts.

(** ** Built-ins *)

Lemma split_from_length (s : string) :
  forall in_space,
    (1 <= List.length (split_from s in_space) <= String.length s + 1)%nat.
Proof.
  induction s as [| c s IH]; intros in_space; simpl; [lia |].
  destruct (is_space c).
  - destruct in_space; simpl; specialize (IH true); lia.
  - specialize (IH false). destruct (split_from s false); simpl in *; lia.
Qed.

Lemma In_existsb_eqb (x : string) (l : list string) :
  existsb (String.eqb x) l = true <-> In x l.
Proof.
  rewrite existsb_exists. split.
  - intros (y & Hy & Heq). apply String.eqb_eq in Heq. now subst.
  - intros H. exists x. split; [exact H | apply String.eqb_refl].
Qed.









Lemma by_domain_cases (A : Type) (insurance legal hr : A) (domain : string) :
  (In domain Chunker.inherited_names -> by_domain insurance legal hr domain = None)
  /\ (~ In domain Chunker.inherited_names ->
      exists x, by_domain insurance legal hr domain = Some x
                /\ In x [insurance; legal; hr]
                /\ (domain <> "legal" -> domain <> "hr" -> x = insurance)).
Proof.
  unfold by_domain. split.
  - intros Hin.
    assert (Hno : forall d, In d ["insurance"; "legal"; "hr"] -> domain <> d).
    { intros d Hd ->. revert Hin Hd. clear. unfold Chunker.inherited_names. simpl.
      intuition congruence. }
    destruct (String.eqb_spec domain "insurance"); [exfalso; apply (Hno domain); simpl; auto |].
    destruct (String.eqb_spec domain "legal"); [exfalso; apply (Hno domain); simpl; auto |].
    destruct (String.eqb_spec domain "hr"); [exfalso; apply (Hno domain); simpl; auto |].
    apply In_existsb_eqb in Hin. now rewrite Hin.
  - intros Hout.
    destruct (String.eqb_spec domain "insurance");
      [eexists; split; [reflexivity | simpl; auto] |].
    destruct (String.eqb_spec domain "legal");
      [eexists; split; [reflexivity | simpl; split; [auto | congruence]] |].
    destruct (String.eqb_spec domain "hr");
      [eexists; split; [reflexivity | simpl; split; [auto | congruence]] |].
    destruct (existsb (String.eqb domain) Chunker.inherited_names) eqn:Hin.
    + apply In_existsb_eqb in Hin. contradiction.
    + eexists; split; [reflexivity | simpl; auto].
Qed.

(** ** The analysis helpers *)

(** X20.  A domain that is no key of the tables and no inherited
    property name is analysed as [insurance]: its topics, its
    compliance indicators and its risk factors are those of the
    insurance tables. *)
Theorem unknown_domains_fall_back_to_insurance (content domain : string) :
  ~ In domain Chunker.inherited_names ->
  domain <> "legal" -> domain <> "hr" ->
  extractKeyTopics content domain = extractKeyTopics content "insurance"
  /\ checkCompliance content domain = checkCompliance content "insurance"
  /\ identifyRiskFactors content domain = identifyRiskFactors content "insurance".
Proof.
  intros Hout Hl Hh.
  unfold extractKeyTopics, checkCompliance, identifyRiskFactors,
    domainTopics, compliancePatterns, riskPatterns.
  repeat split.
  - match goal with |- context [by_domain ?i ?l ?h domain] =>
      destruct (proj2 (by_domain_cases i l h domain) Hout) as (x & -> & _ & ->); auto end.
  - match goal with |- context [by_domain ?i ?l ?h domain] =>
      destruct (proj2 (by_domain_cases i l h domain) Hout) as (x & -> & _ & ->); auto end.
  - match goal with |- context [by_domain ?i ?l ?h domain] =>
      destruct (proj2 (by_domain_cases i l h domain) Hout) as (x & -> & _ & ->); auto end.
Qed.


Lemma exceeds_spec (a b : Z) : exceeds a b = true <-> 3 * b < 2 * a.
Proof.
  unfold exceeds. rewrite negb_true_iff, <- not_true_iff_false, Qle_bool_iff.
  unfold Qle, Qmult, inject_Z. cbn [Qnum Qden]. lia.
Qed.

(** X22.  The sentiment of a text, from the numbers [p] and [n] of its words
    that contain a positive and a negative term: [positive] when
    [2p > 3n], [negative] when [2n > 3p], [neutral] otherwise; the two
    tests exclude each other, and the case of the letters plays no
    role. *)
Theorem sentiment_thresholds (content : string) :
  let words := split_spaces (toLowerCase content) in
  let p := count_words positiveWords words in
  let n := count_words negativeWords words in
  (analyzeSentiment content = "positive" <-> 3 * n < 2 * p)
  /\ (analyzeSentiment content = "negative" <-> 3 * p < 2 * n)
  /\ (analyzeSentiment content = "neutral" <-> 2 * p <= 3 * n /\ 2 * n <= 3 * p)
  /\ analyzeSentiment (toLowerCase content) = analyzeSentiment content.
Proof.
  intros words p n.
  assert (Hp : 0 <= p) by (subst p; unfold count_words; lia).
  assert (Hn : 0 <= n) by (subst n; unfold count_words; lia).
  split; [| split; [| split]].
  4: unfold analyzeSentiment; now rewrite StoreMore.toLowerCase_idempotent.
  all: unfold analyzeSentiment; fold words; fold p; fold n.
  all: pose proof (exceeds_spec p n) as H1; pose proof (exceeds_spec n p) as H2.
  all: destruct (exceeds p n); destruct (exceeds n p).
  all: split; intros H; try discriminate; try reflexivity; try lia.
  all: try (destruct H1 as [H1 _]; specialize (H1 eq_refl)).
  all: try (destruct H2 as [H2 _]; specialize (H2 eq_refl)).
  all: try lia.
  all: try (destruct H1 as [_ H1]; try (assert (false = true) by (apply H1; lia)); discriminate).
  all: try (destruct H2 as [_ H2]; try (assert (false = true) by (apply H2; lia)); discriminate).
Qed.

(** ** Metadata and embeddings *)

(** X23.  The metadata of a text: at least one word is counted, even in
    the empty text, and at most one more than there are characters; the
    page estimate is the word count divided by 250 and rounded up; the
    character count is the length.  When [Math.random] returns binary64
    numbers of [0, 1) and the engine rounds to nearest, every quality
    metric [c + Math.random() * d] lies between [c] and [c + d] as the
    engine computes them, both bounds included ([0.8 + 0.15] is reached
    by the completeness score).  The clock is read once and the
    generator three times. *)
Theorem extractMetadata_ranges (e : env) (file : File) (content domain model : string)
        (w : World) :
  unit_doubles e ->
  rounds_to_nearest e ->
  let m := fst (extractMetadata e file content domain model w) in
  let between c x d :=
    (literal e c <= x)%Q /\ (x <= plus e (literal e c) (literal e d))%Q in
  1 <= word_count m <= len content + 1
  /\ 250 * (estimated_pages m - 1) < word_count m <= 250 * estimated_pages m
  /\ character_count m = len content
  /\ between (7 # 10)%Q (readability_score m) (2 # 10)%Q
  /\ between (6 # 10)%Q (complexity_score m) (3 # 10)%Q
  /\ between (8 # 10)%Q (completeness_score m) (15 # 100)%Q
  /\ snd (extractMetadata e file content domain model w)
     = {| reads := N.succ (reads w); draws := (draws w + 3)%N |}.
Proof.
  intros Hunit Hnear m between. subst m between.
  unfold extractMetadata, Date_toISOString, Date_now, Math_random.
  cbn [fst snd reads draws word_count estimated_pages character_count
       readability_score complexity_score completeness_score].
  pose proof (split_from_length content false) as Hlen.
  fold (split_spaces content) in Hlen.
  set (wc := Z.of_nat (List.length (split_spaces content))).
  assert (Hwc : 1 <= wc <= len content + 1) by (subst wc; unfold len; lia).
  assert (Hoff : forall c d n, (0 <= d)%Q ->
            (literal e c <= plus e (literal e c) (times e (random e n) (literal e d)))%Q
            /\ (plus e (literal e c) (times e (random e n) (literal e d))
                <= plus e (literal e c) (literal e d))%Q).
  { intros c d n Hd. destruct (Hunit n) as [H0 H1].
    apply (offset_range Hnear); [exact H0 | lra | exact Hd]. }
  pose proof (Z.div_mod (wc + 249) 250 ltac:(lia)) as Hdiv.
  pose proof (Z.mod_pos_bound (wc + 249) 250 ltac:(lia)) as Hmod.
  split; [exact Hwc |]. split; [lia |]. split; [reflexivity |].
  do 3 (split; [apply Hoff; unfold Qle; simpl; lia |]).
  f_equal. lia.
Qed.

Lemma mock_embedding_spec (e : env) (n : nat) :
  unit_interval e ->
  forall w,
    List.length (fst (mock_embedding e n w)) = n
    /\ Forall (fun x => (- (1) <= x)%Q /\ (x < 1)%Q) (fst (mock_embedding e n w))
    /\ snd (mock_embedding e n w)
       = {| reads := reads w; draws := (draws w + N.of_nat n)%N |}.
Proof.
  intros Hunit. induction n as [| n IH]; intros w.
  - simpl. repeat split; [constructor |]. destruct w; simpl. f_equal. lia.
  - cbn [mock_embedding]. unfold Math_random.
    specialize (IH {| reads := reads w; draws := N.succ (draws w) |}).
    destruct (mock_embedding e n {| reads := reads w; draws := N.succ (draws w) |})
      as [rest w2].
    cbn [fst snd reads draws] in *. destruct IH as (Hlen & Hall & Hw).
    split; [simpl; congruence |]. split.
    + constructor; [| exact Hall]. destruct (Hunit (draws w)). split; lra.
    + rewrite Hw. f_equal. lia.
Qed.

(** X24.  One embedding per chunk, each of 1536 components in [-1, 1) under
    the contract of [Math.random], at the cost of 1536 draws per
    chunk. *)
Theorem generateEmbeddings_shape (e : env) (chunks : list Chunker.chunk) :
  unit_interval e ->
  forall w,
    List.length (fst (generateEmbeddings e chunks w)) = List.length chunks
    /\ Forall (fun embedding =>
                 List.length embedding = 1536%nat
                 /\ Forall (fun x => (- (1) <= x)%Q /\ (x < 1)%Q) embedding)
              (fst (generateEmbeddings e chunks w))
    /\ snd (generateEmbeddings e chunks w)
       = {| reads := reads w;
            draws := (draws w + 1536 * N.of_nat (List.length chunks))%N |}.
Proof.
  intros Hunit. induction chunks as [| c rest IH]; intros w.
  - simpl. repeat split; [constructor |]. destruct w; simpl. f_equal. lia.
  - cbn [generateEmbeddings].
    destruct (mock_embedding_spec VectorDB.dimension Hunit w) as (Hlen & Hall & Hw).
    destruct (mock_embedding e VectorDB.dimension w) as [embedding w1].
    cbn [fst snd] in Hlen, Hall, Hw. subst w1.
    specialize (IH {| reads := reads w;
                      draws := (draws w + N.of_nat VectorDB.dimension)%N |}).
    destruct (generateEmbeddings e rest _) as [embeddings w2].
    cbn [fst snd reads draws List.length] in *. destruct IH as (Hlen' & Hall' & Hw').
    split; [congruence |]. split.
    + constructor; [| exact Hall']. split; [exact Hlen | exact Hall].
    + rewrite Hw'. f_equal.
      change (N.of_nat VectorDB.dimension) with 1536%N. lia.
Qed.

(** ** [processDocument] *)

Lemma append_nonempty (a b : string) : a <> "" -> a ++ b <> "".
Proof. destruct a; [congruence | discriminate]. Qed.

Lemma mock_content_nonempty (e : env) (fileName fileType : string) (w : World) :
  fst (generateMockDocumentContent e fileName fileType w) <> "".
Proof.
  unfold generateMockDocumentContent.
  destruct (Date_toISOString e w) as [now w1].
  assert (Hbase : forall rest, mock_before_name ++ rest <> "").
  { intros rest. apply append_nonempty. unfold mock_before_name. discriminate. }
  destruct (_ || _); [cbn [fst]; apply append_nonempty, Hbase |].
  destruct (_ || _); cbn [fst]; [apply append_nonempty |]; apply Hbase.
Qed.

Section Document.
Variable e : env.
Variable toString36 : Q -> string.
Variable reindent_json : string -> completion string.
Variable extractKeywords : string -> list string.
Variable extractSimpleEntities : string -> Chunker.entities.
Variable const_enforced : bool.

Local Abbreviation processDocument :=
  (processDocument e toString36 reindent_json extractKeywords extractSimpleEntities
                   const_enforced).
Local Abbreviation chunking :=
  (Chunker.intelligentChunking extractKeywords extractSimpleEntities e const_enforced).
Local Abbreviation loop :=
  (Chunker.loop extractKeywords extractSimpleEntities e const_enforced).
Local Abbreviation iteration :=
  (Chunker.iteration extractKeywords extractSimpleEntities e const_enforced).

Lemma chunking_of_nothing (dom : string) (fuel : nat) (w : World) :
  chunking "" dom fuel w = Chunker.Returned [] w.
Proof. destruct fuel; reflexivity. Qed.



Lemma extractTextContent_empty (file : File) (w w1 : World) :
  extractTextContent e reindent_json file w = (Normal "", w1) ->
  In (type file) ["text/plain"; "application/json"; "text/html"].
Proof.
  unfold extractTextContent.
  destruct (String.eqb_spec (type file) "text/plain") as [-> |]; [simpl; auto |].
  destruct (String.eqb_spec (type file) "application/json") as [-> |]; [simpl; auto |].
  destruct (String.eqb_spec (type file) "text/html") as [-> |]; [simpl; auto |].
  pose proof (mock_content_nonempty e (name file) (type file) w) as Hne.
  destruct (generateMockDocumentContent e (name file) (type file) w) as [mock w2].
  intros H. injection H as -> _. now contradiction Hne.
Qed.

Lemma performDomainAnalysis_of_nothing (domain model : string) (w w1 : World)
      (a : analysis) :
  performDomainAnalysis e "" domain model w = (Normal a, w1) ->
  ~ In domain Chunker.inherited_names
  /\ key_topics a = [] /\ risk_factors a = [] /\ sentiment a = "neutral"
  /\ compliance_mentions (compliance_indicators a) = 0
  /\ key_compliance_areas (compliance_indicators a) = [].
Proof.
  unfold performDomainAnalysis, extractKeyTopics, checkCompliance, identifyRiskFactors,
    domainTopics, compliancePatterns, riskPatterns, by_domain,
    Date_toISOString, Date_now.
  destruct (String.eqb_spec domain "insurance") as [-> |].
  { intros H. injection H as <- _.
    split; [apply not_listed; reflexivity | cbn; repeat split; auto]. }
  destruct (String.eqb_spec domain "legal") as [-> |].
  { intros H. injection H as <- _.
    split; [apply not_listed; reflexivity | cbn; repeat split; auto]. }
  destruct (String.eqb_spec domain "hr") as [-> |].
  { intros H. injection H as <- _.
    split; [apply not_listed; reflexivity | cbn; repeat split; auto]. }
  destruct (existsb (String.eqb domain) Chunker.inherited_names) eqn:Hin;
    [discriminate |].
  intros H. injection H as <- _.
  split; [now apply not_listed | cbn; repeat split; auto].
Qed.

(** X25.  [processDocument] fulfils only for a text, JSON or HTML file whose
    extracted text is empty: the document it fulfils with has no
    characters, no chunks and no vectors, one counted word on one page,
    no topics, no risk factors and no compliance mentions, and the
    domain is no inherited property name. *)
Theorem processDocument_fulfils_only_on_empty_text
        (fuel : nat) (file : File) (domain model : string) (w w' : World)
        (doc : document) :
  processDocument fuel file domain model w = MultiAI.Settled (Normal doc) w' ->
  In (type file) ["text/plain"; "application/json"; "text/html"]
  /\ size file <= 52428800
  /\ ~ In domain Chunker.inherited_names
  /\ success doc = true
  /\ text_length doc = 0 /\ chunks doc = 0 /\ chunk_data doc = []
  /\ vector_count doc = 0
  /\ word_count (document_metadata doc) = 1
  /\ estimated_pages (document_metadata doc) = 1
  /\ key_topics (domain_analysis doc) = []
  /\ risk_factors (domain_analysis doc) = []
  /\ sentiment (domain_analysis doc) = "neutral"
  /\ compliance_mentions (compliance_indicators (domain_analysis doc)) = 0.
Proof.
  unfold Processor.processDocument, failed.
  destruct (Date_now e w) as [startTime w0].
  destruct (negb _); [discriminate |].
  destruct (_ <? size file) eqn:Hsize; [discriminate |]. apply Z.ltb_ge in Hsize.
  destruct (extractTextContent e reindent_json file w0) as [[text | m] w1] eqn:Hext;
    [| discriminate].
  destruct (chunking text domain fuel w1) as [cs w2 | m | st] eqn:Hchunk;
    try discriminate.
  assert (text = "") as ->.
  { destruct (string_dec text "") as [| Hne]; [assumption | exfalso].
    eapply ChunkerFacts.loop_never_returns; [| exact Hchunk].
    simpl. now apply ChunkerFacts.len_pos. }
  rewrite chunking_of_nothing in Hchunk. injection Hchunk as <- <-.
  apply extractTextContent_empty in Hext.
  unfold extractMetadata, Date_toISOString, Date_now, Math_random.
  cbn [generateEmbeddings fst snd reads draws].
  match goal with
  | |- context [performDomainAnalysis e "" domain model ?w4] =>
      destruct (performDomainAnalysis e "" domain model w4) as [[a | m] w5] eqn:Ha;
        [| discriminate]
  end.
  apply performDomainAnalysis_of_nothing in Ha.
  destruct Ha as (Hdom & Htopics & Hrisks & Hsent & Hmentions & _).
  unfold generateDocumentId, Date_now, Math_random.
  intros H. injection H as <- _.
  cbn [success text_length chunks chunk_data vector_count document_metadata
       word_count estimated_pages domain_analysis].
  repeat split; auto.
Qed.




End Document.

(** ** Concrete runs *)

Import Inputs MoreInputs.

Lemma unknown_domains_fall_back_to_insurance_witness :
  ~ In "medical" Chunker.inherited_names
  /\ "medical" <> "legal" /\ "medical" <> "hr"
  /\ extractKeyTopics "Premium and claims" "medical"
     = extractKeyTopics "Premium and claims" "insurance"
  /\ checkCompliance "Premium and claims" "medical"
     = checkCompliance "Premium and claims" "insurance"
  /\ identifyRiskFactors "Premium and claims" "medical"
     = identifyRiskFactors "Premium and claims" "insurance".
Proof.
  assert (H1 : ~ In "medical" Chunker.inherited_names)
    by (apply not_listed; reflexivity).
  assert (H2 : "medical" <> "legal") by discriminate.
  assert (H3 : "medical" <> "hr") by discriminate.
  split; [exact H1 |]. split; [exact H2 |]. split; [exact H3 |].
  exact (@unknown_domains_fall_back_to_insurance "Premium and claims" "medical" H1 H2 H3).
Defined.


Lemma extractMetadata_ranges_witness :
  unit_doubles midnight
  /\ rounds_to_nearest midnight
  /\ 1 <= word_count (fst (extractMetadata midnight empty_note "" "insurance" "gpt-4" fresh))
     <= len "" + 1.
Proof.
  split; [exact midnight_unit_doubles |].
  split; [exact midnight_rounds_to_nearest |].
  exact (proj1 (@extractMetadata_ranges midnight empty_note "" "insurance" "gpt-4" fresh
                  midnight_unit_doubles midnight_rounds_to_nearest)).
Defined.

Lemma generateEmbeddings_shape_witness :
  unit_interval midnight
  /\ List.length (fst (generateEmbeddings midnight one_chunk fresh))
     = List.length one_chunk.
Proof.
  split; [exact midnight_unit_interval |].
  exact (proj1 (@generateEmbeddings_shape midnight one_chunk midnight_unit_interval
                  fresh)).
Defined.

Lemma processDocument_fulfils_only_on_empty_text_witness :
  exists doc w',
    processDocument midnight digits36 no_json no_keywords no_entities false 0
                    empty_note "insurance" "gpt-4" fresh
    = MultiAI.Settled (Normal doc) w'
    /\ In (type empty_note) ["text/plain"; "application/json"; "text/html"]
    /\ size empty_note <= 52428800
    /\ ~ In "insurance" Chunker.inherited_names
    /\ success doc = true
    /\ text_length doc = 0 /\ chunks doc = 0 /\ chunk_data doc = []
    /\ vector_count doc = 0
    /\ word_count (document_metadata doc) = 1
    /\ estimated_pages (document_metadata doc) = 1
    /\ key_topics (domain_analysis doc) = []
    /\ risk_factors (domain_analysis doc) = []
    /\ sentiment (domain_analysis doc) = "neutral"
    /\ compliance_mentions (compliance_indicators (domain_analysis doc)) = 0.
Proof.
  eexists _, _.
  refine ((fun H => conj H
             (@processDocument_fulfils_only_on_empty_text midnight digits36 no_json
                no_keywords no_entities false 0 empty_note "insurance" "gpt-4" fresh
                _ _ H)) _).
  reflexivity.
Defined.


End ProcessorMore.

(* ================================================================== *)
(** * Further properties of the question route                          *)
(* ================================================================== *)

Module RouteMore.
Import JS MultiAI Route Vocabulary.

Section Handler.
Variable e : env.
Variable templates :
  string -> string -> list value -> string -> string -> World ->
  completion response * World.

Local Abbreviation POST := (Route.POST e templates).

Lemma POST_of_valid (b : body) (q : value) (qs : list value) (c : ascii) (sid : string)
      (sched : list nat) (w : World) :
  Route.questions b = Some (q :: qs) ->
  Route.session_id b = Some (String c sid) ->
  POST b sched w
  = match processQuestions e templates (q :: qs) (or_default (Route.documents b) [])
            (options_of b (String c sid)) sched w with
    | Settled (Normal result) w' => Settled (Normal (Json result)) w'
    | Settled (Throw m) w' =>
        Settled (Normal (ServerError "Failed to process questions with AI models" m)) w'
    | Pending => Pending
    end.
Proof. intros Hq Hs. unfold Route.POST. now rewrite Hq, Hs. Qed.


(** X28.  A valid request that names no model and no mode is processed
    sequentially by [gpt-4-turbo] of [openai]: the answer has status
    200 and does not depend on the timers. *)
Theorem POST_defaults (b : body) (qs : list value) (sid : string)
        (sched : list nat) (w : World) :
  Route.questions b = Some qs -> qs <> [] ->
  Route.session_id b = Some sid -> sid <> "" ->
  Route.model b = None -> Route.batch_mode b = None ->
  exists s w',
    POST b sched w = Settled (Normal (Json s)) w'
    /\ session_model (metadata s) = "gpt-4-turbo"
    /\ session_provider (metadata s) = "openai"
    /\ List.length (results s) = List.length qs
    /\ Forall (fun r => model_used r = "gpt-4-turbo" /\ provider r = "openai") (results s)
    /\ forall sched', POST b sched' w = POST b sched w.
Proof.
  intros Hq Hne Hs Hsid Hmodel Hmode.
  destruct qs as [| q qs]; [congruence |]. destruct sid as [| c sid]; [congruence |].
  assert (Hm : MultiAI.model (options_of b (String c sid)) = "gpt-4-turbo").
  { cbn [options_of MultiAI.model]. now rewrite Hmodel. }
  assert (Hb : MultiAI.batch_mode (options_of b (String c sid)) = false).
  { cbn [options_of MultiAI.batch_mode]. now rewrite Hmode. }
  destruct (@MultiAIMore.processQuestions_session e templates
              (or_default (Route.documents b) []) (options_of b (String c sid))
              (q :: qs) sched w) as (s & w' & Hrun & Hlen & Hall & _ & _ & _ & _
                                     & Hsm & Hsp & _).
  { rewrite Hm. discriminate. }
  { rewrite Hb. discriminate. }
  assert (Hind : forall sched', POST b sched' w = POST b sched w).
  { intros sched'. rewrite !(POST_of_valid b _ w Hq Hs).
    unfold processQuestions. destruct (Date_now e w) as [t w0].
    rewrite Hb. reflexivity. }
  exists s, w'. split; [now rewrite (POST_of_valid b sched w Hq Hs), Hrun |]. split; [now rewrite Hsm |].
  split; [now rewrite Hsp, Hm |]. split; [exact Hlen |]. split.
  - apply Forall_forall. intros r Hr. apply In_nth_error in Hr. destruct Hr as [i Hi].
    assert (Hlt : (i < List.length (q :: qs))%nat).
    { rewrite <- Hlen. apply nth_error_Some. congruence. }
    destruct (nth_error (q :: qs) i) as [qi |] eqn:Hqi;
      [| apply nth_error_None in Hqi; lia].
    destruct (Hall i qi Hqi) as (r' & Hr' & Hp).
    assert (r' = r) by congruence. subst r'.
    destruct (MultiAIMore.produced_at_record Hp) as (_ & Hmu & Hpr & _).
    rewrite Hmu, Hpr, Hm. auto.
  - exact Hind.
Qed.


End Handler.

(** ** Concrete runs *)

Import Inputs MoreInputs.


Lemma POST_defaults_witness :
  Route.questions plain_request = Some three_questions
  /\ three_questions <> []
  /\ Route.session_id plain_request = Some "s1"
  /\ "s1" <> ""
  /\ Route.model plain_request = None
  /\ Route.batch_mode plain_request = None
  /\ exists s w',
       Route.POST midnight canned plain_request [] fresh = Settled (Normal (Json s)) w'
       /\ session_model (metadata s) = "gpt-4-turbo"
       /\ session_provider (metadata s) = "openai"
       /\ List.length (results s) = List.length three_questions
       /\ Forall (fun r => model_used r = "gpt-4-turbo" /\ provider r = "openai")
                 (results s)
       /\ forall sched',
            Route.POST midnight canned plain_request sched' fresh
            = Route.POST midnight canned plain_request [] fresh.
Proof.
  assert (H1 : Route.questions plain_request = Some three_questions) by reflexivity.
  assert (H2 : three_questions <> []) by discriminate.
  assert (H3 : Route.session_id plain_request = Some "s1") by reflexivity.
  assert (H4 : "s1" <> "") by discriminate.
  split; [exact H1 |]. split; [exact H2 |]. split; [exact H3 |]. split; [exact H4 |].
  split; [reflexivity |]. split; [reflexivity |].
  exact (@POST_defaults midnight canned plain_request three_questions "s1" [] fresh
           H1 H2 H3 H4 eq_refl eq_refl).
Defined.

End RouteMore.
